(** * CellProfiler object editor ([cellprofiler/gui/editobjectsdlg.py])

    A shallow embedding of the editing core of [EditObjectsDialog]: the
    label planes and their IJV flattening, the sparse-diff undo engine,
    the control-point simplifier, the drag validity check, the
    join / delete / escape operations, the keep flags, the split test and
    what closing the dialog commits, followed by the properties of the
    specification that were checked against them.

    Conventions.
    - A label plane (a 2-D numpy integer array) is a list of rows.  Row
      and column indices are [nat]; labels are [Z].
    - An IJV row is [(i, j, v)].  A row of the 4-column undo array is
      [(i, j, v, e)] where the last column only ever holds the values
      written by [np.zeros] (current raster, [New], 0) and [np.ones]
      (previous raster, [Old], 1).
    - Control-point coordinates are rationals: every number that occurs in
      the statements below is exactly representable, so the rational
      arithmetic agrees with the floating point one on them.  The hit
      test of [get_control_point], which takes a square root, is computed
      in double precision on the doubles the coordinates stand for.
    - What only feeds the screen ([init_labels], [display],
      [update_artists], the colour map) is not modelled.
    - numpy and Python failures are explicit: [result] for array
      expressions, [outcome] for methods that mutate the dialog. *)

From Stdlib Require Import String.
From Stdlib Require Import List ZArith QArith Qabs Lia Bool Arith Permutation.
From Stdlib Require Import Sorting.Sorted.
From Stdlib Require Floats Uint63.
Import ListNotations.

Set Implicit Arguments.

(* ------------------------------------------------------------------ *)
(** ** Failures *)

Inductive exn : Type :=
| IndexError
| KeyError
| ValueError
| AttributeError
| ZeroDivisionError.

Inductive result (A : Type) : Type :=
| Ok (a : A)
| Raise (e : exn).

Arguments Ok {A} a.
Arguments Raise {A} e.

Definition bind {A B : Type} (m : result A) (k : A -> result B) : result B :=
  match m with
  | Ok a => k a
  | Raise e => Raise e
  end.

Notation "x <- m ;; k" := (bind m (fun x => k))
  (at level 61, m at next level, right associativity).

(* ------------------------------------------------------------------ *)
(** ** Label planes and IJV rows *)

Definition plane : Type := list (list Z).
Definition ijv : Type := (nat * nat * Z)%type.

Inductive epoch : Type :=
| New   (* column value 0: row of the current raster *)
| Old.  (* column value 1: row of [last_ijv] *)

Definition ijvx : Type := (nat * nat * Z * epoch)%type.

Definition epoch_code (e : epoch) : Z :=
  match e with New => 0 | Old => 1 end.

Definition ijv_of (r : ijvx) : ijv := fst r.
Definition epoch_of (r : ijvx) : epoch := snd r.
Definition tag (e : epoch) (t : ijv) : ijvx := (t, e).

Definition ijv_eqb (a b : ijv) : bool :=
  match a, b with
  | (i, j, v), (i', j', v') => Nat.eqb i i' && Nat.eqb j j' && Z.eqb v v'
  end.

Definition epoch_eqb (a b : epoch) : bool :=
  match a, b with
  | New, New | Old, Old => true
  | _, _ => false
  end.

(** [arr.shape] of a 2-D array.  The width of an array without rows is
    not represented. *)
Definition shape_of (p : plane) : nat * nat :=
  (length p, length (hd [] p)).

Definition has_shape (sh : nat * nat) (p : plane) : Prop :=
  length p = fst sh /\ Forall (fun r => length r = snd sh) p.

Definition has_shapeb (sh : nat * nat) (p : plane) : bool :=
  Nat.eqb (length p) (fst sh) &&
  forallb (fun r => Nat.eqb (length r) (snd sh)) p.

(** The rows [(i, j, l[i, j])] of the nonzero pixels of one plane, in the
    order numpy's boolean mask indexing yields them (C order). *)
Fixpoint row_ijv (i j : nat) (r : list Z) : list ijv :=
  match r with
  | [] => []
  | x :: r' =>
      (if Z.eqb x 0 then [] else [(i, j, x)]) ++ row_ijv i (S j) r'
  end.

Fixpoint plane_ijv_from (i : nat) (p : plane) : list ijv :=
  match p with
  | [] => []
  | r :: p' => row_ijv i 0 r ++ plane_ijv_from (S i) p'
  end.

Definition plane_ijv (p : plane) : list ijv := plane_ijv_from 0 p.

(** [np.column_stack([i[l != 0], j[l != 0], l[l != 0]])] where [i, j] is
    the [np.mgrid] of the dialog's shape: indexing the grid with a mask
    of another shape is an [IndexError]. *)
Definition masked_ijv (sh : nat * nat) (l : plane) : result (list ijv) :=
  if has_shapeb sh l then Ok (plane_ijv l) else Raise IndexError.

(** [calculate_ijv]: the planes are stacked one after the other. *)
Fixpoint calculate_ijv (sh : nat * nat) (labels : list plane)
  : result (list ijv) :=
  match labels with
  | [] => Ok []
  | l :: ls =>
      rows <- masked_ijv sh l ;;
      rest <- calculate_ijv sh ls ;;
      Ok (rows ++ rest)
  end.

(** The flattening of well-shaped planes, without the failure case. *)
Definition planes_ijv (labels : list plane) : list ijv :=
  flat_map plane_ijv labels.

(* ------------------------------------------------------------------ *)
(** ** [np.lexsort] on the four columns and the cancellation of pairs *)

(** [np.lexsort((x[:,3], x[:,2], x[:,1], x[:,0]))]: the last key is the
    primary one, so rows are ordered by i, then j, then v, then epoch.
    All four columns are keys, hence rows that compare equal are equal and
    the result does not depend on the sorting algorithm. *)
Definition row_ltb (a b : ijvx) : bool :=
  match a, b with
  | (i, j, v, e), (i', j', v', e') =>
      if Nat.ltb i i' then true
      else if negb (Nat.eqb i i') then false
      else if Nat.ltb j j' then true
      else if negb (Nat.eqb j j') then false
      else if Z.ltb v v' then true
      else if negb (Z.eqb v v') then false
      else Z.ltb (epoch_code e) (epoch_code e')
  end.

Fixpoint insert_row (a : ijvx) (l : list ijvx) : list ijvx :=
  match l with
  | [] => [a]
  | b :: r => if row_ltb b a then b :: insert_row a r else a :: l
  end.

Definition lexsort (l : list ijvx) : list ijvx :=
  fold_right insert_row [] l.

(** [f(x[:-1], x[1:])] computed row by row. *)
Fixpoint pairwise (f : ijvx -> ijvx -> bool) (l : list ijvx) : list bool :=
  match l with
  | a :: (b :: _) as t => f a b :: pairwise f t
  | _ => []
  end.

(** [np.all(x[:-1, :3] == x[1:, :3], 1)] *)
Definition same_ijv (a b : ijvx) : bool := ijv_eqb (ijv_of a) (ijv_of b).

(** [... & (x[:-1, 3] == 0) & (x[1:, 3] == 1)] *)
Definition new_then_old (a b : ijvx) : bool :=
  same_ijv a b && epoch_eqb (epoch_of a) New && epoch_eqb (epoch_of b) Old.

(** [np.hstack((m, [False]))] *)
Definition matches_of (f : ijvx -> ijvx -> bool) (l : list ijvx)
  : list bool :=
  pairwise f l ++ [false].

(** [matches[1:] = matches[1:] | matches[:-1]]: the right-hand side is
    evaluated on the old contents before the assignment. *)
Definition or_with_previous (m : list bool) : list bool :=
  match m with
  | [] => []
  | h :: t => h :: map (fun p => orb (fst p) (snd p)) (combine t m)
  end.

(** [x[mask]] for a boolean mask; numpy requires the mask to be as long
    as the indexed axis. *)
Fixpoint select {A : Type} (mask : list bool) (x : list A) : list A :=
  match mask, x with
  | b :: mask', r :: x' =>
      if b then r :: select mask' x' else select mask' x'
  | _, _ => []
  end.

Definition bool_index {A : Type} (mask : list bool) (x : list A)
  : result (list A) :=
  if Nat.eqb (length mask) (length x)
  then Ok (select mask x)
  else Raise IndexError.

(** The tail common to [record_undo] and [undo]: mark, spread, filter. *)
Definition drop_matches (f : ijvx -> ijvx -> bool) (x : list ijvx)
  : result (list ijvx) :=
  bool_index (map negb (or_with_previous (matches_of f x))) x.

(* ------------------------------------------------------------------ *)
(** ** Masks and in-place plane operations *)

Definition mask : Type := list (list bool).

(** [mask.astype(dtype) * object_number] *)
Definition mask_times (m : mask) (object_number : Z) : plane :=
  map (map (fun b : bool => if b then object_number else 0%Z)) m.

(** [l[l == object_number] = 0] on one plane *)
Definition erase_label (object_number : Z) (l : plane) : plane :=
  map (map (fun v => if Z.eqb v object_number then 0%Z else v)) l.

(** [np.zeros(shape, bool)] *)
Definition zeros_mask (sh : nat * nat) : mask :=
  repeat (repeat false (snd sh)) (fst sh).

Definition zeros_plane (sh : nat * nat) : plane :=
  repeat (repeat 0%Z (snd sh)) (fst sh).

Fixpoint zip_with {A B C : Type} (f : A -> B -> C) (l : list A) (l' : list B)
  : list C :=
  match l, l' with
  | a :: r, b :: r' => f a b :: zip_with f r r'
  | _, _ => []
  end.

Definition mask_or (a b : mask) : mask := zip_with (zip_with orb) a b.
Definition mask_xor (a b : mask) : mask := zip_with (zip_with xorb) a b.

(** [a[v]] for a 1-D array of length [n] and an integer [v]: negative
    indices count from the end, anything else out of range fails. *)
Definition take (a : list bool) (v : Z) : result bool :=
  let n := Z.of_nat (length a) in
  if (0 <=? v)%Z && (v <? n)%Z then Ok (nth (Z.to_nat v) a false)
  else if (- n <=? v)%Z && (v <? 0)%Z then Ok (nth (Z.to_nat (n + v)) a false)
  else Raise IndexError.

Fixpoint map_result {A B : Type} (f : A -> result B) (l : list A)
  : result (list B) :=
  match l with
  | [] => Ok []
  | a :: r => b <- f a ;; bs <- map_result f r ;; Ok (b :: bs)
  end.

(** [to_join[label]]: the boolean array indexed by a whole plane *)
Definition take_plane (a : list bool) (l : plane) : result mask :=
  map_result (map_result (take a)) l.

(** [label[m] = 0] for a mask [m] of the plane's shape *)
Definition clear_where (m : mask) (l : plane) : plane :=
  zip_with (zip_with (fun (b : bool) v => if b then 0%Z else v)) m l.

Fixpoint set_nth {A : Type} (n : nat) (x : A) (l : list A) : list A :=
  match l, n with
  | [], _ => []
  | _ :: r, O => x :: r
  | a :: r, S n' => a :: set_nth n' x r
  end.

(** [a[v] = True] with numpy's index rule *)
Definition put_true (a : list bool) (v : Z) : result (list bool) :=
  let n := Z.of_nat (length a) in
  if (0 <=? v)%Z && (v <? n)%Z then Ok (set_nth (Z.to_nat v) true a)
  else if (- n <=? v)%Z && (v <? 0)%Z
       then Ok (set_nth (Z.to_nat (n + v)) true a)
  else Raise IndexError.

(** [a[vs] = True] *)
Fixpoint put_true_all (a : list bool) (vs : list Z) : result (list bool) :=
  match vs with
  | [] => Ok a
  | v :: r => a' <- put_true a v ;; put_true_all a' r
  end.

(** [np.unique]: the sorted distinct values *)
Fixpoint insert_unique (v : Z) (l : list Z) : list Z :=
  match l with
  | [] => [v]
  | w :: r =>
      if (v <? w)%Z then v :: l
      else if (v =? w)%Z then l
      else w :: insert_unique v r
  end.

Definition unique (l : list Z) : list Z := fold_right insert_unique [] l.

(** [np.max] of a plane; a plane without elements has no maximum. *)
Definition plane_max (l : plane) : result Z :=
  match concat l with
  | [] => Raise ValueError
  | x :: r => Ok (fold_left Z.max r x)
  end.

(* ------------------------------------------------------------------ *)
(** ** Geometry on control points *)

Definition point : Type := (Q * Q)%type.   (* (x, y) *)

Definition px (p : point) : Q := fst p.
Definition py (p : point) : Q := snd p.

(** [np.finfo(np.float32).eps] = 2^-23 *)
Definition eps32 : Q := 1 # 8388608.

Definition Qltb (a b : Q) : bool := negb (Qle_bool b a).

(** Modelled from the spec: [triangle_areas] of [cpmath.cpmorphology] is
    not part of the sources at hand.  It is the area of the triangle
    with the three given corners, half the absolute cross product of two
    of its sides, with areas below the single-precision epsilon set to 0. *)
Definition triangle_area (p1 p2 p3 : point) : Q :=
  let a := Qabs ((py p2 - py p1) * (px p3 - px p1)
                 - (py p3 - py p1) * (px p2 - px p1)) / 2 in
  if Qltb a eps32 then 0 else a.

(** Modelled from the spec: [distance2_to_line] of [cpmath.cpmorphology]
    is not part of the sources at hand.  It is the squared perpendicular
    distance from [pt] to the line through [l0] and [l1]; for [l0 = l1]
    the quotient is not a number and every comparison with it is false.
    [d2_below] is the test [distance2_to_line(pt, l0, l1) < bound]. *)
Definition d2_below (bound : Q) (pt l0 l1 : point) : bool :=
  let cross := (px l0 - px l1) * (py l0 - py pt)
               - (px l0 - px pt) * (py l0 - py l1) in
  let len2 := (px l1 - px l0) * (px l1 - px l0)
              + (py l1 - py l0) * (py l1 - py l0) in
  if Qeq_bool len2 0 then false
  else Qltb (cross * cross / len2) bound.

(** [np.sign(a) != np.sign(b)] *)
Definition sign (q : Q) : comparison := Qcompare q 0.

Definition comparison_eqb (a b : comparison) : bool :=
  match a, b with
  | Eq, Eq | Lt, Lt | Gt, Gt => true
  | _, _ => false
  end.

Definition different_sign (a b : Q) : bool :=
  negb (comparison_eqb (sign a) (sign b)).

(** Conversion of a float to [int]: truncation toward zero. *)
Definition Qtrunc (q : Q) : Z := Z.quot (Qnum q) (Zpos (Qden q)).

Definition Qmin (a b : Q) : Q := if Qle_bool a b then a else b.
Definition Qmax (a b : Q) : Q := if Qle_bool a b then b else a.

(** [lst[:-1]] and consecutive pairs [(lst[:-1], lst[1:])] *)
Fixpoint segments (l : list point) : list (point * point) :=
  match l with
  | a :: (b :: _) as t => (a, b) :: segments t
  | _ => []
  end.

(** The drag handler's test that the candidate lies on one of the
    segments of [xydata] (lines 983-990). *)
Definition on_segment (new_pt : point) (seg : point * point) : bool :=
  let (l0, l1) := seg in
  d2_below eps32 new_pt l0 l1
  && different_sign (px new_pt - px l0) (px new_pt - px l1)
  && different_sign (py new_pt - py l0) (py new_pt - py l1).

(** Geometric vocabulary of the claims: two segments cross when the
    end points of each lie strictly on opposite sides of the other. *)
Definition orient (a b c : point) : Q :=
  (px b - px a) * (py c - py a) - (py b - py a) * (px c - px a).

Definition opposite_sides (a b c d : point) : bool :=
  Qltb (orient a b c * orient a b d) 0.

Definition segments_cross (s t : point * point) : bool :=
  opposite_sides (fst s) (snd s) (fst t) (snd t)
  && opposite_sides (fst t) (snd t) (fst s) (snd s).

Definition paths_cross (p q : list point) : bool :=
  existsb (fun s => existsb (segments_cross s) (segments q)) (segments p).

(* ------------------------------------------------------------------ *)
(** ** The control-point simplifier of [make_control_points]
       (lines 1774-1795) *)

(** [np.cumsum] of a boolean array *)
Fixpoint cumsum_from (c : nat) (l : list bool) : list nat :=
  match l with
  | [] => []
  | b :: r => let c' := if b then S c else c in c' :: cumsum_from c' r
  end.

Definition cumsum (l : list bool) : list nat := cumsum_from 0 l.

(** [np.argwhere(a).flatten()] *)
Fixpoint argwhere_from (i : nat) (l : list bool) : list nat :=
  match l with
  | [] => []
  | b :: r => (if b then [i] else []) ++ argwhere_from (S i) r
  end.

Definition argwhere (l : list bool) : list nat := argwhere_from 0 l.

Definition origin : point := (0, 0).

(** [a = triangle_areas(ca[idx0], ca[idx1], chain[:-1])] with
    [idx1 = np.cumsum(accepted[:-1])], [idx0 = idx1 - 1] and
    [ca = chain[accepted]].  [accepted[0]] is set before the loop, so
    every entry of [idx1] is at least 1. *)
Definition areas (chain : list point) (accepted : list bool) : list Q :=
  let idx1 := cumsum (removelast accepted) in
  let ca := select accepted chain in
  zip_with (fun k p => triangle_area (nth (pred k) ca origin)
                                     (nth k ca origin) p)
           idx1 (removelast chain).

(** [np.argmax]: the first index that holds the maximum *)
Fixpoint argmax_from (best : Q) (besti i : nat) (l : list Q) : nat :=
  match l with
  | [] => besti
  | x :: r =>
      if Qltb best x then argmax_from x i (S i) r
      else argmax_from best besti (S i) r
  end.

Definition argmax (l : list Q) : nat :=
  match l with
  | [] => O
  | x :: r => argmax_from x 0 1 r
  end.

(** The [while True] loop; [None] when the fuel runs out first. *)
Fixpoint accept_loop (fuel : nat) (chain : list point) (accepted : list bool)
  : option (list bool) :=
  match fuel with
  | O => None
  | S fuel' =>
      let idx1 := cumsum (removelast accepted) in
      let aidx := argwhere accepted in
      let a := areas chain accepted in
      let idxmax := argmax a in
      if Qltb (nth idxmax a 0) 4 then Some accepted
      else
        let k1 := nth idxmax idx1 O in
        let idx := ((nth (pred k1) aidx O + nth k1 aidx O) / 2)%nat in
        accept_loop fuel' chain (set_nth idx true accepted)
  end.

(** The accepted array before the loop (lines 1776-1779). *)
Definition seed_accepted (n : nat) : list bool :=
  set_nth (n / 2)%nat true
    (set_nth (n - 1)%nat true (set_nth 0%nat true (repeat false n))).

(** Lines 1774-1795 for one closed chain. *)
Definition control_points_fuel (fuel : nat) (chain : list point)
  : option (list point) :=
  if (10 <? length chain)%nat then
    match accept_loop fuel chain (seed_accepted (length chain)) with
    | Some accepted => Some (select accepted chain)
    | None => None
    end
  else Some chain.

Definition control_points (chain : list point) : option (list point) :=
  control_points_fuel (S (length chain)) chain.

(** *** The simplifier in the words of the specification *)

(** The nearest accepted index at or before [k], and the nearest one
    after [k]. *)
Definition accepted_before (accepted : list bool) (k : nat) : nat :=
  last (filter (fun i => Nat.leb i k) (argwhere accepted)) O.

Definition accepted_after (accepted : list bool) (k : nat) : nat :=
  hd O (filter (fun i => Nat.ltb k i) (argwhere accepted)).

(** The area of the triangle a point forms with its two accepted
    neighbours. *)
Definition deviation (chain : list point) (accepted : list bool) (k : nat)
  : Q :=
  triangle_area (nth (accepted_before accepted k) chain origin)
                (nth (accepted_after accepted k) chain origin)
                (nth k chain origin).

(** [k] is the first point, among all but the closing one, of maximum
    deviation. *)
Definition worst_point (chain : list point) (accepted : list bool) (k : nat)
  : Prop :=
  (k < length chain - 1)%nat /\
  (forall k', (k' < length chain - 1)%nat ->
     deviation chain accepted k' <= deviation chain accepted k) /\
  (forall k', (k' < k)%nat ->
     deviation chain accepted k' < deviation chain accepted k).

(** One run of the simplifier from an accepted set to the final one. *)
Inductive simplifies (chain : list point)
  : list bool -> list bool -> Prop :=
| simplifies_stop accepted k :
    worst_point chain accepted k ->
    deviation chain accepted k < 4 ->
    simplifies chain accepted accepted
| simplifies_bisect accepted k final :
    worst_point chain accepted k ->
    ~ deviation chain accepted k < 4 ->
    nth k accepted true = false ->
    simplifies chain
      (set_nth ((accepted_before accepted k
                 + accepted_after accepted k) / 2)%nat true accepted)
      final ->
    simplifies chain accepted final.

(* ------------------------------------------------------------------ *)
(** ** Artists and the dialog state *)

(** One entry of [self.artists]: the [Line2D] object (its identity and
    its data) with the attribute dictionary stored under it. *)
Record artist : Type := Artist {
  aid : nat;
  xydata : list point;
  K_LABEL : Z;
  K_EDITED : bool;
  K_OUTSIDE : bool
}.

Inductive edit_mode : Type :=
| NORMAL_MODE
| SPLIT_PICK_FIRST_MODE
| SPLIT_PICK_SECOND_MODE
| FREEHAND_DRAW_MODE
| DELETE_MODE.

(** [self.active_artist] is a key of [self.artists] while a control point
    is dragged and a line of its own while drawing freehand. *)
Inductive line_ref : Type :=
| ArtistKey (a : nat)
| FreeLine (pts : list point).

(** The attributes of [EditObjectsDialog] that the editing core reads or
    writes.  [artists] holds the entries of the dictionary [self.artists]
    in the order in which the dictionary is iterated.  [undo_stack] has
    its top at the head.  [next_id] stands for the identity of the next
    [Line2D] object to be created. *)
Record dialog : Type := Dialog {
  allow_overlap : bool;
  orig_labels : list plane;
  shape : nat * nat;
  labels : list plane;
  to_keep : list bool;
  artists : list artist;
  undo_stack : list (list ijvx * list artist);
  last_ijv : list ijv;
  last_artist_save : list artist;
  mode : edit_mode;
  active_artist : option line_ref;
  active_index : option nat;
  split_artist : option (list point);
  delete_mode_artist : option (list point);
  delete_mode_rect_artist : option (list point);
  delete_mode_start : option point;
  delete_mode_filter : option (Q * Q * Q * Q);
  pressed_keys : list string;
  next_id : nat
}.

Definition set_labels (x : list plane) (d : dialog) : dialog :=
  Dialog (allow_overlap d) (orig_labels d) (shape d) x (to_keep d)
    (artists d) (undo_stack d) (last_ijv d) (last_artist_save d) (mode
    d) (active_artist d) (active_index d) (split_artist d)
    (delete_mode_artist d) (delete_mode_rect_artist d)
    (delete_mode_start d) (delete_mode_filter d) (pressed_keys d)
    (next_id d).

Definition set_to_keep (x : list bool) (d : dialog) : dialog :=
  Dialog (allow_overlap d) (orig_labels d) (shape d) (labels d) x
    (artists d) (undo_stack d) (last_ijv d) (last_artist_save d) (mode
    d) (active_artist d) (active_index d) (split_artist d)
    (delete_mode_artist d) (delete_mode_rect_artist d)
    (delete_mode_start d) (delete_mode_filter d) (pressed_keys d)
    (next_id d).

Definition set_artists (x : list artist) (d : dialog) : dialog :=
  Dialog (allow_overlap d) (orig_labels d) (shape d) (labels d) (to_keep
    d) x (undo_stack d) (last_ijv d) (last_artist_save d) (mode d)
    (active_artist d) (active_index d) (split_artist d)
    (delete_mode_artist d) (delete_mode_rect_artist d)
    (delete_mode_start d) (delete_mode_filter d) (pressed_keys d)
    (next_id d).

Definition set_undo_stack (x : list (list ijvx * list artist)) (d : dialog) : dialog :=
  Dialog (allow_overlap d) (orig_labels d) (shape d) (labels d) (to_keep
    d) (artists d) x (last_ijv d) (last_artist_save d) (mode d)
    (active_artist d) (active_index d) (split_artist d)
    (delete_mode_artist d) (delete_mode_rect_artist d)
    (delete_mode_start d) (delete_mode_filter d) (pressed_keys d)
    (next_id d).

Definition set_last_ijv (x : list ijv) (d : dialog) : dialog :=
  Dialog (allow_overlap d) (orig_labels d) (shape d) (labels d) (to_keep
    d) (artists d) (undo_stack d) x (last_artist_save d) (mode d)
    (active_artist d) (active_index d) (split_artist d)
    (delete_mode_artist d) (delete_mode_rect_artist d)
    (delete_mode_start d) (delete_mode_filter d) (pressed_keys d)
    (next_id d).

Definition set_last_artist_save (x : list artist) (d : dialog) : dialog :=
  Dialog (allow_overlap d) (orig_labels d) (shape d) (labels d) (to_keep
    d) (artists d) (undo_stack d) (last_ijv d) x (mode d) (active_artist
    d) (active_index d) (split_artist d) (delete_mode_artist d)
    (delete_mode_rect_artist d) (delete_mode_start d)
    (delete_mode_filter d) (pressed_keys d) (next_id d).

Definition set_mode (x : edit_mode) (d : dialog) : dialog :=
  Dialog (allow_overlap d) (orig_labels d) (shape d) (labels d) (to_keep
    d) (artists d) (undo_stack d) (last_ijv d) (last_artist_save d) x
    (active_artist d) (active_index d) (split_artist d)
    (delete_mode_artist d) (delete_mode_rect_artist d)
    (delete_mode_start d) (delete_mode_filter d) (pressed_keys d)
    (next_id d).

Definition set_active_artist (x : option line_ref) (d : dialog) : dialog :=
  Dialog (allow_overlap d) (orig_labels d) (shape d) (labels d) (to_keep
    d) (artists d) (undo_stack d) (last_ijv d) (last_artist_save d)
    (mode d) x (active_index d) (split_artist d) (delete_mode_artist d)
    (delete_mode_rect_artist d) (delete_mode_start d)
    (delete_mode_filter d) (pressed_keys d) (next_id d).

Definition set_active_index (x : option nat) (d : dialog) : dialog :=
  Dialog (allow_overlap d) (orig_labels d) (shape d) (labels d) (to_keep
    d) (artists d) (undo_stack d) (last_ijv d) (last_artist_save d)
    (mode d) (active_artist d) x (split_artist d) (delete_mode_artist d)
    (delete_mode_rect_artist d) (delete_mode_start d)
    (delete_mode_filter d) (pressed_keys d) (next_id d).

Definition set_split_artist (x : option (list point)) (d : dialog) : dialog :=
  Dialog (allow_overlap d) (orig_labels d) (shape d) (labels d) (to_keep
    d) (artists d) (undo_stack d) (last_ijv d) (last_artist_save d)
    (mode d) (active_artist d) (active_index d) x (delete_mode_artist d)
    (delete_mode_rect_artist d) (delete_mode_start d)
    (delete_mode_filter d) (pressed_keys d) (next_id d).

Definition set_delete_mode_artist (x : option (list point)) (d : dialog) : dialog :=
  Dialog (allow_overlap d) (orig_labels d) (shape d) (labels d) (to_keep
    d) (artists d) (undo_stack d) (last_ijv d) (last_artist_save d)
    (mode d) (active_artist d) (active_index d) (split_artist d) x
    (delete_mode_rect_artist d) (delete_mode_start d)
    (delete_mode_filter d) (pressed_keys d) (next_id d).

Definition set_delete_mode_rect_artist (x : option (list point)) (d : dialog) : dialog :=
  Dialog (allow_overlap d) (orig_labels d) (shape d) (labels d) (to_keep
    d) (artists d) (undo_stack d) (last_ijv d) (last_artist_save d)
    (mode d) (active_artist d) (active_index d) (split_artist d)
    (delete_mode_artist d) x (delete_mode_start d) (delete_mode_filter
    d) (pressed_keys d) (next_id d).

Definition set_delete_mode_start (x : option point) (d : dialog) : dialog :=
  Dialog (allow_overlap d) (orig_labels d) (shape d) (labels d) (to_keep
    d) (artists d) (undo_stack d) (last_ijv d) (last_artist_save d)
    (mode d) (active_artist d) (active_index d) (split_artist d)
    (delete_mode_artist d) (delete_mode_rect_artist d) x
    (delete_mode_filter d) (pressed_keys d) (next_id d).

Definition set_delete_mode_filter (x : option (Q * Q * Q * Q)) (d : dialog) : dialog :=
  Dialog (allow_overlap d) (orig_labels d) (shape d) (labels d) (to_keep
    d) (artists d) (undo_stack d) (last_ijv d) (last_artist_save d)
    (mode d) (active_artist d) (active_index d) (split_artist d)
    (delete_mode_artist d) (delete_mode_rect_artist d)
    (delete_mode_start d) x (pressed_keys d) (next_id d).

Definition set_pressed_keys (x : list string) (d : dialog) : dialog :=
  Dialog (allow_overlap d) (orig_labels d) (shape d) (labels d) (to_keep
    d) (artists d) (undo_stack d) (last_ijv d) (last_artist_save d)
    (mode d) (active_artist d) (active_index d) (split_artist d)
    (delete_mode_artist d) (delete_mode_rect_artist d)
    (delete_mode_start d) (delete_mode_filter d) x (next_id d).

Definition set_next_id (x : nat) (d : dialog) : dialog :=
  Dialog (allow_overlap d) (orig_labels d) (shape d) (labels d) (to_keep
    d) (artists d) (undo_stack d) (last_ijv d) (last_artist_save d)
    (mode d) (active_artist d) (active_index d) (split_artist d)
    (delete_mode_artist d) (delete_mode_rect_artist d)
    (delete_mode_start d) (delete_mode_filter d) (pressed_keys d) x.

(** A mouse or key event as the handlers read it: [key] and [button],
    whether [event.inaxes] is the editing axes, the display coordinates
    [event.x, event.y] and the data coordinates [event.xdata, event.ydata]. *)
Record event : Type := Event {
  key : string;
  button : nat;
  inaxes : bool;
  ev_x : Q;
  ev_y : Q;
  xdata : Q;
  ydata : Q
}.

(** The result of calling a method: it returns, it raises (with the
    dialog as mutated so far), or its loop never ends. *)
Inductive outcome : Type :=
| Done (d : dialog)
| Raised (e : exn) (d : dialog)
| Diverged.

Definition and_then (o : outcome) (k : dialog -> outcome) : outcome :=
  match o with
  | Done d => k d
  | Raised e d => Raised e d
  | Diverged => Diverged
  end.

(* ------------------------------------------------------------------ *)
(** ** The methods of [EditObjectsDialog] *)

Section Methods.

(** Collaborators that live outside the file.
    - [get_labels sh ijv]: the label planes that [cpo.Objects.get_labels]
      derives from an IJV array (restructuring).
    - [polygon_lines_to_mask xy sh]: the filled mask of a closed chain.
    - [outline_pts polarity m]: the ordered border pixels [(i, j)] of the
      parts of an object mask ([True], 8-connected) or of its holes
      ([False], 4-connected), one chain per part
      ([scipy.ndimage.label] followed by [get_outline_pts]).
    - [circle13]: [(cos a, sin a)] for the 13 angles of [new_object].
    - [intersects_path p q]: matplotlib's [Path.intersects_path].
    - [transform]: the data-to-display transform of an artist.
    - [other_command]: the commands of normal mode that are not modelled
      (convex hull, add control point, context menu). *)
Variable get_labels : nat * nat -> list ijv -> list plane.
Variable polygon_lines_to_mask : list point -> nat * nat -> mask.
Variable outline_pts : bool -> mask -> list (list point).
Variable circle13 : list point.
Variable intersects_path : list point -> list point -> bool.
Variable transform : point -> point.
Variable other_command : string -> event -> dialog -> outcome.

(** *** Undo engine (lines 154-248, 1711-1724) *)

Definition record_undo (d : dialog) : outcome :=
  match calculate_ijv (shape d) (labels d) with
  | Raise e => Raised e d
  | Ok ijv =>
      let diff :=
        match ijv with
        | [] => Ok []
        | _ :: _ =>
            drop_matches new_then_old
              (lexsort (map (tag New) ijv ++ map (tag Old) (last_ijv d)))
        end in
      match diff with
      | Raise e => Raised e d
      | Ok ijvx =>
          let artist_save := artists d in
          Done (set_last_ijv ijv
                 (set_last_artist_save artist_save
                   (set_undo_stack ((ijvx, last_artist_save d) :: undo_stack d)
                      d)))
      end
  end.

(** New [Line2D] objects for a saved chain set. *)
Fixpoint rebuild_artists (id : nat) (save : list artist) : list artist :=
  match save with
  | [] => []
  | a :: r =>
      Artist id (xydata a) (K_LABEL a) (K_EDITED a) (K_OUTSIDE a)
      :: rebuild_artists (S id) r
  end.

(** [undo]: popping an empty stack fails.  When the popped diff and
    [last_ijv] are both empty, the stacked array has no rows while
    [matches], which always ends with the appended [False], has one
    entry: the filter [ijvx[~matches, :]] then fails in [drop_matches],
    after the entry was popped.  The redrawing of the chains and of the
    display is not modelled. *)
Definition undo (d : dialog) : outcome :=
  match undo_stack d with
  | [] => Raised IndexError d
  | (ijvx, artist_save) :: rest =>
      let d1 := set_undo_stack rest d in
      match drop_matches same_ijv
              (lexsort (ijvx ++ map (tag Old) (last_ijv d))) with
      | Raise e => Raised e d1
      | Ok kept =>
          let ijv := map ijv_of kept in
          Done (set_next_id (next_id d + length artist_save)
                 (set_artists (rebuild_artists (next_id d) artist_save)
                   (set_labels (get_labels (shape d) ijv)
                     (set_last_artist_save artist_save
                       (set_last_ijv ijv d1)))))
      end
  end.

Definition reset (d : dialog) : outcome :=
  let d1 := set_labels (orig_labels d) d in
  match map_result plane_max (orig_labels d) with
  | Raise e => Raised e d1
  | Ok [] => Raised ValueError d1
  | Ok (m :: ms) =>
      let nlabels := fold_left Z.max ms m in
      if (nlabels + 1 <? 0)%Z then Raised ValueError d1
      else
        let d2 := set_undo_stack []
                    (set_artists []
                      (set_to_keep (repeat true (Z.to_nat (nlabels + 1))) d1)) in
        match calculate_ijv (shape d2) (labels d2) with
        | Raise e => Raised e d2
        | Ok ijv => Done (set_last_artist_save [] (set_last_ijv ijv d2))
        end
  end.

(** [__init__] up to the construction of the window.  An empty list of
    planes fails at [orig_labels[0]]; [reset] has no loop, so its outcome
    is never [Diverged]. *)
Definition init (orig : list plane) (overlap : bool) : result dialog :=
  match orig with
  | [] => Raise IndexError
  | l0 :: _ =>
      let d0 := Dialog overlap orig (shape_of l0) [] [] [] [] [] []
                       NORMAL_MODE None None None None None None None [] O in
      match reset d0 with
      | Done d => Ok d
      | Raised e _ => Raise e
      | Diverged => Raise ValueError
      end
  end.

(** *** Raster updates (lines 550-582, 1809-1844) *)

Definition remove_label (object_number : Z) (d : dialog) : dialog :=
  set_labels (map (erase_label object_number) (labels d)) d.

Definition restructure_labels (d : dialog) : outcome :=
  match calculate_ijv (shape d) (labels d) with
  | Raise e => Raised e d
  | Ok ijv => Done (set_labels (get_labels (shape d) ijv) d)
  end.

(** [self.labels.append(mask.astype(self.labels[0].dtype) * n)]: reading
    the element type of the first plane fails when there is no plane. *)
Definition append_label (m : mask) (object_number : Z) (d : dialog)
  : outcome :=
  match labels d with
  | [] => Raised IndexError d
  | _ :: _ => Done (set_labels (labels d ++ [mask_times m object_number]) d)
  end.

Definition replace_label (m : mask) (object_number : Z) (d : dialog)
  : outcome :=
  let d1 := remove_label object_number d in
  and_then (append_label m object_number d1) restructure_labels.

Definition add_label (m : mask) (d : dialog) : outcome :=
  let object_number := Z.of_nat (length (to_keep d)) in
  let d1 := set_to_keep (to_keep d ++ [true]) d in
  and_then (append_label m object_number d1) restructure_labels.

Definition has_label (label : Z) (a : artist) : bool :=
  Z.eqb (K_LABEL a) label.

Definition close_label (label : Z) (d : dialog) : outcome :=
  let my_artists := filter (has_label label) (artists d) in
  let others := filter (fun a => negb (has_label label a)) (artists d) in
  if existsb K_EDITED my_artists then
    let m := fold_left
               (fun m a =>
                  mask_xor m (polygon_lines_to_mask (xydata a) (shape d)))
               my_artists (zeros_mask (shape d)) in
    replace_label m label (set_artists others d)
  else Done (set_artists others d).

(** *** [make_control_points] (lines 1733-1807) *)

Definition object_mask (d : dialog) (object_number : Z) : mask :=
  fold_left
    (fun m l => mask_or m (map (map (fun v => Z.eqb v object_number)) l))
    (labels d) (zeros_mask (shape d)).

Definition swap_xy (p : point) : point := (snd p, fst p).

Fixpoint add_chains (polarity : bool) (object_number : Z)
    (chains : list (list point)) (d : dialog) : outcome :=
  match chains with
  | [] => Done d
  | raw :: rest =>
      let chain := if polarity then raw else rev raw in
      let chain := chain ++ firstn 1 chain in
      match control_points chain with
      | None => Diverged
      | Some cp =>
          let a := Artist (next_id d) (map swap_xy cp)
                          object_number false polarity in
          add_chains polarity object_number rest
            (set_next_id (S (next_id d)) (set_artists (artists d ++ [a]) d))
      end
  end.

Definition make_control_points (object_number : Z) (d : dialog) : outcome :=
  let m := object_mask d object_number in
  and_then (add_chains true object_number (outline_pts true m) d)
           (add_chains false object_number (outline_pts false m)).

(** *** [join_objects] (lines 1062-1089) *)

(** The loop over the planes: collect [to_join[label]] into the mask and
    erase those pixels. *)
Fixpoint join_erase (to_join : list bool) (ls : list plane) (m : mask)
  : result (mask * list plane) :=
  match ls with
  | [] => Ok (m, [])
  | l :: r =>
      t <- take_plane to_join l ;;
      p <- join_erase to_join r (mask_or m t) ;;
      Ok (fst p, clear_where t l :: snd p)
  end.

Definition close_labels (all_labels : list Z) (d : dialog) : outcome :=
  fold_left (fun o label => and_then o (close_label label))
            all_labels (Done d).

Definition join_objects (d : dialog) : outcome :=
  let all_labels := unique (map K_LABEL (artists d)) in
  if (length all_labels <? 2)%nat then Done d
  else
    let object_number := hd 0%Z all_labels in
    and_then (close_labels all_labels d) (fun d1 =>
      match put_true_all (repeat false (length (to_keep d1))) all_labels with
      | Raise e => Raised e d1
      | Ok to_join =>
          match join_erase to_join (labels d1) (zeros_mask (shape d1)) with
          | Raise e => Raised e d1
          | Ok (m, erased) =>
              and_then
                (append_label m object_number (set_labels erased d1))
                (fun d2 =>
                   and_then (restructure_labels d2) (fun d3 =>
                     and_then (make_control_points object_number d3)
                              record_undo))
          end
      end).

(** *** Picking and deleting control points (lines 725-744, 1160-1193) *)

(** The double that an integer and a rational stand for: the nearest one
    when there is no exact one.  Numerators and denominators are taken
    below 2^63. *)
Definition Z_to_float (z : Z) : PrimFloat.float :=
  match z with
  | Z0 => PrimFloat.of_uint63 (Uint63.of_Z 0)
  | Zpos _ => PrimFloat.of_uint63 (Uint63.of_Z z)
  | Zneg p => PrimFloat.opp (PrimFloat.of_uint63 (Uint63.of_Z (Zpos p)))
  end.

Definition to_float (q : Q) : PrimFloat.float :=
  PrimFloat.div (Z_to_float (Qnum q)) (Z_to_float (Zpos (Qden q))).

(** [np.sqrt((x - event.x)**2 + (y - event.y)**2)] for one point, in
    double precision. *)
Definition distance (p : point) (x y : Q) : PrimFloat.float :=
  let dx := PrimFloat.sub (to_float (px p)) (to_float x) in
  let dy := PrimFloat.sub (to_float (py p)) (to_float y) in
  PrimFloat.sqrt (PrimFloat.add (PrimFloat.mul dx dx) (PrimFloat.mul dy dy)).

(** [np.argmin]: the first index of the minimum with its value; there is
    none for an empty array. *)
Fixpoint argmin_from (best : PrimFloat.float) (besti i : nat)
    (l : list PrimFloat.float) : nat * PrimFloat.float :=
  match l with
  | [] => (besti, best)
  | x :: r =>
      if PrimFloat.ltb x best then argmin_from x i (S i) r
      else argmin_from best besti (S i) r
  end.

Definition argmin (l : list PrimFloat.float)
  : result (nat * PrimFloat.float) :=
  match l with
  | [] => Raise ValueError
  | x :: r => Ok (argmin_from x 0 1 r)
  end.

(** [epsilon = 5], the maximum pixel distance to a vertex for the hit
    test. *)
Definition epsilon : PrimFloat.float := Z_to_float 5.

(** The loop of [get_control_point]; [best] is [None] while [best_d] is
    [np.inf]. *)
Fixpoint pick_from (ev : event) (l : list artist)
    (best : option (PrimFloat.float * artist * nat))
  : result (option (PrimFloat.float * artist * nat)) :=
  match l with
  | [] => Ok best
  | a :: r =>
      let data := removelast (xydata a) in
      let d := map (fun p => distance (transform p) (ev_x ev) (ev_y ev))
                   data in
      m <- argmin d ;;
      let (idx, dm) := m in
      let closer := match best with
                    | None => true
                    | Some (bd, _, _) => PrimFloat.ltb dm bd
                    end in
      pick_from ev r
        (if PrimFloat.ltb dm epsilon && closer then Some (dm, a, idx)
         else best)
  end.

Definition get_control_point (ev : event) (d : dialog)
  : result (option (artist * nat)) :=
  b <- pick_from ev (artists d) None ;;
  Ok (match b with
      | None => None
      | Some (_, a, idx) => Some (a, idx)
      end).

Definition same_artist (a b : artist) : bool := Nat.eqb (aid a) (aid b).

Definition mark_edited (a : artist) : artist :=
  Artist (aid a) (xydata a) (K_LABEL a) true (K_OUTSIDE a).

Definition set_data (xy : list point) (a : artist) : artist :=
  Artist (aid a) xy (K_LABEL a) (K_EDITED a) (K_OUTSIDE a).

Definition delete_artist (a : artist) (d : dialog) : dialog :=
  let object_number := K_LABEL a in
  let rest := filter (fun b => negb (same_artist a b)) (artists d) in
  if existsb (has_label object_number) rest then
    set_artists
      (map (fun b => if has_label object_number b then mark_edited b else b)
           rest) d
  else remove_label object_number (set_artists rest d).

Definition delete_control_point (ev : event) (d : dialog) : outcome :=
  match get_control_point ev d with
  | Raise e => Raised e d
  | Ok None => Done d
  | Ok (Some (best_artist, best_index)) =>
      let l := xydata best_artist in
      if (length l <? 4)%nat then
        record_undo (delete_artist best_artist d)
      else
        let l1 := firstn best_index l
                  ++ removelast (skipn (S best_index) l) in
        let l2 := l1 ++ firstn 1 l1 in
        record_undo
          (set_artists
             (map (fun b => if same_artist best_artist b
                            then mark_edited (set_data l2 b) else b)
                  (artists d)) d)
  end.

(** *** [new_object] and [remove_artists] (lines 1195-1224) *)

Definition clip_new_object (sh : nat * nat) (p : point) : point :=
  let x := px p in
  let x := if Qltb x 0 then 0 else x in
  let x := if Qle_bool (inject_Z (Z.of_nat (snd sh))) x
           then inject_Z (Z.of_nat (snd sh)) - 1 else x in
  let y := py p in
  let y := if Qle_bool (inject_Z (Z.of_nat (fst sh))) y
           then inject_Z (Z.of_nat (fst sh)) - 1 else y in
  (x, y).

Definition new_object (ev : event) (d : dialog) : outcome :=
  let object_number := Z.of_nat (length (to_keep d)) in
  let d1 := set_to_keep (to_keep d ++ [true]) d in
  let xy := map (fun cs => clip_new_object (shape d)
                             (20 * fst cs + xdata ev, 20 * snd cs + ydata ev))
                circle13 in
  let new_artist := Artist (next_id d) xy object_number true true in
  record_undo
    (set_next_id (S (next_id d))
       (set_artists (artists d1 ++ [new_artist]) d1)).

Definition remove_artists (d : dialog) : dialog := set_artists [] d.

(** *** The drag handler (lines 944-1012) *)

Definition find_artist (a : nat) (d : dialog) : option artist :=
  find (fun b => Nat.eqb (aid b) a) (artists d).

(** [min(self.shape[i] - 1, max(yx, 0))] *)
Definition clip_drag (size : nat) (v : Q) : Q :=
  Qmin (inject_Z (Z.of_nat size) - 1) (Qmax v 0).

(** [x[2:-2]] *)
Definition trim2 (l : list point) : list point :=
  removelast (removelast (skipn 2 l)).

(** The path of one artist against which the candidate is tested; [None]
    when the loop skips the artist. *)
Definition checked_path (d : dialog) (act : artist) (active_idx : nat)
    (a : artist) : option (list point) :=
  if allow_overlap d && negb (Z.eqb (K_LABEL a) (K_LABEL act)) then None
  else if same_artist a act then
    let data := removelast (xydata act) in
    if (length data <=? 4)%nat then None
    else Some (trim2 (skipn active_idx data ++ firstn (S active_idx) data))
  else Some (xydata a).

(** The artist makes the handler return without moving the point. *)
Definition blocks (d : dialog) (act : artist) (active_idx : nat)
    (new_pt : point) (path : list point) (a : artist) : bool :=
  match checked_path d act active_idx a with
  | None => false
  | Some xy =>
      if existsb (on_segment new_pt) (segments xy) then false
      else intersects_path path xy
  end.

(** [data[0][i] = xdata; data[1][i] = ydata], also on the closing point
    when the first point is moved. *)
Definition move_point (active_idx : nat) (p : point) (xy : list point)
  : list point :=
  let xy' := set_nth active_idx p xy in
  if Nat.eqb active_idx 0 then set_nth (length xy' - 1) p xy' else xy'.

Definition handle_mouse_moved_active_mode (ev : event) (d : dialog)
  : outcome :=
  if negb (inaxes ev) then Done d
  else
    match active_artist d, active_index d with
    | Some (ArtistKey k), Some active_idx =>
        match find_artist k d with
        | None => Raised KeyError d
        | Some act =>
            let data := removelast (xydata act) in
            let n_points := length data in
            if Nat.eqb n_points 0 then Raised ZeroDivisionError d
            else
              let before_index :=
                ((n_points - 1 + active_idx) mod n_points)%nat in
              let after_index := ((active_idx + 1) mod n_points)%nat in
              let before_pt := nth before_index data origin in
              let after_pt := nth after_index data origin in
              let y := clip_drag (fst (shape d)) (ydata ev) in
              let x := clip_drag (snd (shape d)) (xdata ev) in
              let new_pt := (inject_Z (Qtrunc x), inject_Z (Qtrunc y)) in
              let path := [before_pt; new_pt; after_pt] in
              if existsb (blocks d act active_idx new_pt path) (artists d)
              then Done d
              else
                Done (set_artists
                        (map (fun b =>
                                if same_artist act b
                                then mark_edited
                                       (set_data
                                          (move_point active_idx (x, y)
                                                      (xydata b)) b)
                                else b)
                             (artists d)) d)
        end
    | _, _ => Raised KeyError d
    end.

(** *** Modes and the key handler (lines 800-836, 1255-1268, 1512-1525,
        1578-1585, 1675-1688) *)

Definition enter_split_mode (d : dialog) : dialog :=
  set_mode SPLIT_PICK_FIRST_MODE d.

Definition exit_split_mode (d : dialog) : outcome :=
  match mode d with
  | SPLIT_PICK_SECOND_MODE =>
      match split_artist d with
      | None => Raised AttributeError d
      | Some _ => Done (set_mode NORMAL_MODE (set_split_artist None d))
      end
  | _ => Done (set_mode NORMAL_MODE d)
  end.

Definition enter_freehand_draw_mode (d : dialog) : dialog :=
  set_active_artist None (set_mode FREEHAND_DRAW_MODE d).

Definition exit_freehand_draw_mode (d : dialog) : dialog :=
  set_mode NORMAL_MODE (set_active_artist None d).

Definition enter_delete_mode (d : dialog) : dialog :=
  set_delete_mode_filter None
    (set_delete_mode_start None (set_mode DELETE_MODE d)).

Definition exit_delete_mode (d : dialog) : dialog :=
  set_mode NORMAL_MODE
    (set_delete_mode_start None
       (set_delete_mode_rect_artist None (set_delete_mode_artist None d))).

Definition add_key (k : string) (l : list string) : list string :=
  if existsb (String.eqb k) l then l else k :: l.

(** [on_key_down]; the help window opened by "f1" is not part of the
    state. *)
Definition on_key_down (ev : event) (d : dialog) : outcome :=
  let d := set_pressed_keys (add_key (key ev) (pressed_keys d)) d in
  let k := key ev in
  match mode d with
  | NORMAL_MODE =>
      if String.eqb k "j" then join_objects d
      else if String.eqb k "c" then other_command k ev d
      else if String.eqb k "a" then other_command k ev d
      else if String.eqb k "d" then delete_control_point ev d
      else if String.eqb k "f" then Done (enter_freehand_draw_mode d)
      else if String.eqb k "m" then other_command k ev d
      else if String.eqb k "n" then new_object ev d
      else if String.eqb k "s" then Done (enter_split_mode d)
      else if String.eqb k "x" then Done (enter_delete_mode d)
      else if String.eqb k "z" then
        match undo_stack d with
        | [] => Done d
        | _ :: _ => undo d
        end
      else if String.eqb k "escape" then Done (remove_artists d)
      else Done d
  | SPLIT_PICK_FIRST_MODE | SPLIT_PICK_SECOND_MODE =>
      if String.eqb k "escape" then exit_split_mode d else Done d
  | DELETE_MODE =>
      if String.eqb k "escape" then Done (exit_delete_mode d) else Done d
  | FREEHAND_DRAW_MODE => Done (exit_freehand_draw_mode d)
  end.

End Methods.

(* ------------------------------------------------------------------ *)
(** ** Restructuring *)

Definition pixel (p : plane) (i j : nat) : Z := nth j (nth i p []) 0%Z.

Definition set_pixel (i j : nat) (v : Z) (p : plane) : plane :=
  set_nth i (set_nth j v (nth i p [])) p.

(** Modelled from the spec: [cpo.Objects.get_labels] is not part of the
    sources at hand.  The planes are re-derived from the full
    [(row, col, id)] set; a pixel claimed by several identifiers keeps all
    its claims, each on a plane of its own; an empty set gives one empty
    plane. *)
Fixpoint stamp (sh : nat * nat) (t : ijv) (ps : list plane) : list plane :=
  match ps with
  | [] => [set_pixel (fst (fst t)) (snd (fst t)) (snd t) (zeros_plane sh)]
  | p :: r =>
      let here := pixel p (fst (fst t)) (snd (fst t)) in
      if Z.eqb here (snd t) then ps
      else if Z.eqb here 0 then
        set_pixel (fst (fst t)) (snd (fst t)) (snd t) p :: r
      else p :: stamp sh t r
  end.

Definition restructure (sh : nat * nat) (l : list ijv) : list plane :=
  fold_left (fun ps t => stamp sh t ps) l [zeros_plane sh].

Definition in_bounds (sh : nat * nat) (t : ijv) : Prop :=
  (fst (fst t) < fst sh)%nat /\ (snd (fst t) < snd sh)%nat.

(** What the editor relies on from restructuring: planes of the dialog's
    shape that flatten to the IJV set they were built from. *)
Definition restructuring (get_labels : nat * nat -> list ijv -> list plane)
  : Prop :=
  forall sh l,
    (forall t, In t l -> in_bounds sh t /\ snd t <> 0%Z) ->
    Forall (has_shape sh) (get_labels sh l) /\
    (forall t, In t (planes_ijv (get_labels sh l)) <-> In t l).

(* ------------------------------------------------------------------ *)
(** ** Vocabulary of the statements *)

(** A committed edit operation: whatever it did to the planes, the keep
    flags and the chains, it ends with [record_undo]. *)
Record edit : Type := Edit {
  e_labels : list plane;
  e_to_keep : list bool;
  e_artists : list artist;
  e_next_id : nat
}.

Definition commit (e : edit) (d : dialog) : outcome :=
  record_undo
    (set_next_id (e_next_id e)
       (set_artists (e_artists e)
          (set_to_keep (e_to_keep e) (set_labels (e_labels e) d)))).

Fixpoint commits (es : list edit) (d : dialog) : outcome :=
  match es with
  | [] => Done d
  | e :: r => and_then (commit e d) (commits r)
  end.

Fixpoint undos (get_labels : nat * nat -> list ijv -> list plane)
    (n : nat) (d : dialog) : outcome :=
  match n with
  | O => Done d
  | S k => and_then (undo get_labels d) (undos get_labels k)
  end.

Definition ijv_dec (a b : ijv) : {a = b} + {a <> b}.
Proof. repeat decide equality. Defined.

Definition ijv_mem (t : ijv) (l : list ijv) : bool :=
  if in_dec ijv_dec t l then true else false.

Fixpoint nodupb (l : list ijv) : bool :=
  match l with
  | [] => true
  | t :: r => negb (ijv_mem t r) && nodupb r
  end.

(** Planes of the given shape on which no pixel carries the same
    identifier twice. *)
Definition proper_raster (sh : nat * nat) (ls : list plane) : bool :=
  forallb (has_shapeb sh) ls && nodupb (planes_ijv ls).

(** ... and on which some pixel is labelled. *)
Definition labelled_raster (sh : nat * nat) (ls : list plane) : bool :=
  proper_raster sh ls &&
  match planes_ijv ls with [] => false | _ :: _ => true end.

(** The labelled pixels (IJV entries) that are in exactly one of two
    snapshots. *)
Definition changed (cur prev : list ijv) : list ijv :=
  filter (fun t => negb (ijv_mem t prev)) cur
  ++ filter (fun t => negb (ijv_mem t cur)) prev.

Definition is_new (r : ijvx) : bool := epoch_eqb (epoch_of r) New.
Definition is_old (r : ijvx) : bool := epoch_eqb (epoch_of r) Old.

(** The order of [flatten] within one plane: by row, then by column. *)
Definition row_major (a b : ijv) : Prop :=
  (fst (fst a) < fst (fst b))%nat \/
  (fst (fst a) = fst (fst b) /\ (snd (fst a) < snd (fst b))%nat).

(** A state in which a picked split point has its rubber line. *)
Definition split_line_present (d : dialog) : Prop :=
  mode d = SPLIT_PICK_SECOND_MODE -> split_artist d <> None.

(* ------------------------------------------------------------------ *)
(** ** Auxiliary notions for the proofs *)

(** The order that [np.lexsort] sorts by, and its reflexive version. *)
Definition row_lt (a b : ijvx) : Prop :=
  match a, b with
  | (i, j, v, e), (i', j', v', e') =>
      (i < i')%nat \/
      (i = i' /\
       ((j < j')%nat \/
        (j = j' /\
         ((v < v')%Z \/ (v = v' /\ (epoch_code e < epoch_code e')%Z)))))
  end.

Definition row_le (a b : ijvx) : Prop := ~ row_lt b a.


(** The row of the same pixel in the other snapshot. *)
Definition partner (r : ijvx) : ijvx :=
  (ijv_of r, match epoch_of r with New => Old | Old => New end).

(** [matches[1:] | matches[:-1]] as a scan that remembers the previous
    entry. *)
Fixpoint or_prev (p : bool) (m : list bool) : list bool :=
  match m with
  | [] => []
  | h :: t => (h || p) :: or_prev h t
  end.

(** The rows that [drop_matches] keeps, computed in one pass: a row goes
    when it matches its successor or its predecessor matched it. *)
Fixpoint drop_rec (f : ijvx -> ijvx -> bool) (prev : bool) (l : list ijvx)
  : list ijvx :=
  match l with
  | [] => []
  | a :: t =>
      let m := match t with b :: _ => f a b | [] => false end in
      (if prev || m then [] else [a]) ++ drop_rec f m t
  end.

Definition same_set (a b : list ijv) : Prop := forall t, In t a <-> In t b.

(** What a pushed diff holds for two snapshots. *)
Definition diff_spec (diff : list ijvx) (cur prev : list ijv) : Prop :=
  NoDup diff /\
  forall t e, In (t, e) diff <->
    (e = New /\ In t cur /\ ~ In t prev) \/
    (e = Old /\ In t prev /\ ~ In t cur).

(** [history cur stack snaps]: the undo stack holds, from the top, the
    diffs between [cur] and the earlier snapshots [snaps]; every diff was
    recorded on a raster with some labelled pixel. *)
Inductive history
  : list ijv -> list (list ijvx * list artist) -> list (list ijv) -> Prop :=
| history_nil cur : history cur [] []
| history_cons cur diff save st prev ps :
    cur <> [] -> NoDup prev -> diff_spec diff cur prev ->
    history prev st ps ->
    history cur ((diff, save) :: st) (prev :: ps).

(** Pixel positions of the changed entries, each once. *)
Definition position_dec (a b : nat * nat) : {a = b} + {a <> b}.
Proof. repeat decide equality. Defined.

Definition changed_positions (cur prev : list ijv) : list (nat * nat) :=
  nodup position_dec (map fst (changed cur prev)).

(** Rational stand-ins for [(cos a, sin a)], [a = 0, 30, ..., 360]
    degrees, to run [new_object] on. *)
Definition circle13_approx : list point :=
  [ (1, 0); (433 # 500, 1 # 2); (1 # 2, 433 # 500); (0, 1);
    (- (1 # 2), 433 # 500); (- (433 # 500), 1 # 2); (- (1), 0);
    (- (433 # 500), - (1 # 2)); (- (1 # 2), - (433 # 500)); (0, - (1));
    (1 # 2, - (433 # 500)); (433 # 500, - (1 # 2)); (1, 0) ].

(** The accepted array covers the chain and holds its two end points. *)
Definition well_seeded (n : nat) (acc : list bool) : Prop :=
  length acc = n /\ nth 0 acc false = true /\ nth (n - 1) acc false = true.

(** Number of points not accepted yet. *)
Definition pending (acc : list bool) : nat := length (filter negb acc).

(** ** Vocabulary for [join_objects] *)

Definition mpixel (m : mask) (i j : nat) : bool := nth j (nth i m []) false.

Definition mask_has_shape (sh : nat * nat) (m : mask) : Prop :=
  length m = fst sh /\ Forall (fun r => length r = snd sh) m.

(** The rasterizer returns masks of the shape it is asked for. *)
Definition fills_shape (polygon_lines_to_mask : list point -> nat * nat -> mask)
  : Prop :=
  forall xy sh, mask_has_shape sh (polygon_lines_to_mask xy sh).

(** An object identifier with a slot in the keep array. *)
Definition in_range (d : dialog) (v : Z) : bool :=
  (0 <? v)%Z && (v <? Z.of_nat (length (to_keep d)))%Z.

(** A dialog whose planes have its shape and whose labels, in the planes
    and on the chains, are identifiers with a keep flag. *)
Definition coherent (d : dialog) : bool :=
  forallb (has_shapeb (shape d)) (labels d)
  && forallb (fun t => in_range d (snd t)) (planes_ijv (labels d))
  && forallb (fun a => in_range d (K_LABEL a)) (artists d).

(** The identifiers of the open chains, as [join_objects] collects them. *)
Definition selected (d : dialog) : list Z := unique (map K_LABEL (artists d)).

(** The part of [coherent] that the raster updates maintain. *)
Definition raster_ok (d : dialog) : Prop :=
  forallb (has_shapeb (shape d)) (labels d) = true /\
  forall i j v, In (i, j, v) (planes_ijv (labels d)) ->
    (0 < v < Z.of_nat (length (to_keep d)))%Z.

From Stdlib Require Import Lqa.

(* ------------------------------------------------------------------ *)
(** ** Further methods of [EditObjectsDialog] *)

(** *** Keep, remove, toggle (lines 1696-1706) *)

(** [a[1:] = f(a[1:])] *)
Definition map_tail (f : bool -> bool) (a : list bool) : list bool :=
  match a with
  | [] => []
  | h :: t => h :: map f t
  end.

Definition on_keep (d : dialog) : dialog :=
  set_to_keep (map_tail (fun _ => true) (to_keep d)) d.

Definition on_remove (d : dialog) : dialog :=
  set_to_keep (map_tail (fun _ => false) (to_keep d)) d.

Definition on_toggle (d : dialog) : dialog :=
  set_to_keep (map_tail negb (to_keep d)) d.

(** *** Closing the dialog (lines 540-548) *)

Section Closing.

Variable get_labels : nat * nat -> list ijv -> list plane.
Variable polygon_lines_to_mask : list point -> nat * nat -> mask.

(** The order in which Python iterates over the set [open_labels] built
    from a list of labels. *)
Variable set_order : list Z -> list Z.

(** [for idx in np.argwhere(~self.to_keep).flatten():
       if idx > 0: self.remove_label(idx)] *)
Definition remove_discarded (d : dialog) : dialog :=
  fold_left
    (fun d idx =>
       if (0 <? idx)%nat then remove_label (Z.of_nat idx) d else d)
    (argwhere (map negb (to_keep d))) d.

(** [on_close]; [return_ok] is [self.GetReturnCode() == wx.OK]. *)
Definition on_close (return_ok : bool) (d : dialog) : outcome :=
  if return_ok then
    and_then
      (close_labels get_labels polygon_lines_to_mask
         (set_order (map K_LABEL (artists d))) d)
      (fun d1 => Done (remove_discarded d1))
  else Done d.

End Closing.

(** *** Split mode (lines 1270-1323) *)

(** [self.split_pick_artist] and [self.split_pick_index], the two
    attributes that [on_split_first_click] assigns; the chain is named by
    its identity. *)
Record split_pick : Type := SplitPick {
  split_pick_artist : nat;
  split_pick_index : nat
}.

(** [ok_to_split]; both chains are looked up in [self.artists]. *)
Definition ok_to_split (sp : split_pick) (pick_artist : nat)
    (pick_index : nat) (d : dialog) : result bool :=
  match find_artist pick_artist d, find_artist (split_pick_artist sp) d with
  | Some a, Some b =>
      Ok (if negb (Z.eqb (K_LABEL a) (K_LABEL b)) then false
          else if Nat.eqb pick_artist (split_pick_artist sp) then
            let min_index := Z.min (Z.of_nat pick_index)
                                   (Z.of_nat (split_pick_index sp)) in
            let max_index := Z.max (Z.of_nat pick_index)
                                   (Z.of_nat (split_pick_index sp)) in
            if (max_index - min_index <? 2)%Z then false
            else if (Z.of_nat (length (xydata a)) - max_index <=? 2)%Z
                    && (min_index =? 0)%Z then false
            else true
          else if Bool.eqb (K_OUTSIDE a) (K_OUTSIDE b) then false
          else true)
  | _, _ => Raise KeyError
  end.

(* ------------------------------------------------------------------ *)
(** ** Auxiliary notions for the further properties *)

(** The attributes that neither [reset] nor [record_undo] writes. *)
Definition frame (d : dialog) :=
  (allow_overlap d, orig_labels d, shape d, mode d, active_artist d,
   active_index d, split_artist d, delete_mode_artist d,
   delete_mode_rect_artist d, delete_mode_start d, delete_mode_filter d,
   pressed_keys d).

(** A chain whose last stored point repeats the first. *)
Definition closed (l : list point) : Prop := hd origin l = last l origin.

(** ** Vocabulary for closing chains *)

(** The chains of an object and whether one of them was edited. *)
Definition chains_of (d : dialog) (label : Z) : list artist :=
  filter (has_label label) (artists d).

Definition chains_edited (d : dialog) (label : Z) : bool :=
  existsb K_EDITED (chains_of d label).

(** The parity fill of the chains of an object: a pixel is set when an
    odd number of the chains' polygons cover it, so that a polygon within
    a polygon is a hole. *)
Definition chain_mask
    (polygon_lines_to_mask : list point -> nat * nat -> mask)
    (d : dialog) (label : Z) : mask :=
  fold_left
    (fun m a => mask_xor m (polygon_lines_to_mask (xydata a) (shape d)))
    (chains_of d label) (zeros_mask (shape d)).

(** The pixels of an object once its chains are committed to the raster:
    the parity fill of its chains when one of them was edited, the pixels
    it has in the planes otherwise. *)
Definition committed
    (polygon_lines_to_mask : list point -> nat * nat -> mask)
    (d : dialog) (label : Z) (i j : nat) : Prop :=
  if chains_edited d label
  then mpixel (chain_mask polygon_lines_to_mask d label) i j = true
  else In (i, j, label) (planes_ijv (labels d)).

(** The state after the chains of the identifiers [done] of the dialog [d]
    were closed. *)
Definition closed_state
    (polygon_lines_to_mask : list point -> nat * nat -> mask)
    (d : dialog) (done : list Z) (dk : dialog) : Prop :=
  raster_ok dk /\ to_keep dk = to_keep d /\ shape dk = shape d /\
  labels dk <> [] /\
  artists dk
  = filter (fun a => negb (existsb (Z.eqb (K_LABEL a)) done)) (artists d) /\
  forall i j v,
    In (i, j, v) (planes_ijv (labels dk)) <->
    (~ In v done /\ In (i, j, v) (planes_ijv (labels d))) \/
    (In v done /\ committed polygon_lines_to_mask d v i j).

(** A rasterizer to run examples on: it fills the bounding box of the
    chain, [x] along the columns and [y] along the rows. *)
Definition box_mask (xy : list point) (sh : nat * nat) : mask :=
  map (fun i =>
         map (fun j =>
                existsb (fun p => Qle_bool (px p) (inject_Z (Z.of_nat j))) xy
                && existsb (fun p => Qle_bool (inject_Z (Z.of_nat j)) (px p)) xy
                && existsb (fun p => Qle_bool (py p) (inject_Z (Z.of_nat i))) xy
                && existsb (fun p => Qle_bool (inject_Z (Z.of_nat i)) (py p)) xy)
             (seq 0 (snd sh)))
      (seq 0 (fst sh)).

(** What the running best of [get_control_point] is with respect to the
    chains seen so far: a control point of one of them, other than the
    closing point, whose distance passed the hit test. *)
Definition pick_ok (transform : point -> point) (ev : event)
    (seen : list artist)
    (best : option (PrimFloat.float * artist * nat)) : Prop :=
  match best with
  | None => True
  | Some (bd, a, idx) =>
      In a seen /\ (idx < length (xydata a) - 1)%nat /\
      bd = distance (transform (nth idx (xydata a) origin))
                    (ev_x ev) (ev_y ev) /\
      PrimFloat.ltb bd epsilon = true
  end.
(* ------------------------------------------------------------------ *)
(** * Properties *)

Unset Implicit Arguments.
Local Open Scope nat_scope.

(** ** The order of [np.lexsort] *)

Lemma row_ltb_lt (a b : ijvx) : row_ltb a b = true <-> row_lt a b.
Proof.
  destruct a as [[[i j] v] e], b as [[[i' j'] v'] e']; simpl.
  destruct (Nat.ltb_spec i i'); [intuition lia|].
  destruct (Nat.eqb_spec i i'); simpl; [|intuition (try discriminate; lia)].
  destruct (Nat.ltb_spec j j'); [intuition lia|].
  destruct (Nat.eqb_spec j j'); simpl; [|intuition (try discriminate; lia)].
  destruct (Z.ltb_spec v v'); [intuition lia|].
  destruct (Z.eqb_spec v v'); simpl; [|intuition (try discriminate; lia)].
  rewrite Z.ltb_lt. intuition lia.
Qed.

Lemma row_lt_irrefl (a : ijvx) : ~ row_lt a a.
Proof. destruct a as [[[i j] v] e]; simpl; lia. Qed.

Lemma row_lt_trans (a b c : ijvx) : row_lt a b -> row_lt b c -> row_lt a c.
Proof.
  destruct a as [[[i j] v] e], b as [[[i' j'] v'] e'], c as [[[i2 j2] v2] e2].
  simpl; lia.
Qed.

Lemma row_lt_total (a b : ijvx) : row_lt a b \/ a = b \/ row_lt b a.
Proof.
  destruct a as [[[i j] v] e], b as [[[i' j'] v'] e']; simpl.
  destruct (Nat.lt_total i i') as [|[|]]; try lia.
  destruct (Nat.lt_total j j') as [|[|]]; try lia.
  destruct (Z.lt_total v v') as [|[|]]; try lia.
  subst. destruct e, e'; simpl; try lia; auto.
Qed.

(** A [New] row and the [Old] row of the same pixel are neighbours in the
    order. *)
Lemma nothing_between (t : ijv) (x : ijvx) :
  row_lt (t, New) x -> x = (t, Old) \/ row_lt (t, Old) x.
Proof.
  destruct t as [[i j] v], x as [[[i' j'] v'] e']; simpl.
  intros H. destruct e'; simpl in *.
  - right. lia.
  - destruct (Nat.eq_dec i i'), (Nat.eq_dec j j'), (Z.eq_dec v v');
      subst; auto; right; lia.
Qed.

Lemma new_before_old (t : ijv) : row_lt (t, New) (t, Old).
Proof. destruct t as [[i j] v]; simpl; lia. Qed.

Lemma ijv_eqb_eq (a b : ijv) : ijv_eqb a b = true <-> a = b.
Proof.
  destruct a as [[i j] v], b as [[i' j'] v']; simpl.
  rewrite !andb_true_iff, !Nat.eqb_eq, Z.eqb_eq.
  split; [intros [[-> ->] ->]; reflexivity | intros [= -> -> ->]; auto].
Qed.

Lemma ijv_mem_In (t : ijv) (l : list ijv) : ijv_mem t l = true <-> In t l.
Proof.
  unfold ijv_mem. destruct (in_dec ijv_dec t l); intuition discriminate.
Qed.

Lemma nodupb_NoDup (l : list ijv) : nodupb l = true <-> NoDup l.
Proof.
  induction l as [|t r IH]; simpl.
  - split; auto using NoDup_nil.
  - rewrite andb_true_iff, negb_true_iff, IH. split.
    + intros [Hm Hn]. constructor; auto.
      rewrite <- ijv_mem_In. congruence.
    + intros Hn. inversion Hn; subst. split; auto.
      destruct (ijv_mem t r) eqn:E; auto.
      apply ijv_mem_In in E. contradiction.
Qed.

(** ** [lexsort] sorts and permutes *)

Lemma insert_row_perm (a : ijvx) (l : list ijvx) :
  Permutation (insert_row a l) (a :: l).
Proof.
  induction l as [|b r IH]; simpl; auto.
  destruct (row_ltb b a); auto.
  rewrite IH. apply perm_swap.
Qed.

Lemma lexsort_perm (l : list ijvx) : Permutation (lexsort l) l.
Proof.
  induction l as [|a r IH]; simpl; auto.
  rewrite insert_row_perm. auto.
Qed.

Lemma lexsort_In (l : list ijvx) (x : ijvx) : In x (lexsort l) <-> In x l.
Proof.
  split; apply Permutation_in;
    [apply lexsort_perm | apply Permutation_sym, lexsort_perm].
Qed.

Lemma insert_row_sorted (a : ijvx) (l : list ijvx) :
  StronglySorted row_le l -> StronglySorted row_le (insert_row a l).
Proof.
  induction 1 as [|b r Hs IH Hb]; simpl.
  - repeat constructor.
  - destruct (row_ltb b a) eqn:E.
    + constructor; auto.
      rewrite Forall_forall. intros x Hx.
      apply (Permutation_in _ (insert_row_perm a r)) in Hx.
      destruct Hx as [<-|Hx].
      * apply row_ltb_lt in E. intros H.
        exact (row_lt_irrefl _ (row_lt_trans _ _ _ E H)).
      * rewrite Forall_forall in Hb. auto.
    + assert (Hab : row_le a b).
      { intros H. apply row_ltb_lt in H. congruence. }
      constructor; [constructor; auto|].
      constructor; auto.
      rewrite Forall_forall in *. intros x Hx Hlt.
      specialize (Hb x Hx).
      destruct (row_lt_total a b) as [H|[->|H]]; try contradiction.
      apply Hb. exact (row_lt_trans _ _ _ Hlt H).
Qed.

Lemma lexsort_sorted (l : list ijvx) : StronglySorted row_le (lexsort l).
Proof.
  induction l; simpl; [constructor | apply insert_row_sorted; auto].
Qed.

Lemma sorted_strict (l : list ijvx) :
  StronglySorted row_le l -> NoDup l -> StronglySorted row_lt l.
Proof.
  induction 1 as [|a r Hs IH Ha]; intros Hn; constructor;
    inversion Hn; subst; auto.
  rewrite Forall_forall in *. intros x Hx.
  destruct (row_lt_total a x) as [H|[->|H]]; auto; try contradiction.
  elim (Ha x Hx H).
Qed.

Lemma lexsort_strict (l : list ijvx) :
  NoDup l -> StronglySorted row_lt (lexsort l).
Proof.
  intros Hn. apply sorted_strict; [apply lexsort_sorted|].
  apply (Permutation_NoDup (Permutation_sym (lexsort_perm l)) Hn).
Qed.

(** ** What [drop_matches] keeps *)

Lemma combine_or_prev (h : bool) (t : list bool) :
  map (fun p => orb (fst p) (snd p)) (combine t (h :: t)) = or_prev h t.
Proof.
  revert h. induction t as [|x t IH]; intros h; simpl; auto.
  f_equal. apply IH.
Qed.

Lemma or_with_previous_scan (m : list bool) :
  or_with_previous m = or_prev false m.
Proof.
  destruct m as [|h t]; simpl; auto.
  rewrite combine_or_prev, orb_false_r. reflexivity.
Qed.

Lemma or_prev_length (p : bool) (m : list bool) :
  length (or_prev p m) = length m.
Proof. revert p; induction m; intros; simpl; auto. Qed.

Lemma pairwise_length (f : ijvx -> ijvx -> bool) (a : ijvx) (l : list ijvx) :
  length (pairwise f (a :: l)) = length l.
Proof.
  revert a; induction l as [|b r IH]; intros a; auto.
  change (S (length (pairwise f (b :: r))) = S (length r)).
  rewrite IH. reflexivity.
Qed.

Lemma select_drop_rec (f : ijvx -> ijvx -> bool) (l : list ijvx) (p : bool) :
  select (map negb (or_prev p (pairwise f l ++ [false]))) l = drop_rec f p l.
Proof.
  revert p. induction l as [|a t IH]; intros p; [reflexivity|].
  destruct t as [|b r].
  - simpl. rewrite orb_false_r. destruct p; reflexivity.
  - change (pairwise f (a :: b :: r)) with (f a b :: pairwise f (b :: r)).
    change (drop_rec f p (a :: b :: r))
      with ((if p || f a b then [] else [a]) ++ drop_rec f (f a b) (b :: r)).
    rewrite <- IH. simpl app at 1. simpl or_prev. simpl map. simpl select.
    rewrite (orb_comm (f a b) p).
    destruct (p || f a b); reflexivity.
Qed.

Lemma drop_matches_nil (f : ijvx -> ijvx -> bool) :
  drop_matches f [] = Raise IndexError.
Proof. reflexivity. Qed.

Lemma drop_matches_cons (f : ijvx -> ijvx -> bool) (a : ijvx) (l : list ijvx) :
  drop_matches f (a :: l) = Ok (drop_rec f false (a :: l)).
Proof.
  unfold drop_matches, bool_index, matches_of.
  rewrite or_with_previous_scan, length_map, or_prev_length, length_app,
    pairwise_length.
  simpl length. replace (length l + 1) with (S (length l)) by lia.
  rewrite Nat.eqb_refl, select_drop_rec. reflexivity.
Qed.

Lemma partner_involutive (x : ijvx) : partner (partner x) = x.
Proof. destruct x as [t []]; reflexivity. Qed.

Lemma partner_neq (x : ijvx) : partner x <> x.
Proof. destruct x as [t []]; unfold partner; simpl; congruence. Qed.

Lemma new_then_old_partner (a b : ijvx) :
  new_then_old a b = true <-> (b = partner a /\ epoch_of a = New).
Proof.
  destruct a as [t e], b as [t' e'].
  unfold new_then_old, same_ijv, partner, ijv_of, epoch_of; simpl.
  rewrite !andb_true_iff, ijv_eqb_eq.
  destruct e, e'; simpl; split;
    try (intros [[-> _] _]; auto; fail);
    try (intros [[_ H] _]; discriminate);
    try (intros [_ H]; discriminate);
    try (intros [[_ _] H]; discriminate);
    try (intros [H _]; inversion H; subst; auto; fail);
    try (intros [H _]; discriminate).
Qed.

Lemma same_ijv_strict (a b : ijvx) :
  row_lt a b -> same_ijv a b = new_then_old a b.
Proof.
  destruct a as [[[i j] v] e], b as [[[i' j'] v'] e'].
  unfold new_then_old, same_ijv, ijv_of, epoch_of. simpl fst. simpl snd.
  intros H. destruct (ijv_eqb (i, j, v) (i', j', v')) eqn:E; auto.
  apply ijv_eqb_eq in E. inversion E; subst.
  simpl in H. destruct e, e'; simpl in *; auto; lia.
Qed.

Lemma drop_rec_same_ijv (l : list ijvx) (p : bool) :
  StronglySorted row_lt l ->
  drop_rec same_ijv p l = drop_rec new_then_old p l.
Proof.
  intros Hs. revert p. induction Hs as [|a t Hs IH Ha]; intros p; auto.
  simpl. destruct t as [|b r].
  - rewrite IH. reflexivity.
  - rewrite (same_ijv_strict a b) by (inversion Ha; auto).
    rewrite IH. reflexivity.
Qed.

(** The partner of the head, if present further on, is the next row. *)
Lemma partner_is_next (a : ijvx) (t : list ijvx) :
  StronglySorted row_lt (a :: t) ->
  In (partner a) t ->
  exists r, t = partner a :: r /\ epoch_of a = New.
Proof.
  intros Hs Hin. inversion Hs as [|? ? Hst Ha]; subst.
  rewrite Forall_forall in Ha.
  pose proof (Ha _ Hin) as Hlt.
  destruct a as [k e]. destruct e.
  2:{ exfalso. change (row_lt (k, Old) (k, New)) in Hlt.
      exact (row_lt_irrefl _ (row_lt_trans _ _ _ Hlt (new_before_old k))). }
  change (partner (k, New)) with (k, Old) in *.
  destruct t as [|b r]; [contradiction|].
  exists r. split; auto. f_equal.
  destruct (nothing_between k b (Ha b (or_introl eq_refl))) as [->|Hb]; auto.
  exfalso. destruct Hin as [->|Hin].
  - exact (row_lt_irrefl _ Hb).
  - inversion Hst as [|? ? _ Hbr]; subst. rewrite Forall_forall in Hbr.
    exact (row_lt_irrefl _ (row_lt_trans _ _ _ Hb (Hbr _ Hin))).
Qed.

Lemma sorted_head_fresh (a : ijvx) (t : list ijvx) :
  StronglySorted row_lt (a :: t) -> ~ In a t.
Proof.
  intros Hs Hin. inversion Hs as [|? ? _ Ha]; subst.
  rewrite Forall_forall in Ha. exact (row_lt_irrefl _ (Ha _ Hin)).
Qed.

Lemma drop_rec_spec (l : list ijvx) :
  StronglySorted row_lt l ->
  forall (prev : bool) (x : ijvx),
    In x (drop_rec new_then_old prev l) <->
    In x l /\ ~ In (partner x) l /\ ~ (prev = true /\ hd_error l = Some x).
Proof.
  induction l as [|a t IH]; intros Hs prev x.
  - simpl. tauto.
  - assert (Hst : StronglySorted row_lt t) by (inversion Hs; auto).
    pose proof (sorted_head_fresh _ _ Hs) as Hfresh.
    set (m := match t with b :: _ => new_then_old a b | [] => false end).
    change (drop_rec new_then_old prev (a :: t))
      with ((if prev || m then [] else [a]) ++ drop_rec new_then_old m t).
    rewrite in_app_iff, (IH Hst m x).
    assert (Hm : m = true <-> In (partner a) t).
    { split.
      - subst m. destruct t as [|b r]; [discriminate|].
        intros H. apply new_then_old_partner in H. left. tauto.
      - intros H. destruct (partner_is_next _ _ Hs H) as [r [-> He]].
        subst m. apply new_then_old_partner. auto. }
    assert (Hhd : forall y, In y t ->
              (partner y = a <-> (m = true /\ hd_error t = Some y))).
    { intros y Hy. split.
      - intros <-. rewrite partner_involutive in Hm.
        split; [tauto|].
        destruct (partner_is_next _ _ Hs) as [r [-> _]];
          rewrite ?partner_involutive; auto.
      - intros [H1 H2]. destruct t as [|b r]; [discriminate|].
        subst m. apply new_then_old_partner in H1.
        simpl in H2. inversion H2; subst.
        destruct H1 as [-> _]. apply partner_involutive. }
    simpl hd_error. simpl In.
    split.
    + intros [H|[H1 [H2 H3]]].
      * destruct (prev || m) eqn:E; [contradiction|].
        destruct H as [<-|[]]. apply orb_false_iff in E. destruct E as [-> E].
        split; auto. split; [|intros [? _]; discriminate].
        intros [H|H]; [exact (partner_neq _ (eq_sym H))|].
        apply Hm in H. congruence.
      * split; auto. split.
        -- intros [H|H]; auto. apply H3, Hhd; auto.
        -- intros [_ H]. inversion H; subst. contradiction.
    + intros [[<-|Hx] [H2 H3]].
      * left. destruct prev; simpl.
        -- exfalso. apply H3; auto.
        -- destruct m; simpl; auto.
           exfalso. apply H2. right. apply Hm. reflexivity.
      * right. split; auto. split; [tauto|].
        intros H. apply (Hhd x Hx) in H. apply H2. left. auto.
Qed.

(** On rows without repetition, both cancellations keep exactly the rows
    whose pixel is missing from the other snapshot. *)
Lemma drop_matches_spec (f : ijvx -> ijvx -> bool) (l : list ijvx) :
  f = new_then_old \/ f = same_ijv ->
  NoDup l -> l <> [] ->
  exists kept,
    drop_matches f (lexsort l) = Ok kept /\
    NoDup kept /\
    forall x, In x kept <-> In x l /\ ~ In (partner x) l.
Proof.
  intros Hf Hn Hne.
  pose proof (lexsort_strict l Hn) as Hs.
  destruct (lexsort l) as [|a t] eqn:E.
  { exfalso. apply Hne. apply Permutation_nil.
    rewrite <- E. apply lexsort_perm. }
  exists (drop_rec new_then_old false (a :: t)).
  assert (Hspec : forall x, In x (drop_rec new_then_old false (a :: t)) <->
                    In x l /\ ~ In (partner x) l).
  { intros x. rewrite (drop_rec_spec _ Hs false x), <- E, !lexsort_In.
    intuition discriminate. }
  split; [|split; auto].
  - rewrite drop_matches_cons. destruct Hf as [->| ->]; auto.
    rewrite drop_rec_same_ijv; auto.
  - clear Hspec. generalize false.
    assert (Hnd : NoDup (a :: t)).
    { rewrite <- E.
      apply (Permutation_NoDup (Permutation_sym (lexsort_perm l)) Hn). }
    revert Hs Hnd. generalize (a :: t). clear.
    induction l as [|a t IH]; intros Hs Hnd p; simpl; [constructor|].
    assert (Hst : StronglySorted row_lt t) by (inversion Hs; auto).
    inversion Hnd; subst.
    destruct (p || _); simpl; auto.
    constructor; auto.
    intros H. apply (drop_rec_spec _ Hst) in H. tauto.
Qed.

(** ** Flattening well-shaped planes *)

Lemma has_shapeb_has_shape (sh : nat * nat) (p : plane) :
  has_shapeb sh p = true <-> has_shape sh p.
Proof.
  unfold has_shapeb, has_shape.
  rewrite andb_true_iff, Nat.eqb_eq, forallb_forall, Forall_forall.
  split; intros [H1 H2]; split; auto; intros r Hr;
    [apply Nat.eqb_eq | apply Nat.eqb_eq]; auto.
Qed.

Lemma calculate_ijv_ok (sh : nat * nat) (ls : list plane) :
  forallb (has_shapeb sh) ls = true ->
  calculate_ijv sh ls = Ok (planes_ijv ls).
Proof.
  induction ls as [|l r IH]; simpl; auto.
  rewrite andb_true_iff. intros [H1 H2].
  unfold masked_ijv. rewrite H1. simpl. rewrite (IH H2). reflexivity.
Qed.

(** ** One step of the undo engine on snapshots *)

Lemma tagged_In (cur prev : list ijv) (t : ijv) (e : epoch) :
  In (t, e) (map (tag New) cur ++ map (tag Old) prev) <->
  (e = New /\ In t cur) \/ (e = Old /\ In t prev).
Proof.
  rewrite in_app_iff, !in_map_iff. unfold tag. split.
  - intros [[x [[= <- <-] H]]|[x [[= <- <-] H]]]; auto.
  - intros [[-> H]|[-> H]]; [left|right]; exists t; auto.
Qed.

Lemma tag_NoDup (e : epoch) (l : list ijv) : NoDup l -> NoDup (map (tag e) l).
Proof.
  intros H. apply Finite.Injective_map_NoDup; auto.
  intros x y [= ->]. reflexivity.
Qed.

Lemma app_NoDup {A : Type} (l l' : list A) :
  NoDup l -> NoDup l' -> (forall x, In x l -> ~ In x l') -> NoDup (l ++ l').
Proof.
  induction 1 as [|a l Ha Hl IH]; intros Hl' Hd; simpl; auto.
  constructor.
  - rewrite in_app_iff. intros [H|H]; [auto|].
    exact (Hd a (or_introl eq_refl) H).
  - apply IH; auto. intros x Hx. apply Hd. right; auto.
Qed.

Lemma record_diff (cur prev : list ijv) :
  NoDup cur -> NoDup prev -> cur <> [] ->
  exists diff,
    drop_matches new_then_old
      (lexsort (map (tag New) cur ++ map (tag Old) prev)) = Ok diff /\
    diff_spec diff cur prev.
Proof.
  intros Hc Hp Hne.
  destruct (drop_matches_spec new_then_old
              (map (tag New) cur ++ map (tag Old) prev))
    as [diff [Hd [Hn Hs]]]; auto.
  - apply app_NoDup; auto using tag_NoDup.
    intros [t e]. rewrite !in_map_iff. unfold tag.
    intros [x [[= <- <-] _]] [y [[= _] _]].
  - destruct cur; [congruence | discriminate].
  - exists diff. split; auto. split; auto.
    intros t e. rewrite Hs, !tagged_In.
    unfold partner, ijv_of, epoch_of; simpl.
    destruct e; rewrite tagged_In; intuition congruence.
Qed.

Lemma undo_diff (diff : list ijvx) (cur cur' prev : list ijv) :
  diff_spec diff cur prev -> NoDup cur' -> same_set cur' cur -> cur <> [] ->
  exists kept,
    drop_matches same_ijv (lexsort (diff ++ map (tag Old) cur')) = Ok kept /\
    NoDup (map ijv_of kept) /\
    same_set (map ijv_of kept) prev.
Proof.
  intros [Hdn Hd] Hc Hsame Hne.
  assert (HL : forall t e, In (t, e) (diff ++ map (tag Old) cur') <->
             (e = New /\ In t cur /\ ~ In t prev) \/
             (e = Old /\ In t prev /\ ~ In t cur) \/
             (e = Old /\ In t cur)).
  { intros t e. rewrite in_app_iff, Hd, in_map_iff. unfold tag. split.
    - intros [[H|H]|[x [[= <- <-] H]]]; auto.
      right. right. split; auto. apply Hsame; auto.
    - intros [H|[H|[-> H]]]; auto.
      right. exists t. split; auto. apply Hsame; auto. }
  destruct (drop_matches_spec same_ijv (diff ++ map (tag Old) cur'))
    as [kept [Hk [Hn Hs]]]; auto.
  - apply app_NoDup; auto using tag_NoDup.
    intros [t e] H1 H2. apply Hd in H1.
    apply in_map_iff in H2. destruct H2 as [x [[= <- <-] H2]].
    apply Hsame in H2. intuition congruence.
  - intros E. apply app_eq_nil in E. destruct E as [_ E].
    apply map_eq_nil in E. subst cur'.
    destruct cur as [|t c]; [congruence|].
    exact (proj2 (Hsame t) (or_introl eq_refl)).
  - exists kept. split; auto.
    assert (Hkept : forall t e, In (t, e) kept <-> e = Old /\ In t prev).
    { intros t e. rewrite Hs. unfold partner, ijv_of, epoch_of; simpl.
      rewrite !HL.
      destruct (in_dec ijv_dec t cur), (in_dec ijv_dec t prev), e;
        intuition congruence. }
    split.
    + apply Finite.Injective_map_NoDup_in; auto.
      intros [t e] [t' e'] H1 H2. unfold ijv_of; simpl. intros <-.
      apply Hkept in H1, H2. f_equal. intuition congruence.
    + intros t. rewrite in_map_iff. split.
      * intros [[t' e] [<- H]]. apply Hkept in H. tauto.
      * intros H. exists (t, Old). split; auto. apply Hkept. auto.
Qed.

(** ** [record_undo] and [undo] on the dialog *)

Lemma proper_raster_spec (sh : nat * nat) (ls : list plane) :
  proper_raster sh ls = true <->
  forallb (has_shapeb sh) ls = true /\ NoDup (planes_ijv ls).
Proof.
  unfold proper_raster. rewrite andb_true_iff, nodupb_NoDup. tauto.
Qed.

Lemma labelled_raster_spec (sh : nat * nat) (ls : list plane) :
  labelled_raster sh ls = true <->
  forallb (has_shapeb sh) ls = true /\ NoDup (planes_ijv ls)
  /\ planes_ijv ls <> [].
Proof.
  unfold labelled_raster. rewrite andb_true_iff, proper_raster_spec.
  destruct (planes_ijv ls); intuition congruence.
Qed.

Lemma record_undo_labelled (d : dialog) :
  labelled_raster (shape d) (labels d) = true ->
  NoDup (last_ijv d) ->
  exists diff,
    record_undo d =
      Done (set_last_ijv (planes_ijv (labels d))
             (set_last_artist_save (artists d)
               (set_undo_stack ((diff, last_artist_save d) :: undo_stack d)
                  d))) /\
    diff_spec diff (planes_ijv (labels d)) (last_ijv d).
Proof.
  intros H Hn. apply labelled_raster_spec in H. destruct H as [Hs [Hc Hne]].
  destruct (record_diff _ _ Hc Hn Hne) as [diff [Hd Hspec]].
  exists diff. split; auto.
  unfold record_undo. rewrite (calculate_ijv_ok _ _ Hs).
  destruct (planes_ijv (labels d)) eqn:E; [congruence|].
  rewrite Hd. reflexivity.
Qed.

Lemma record_undo_on_empty (d : dialog) :
  calculate_ijv (shape d) (labels d) = Ok [] ->
  record_undo d =
    Done (set_last_ijv []
           (set_last_artist_save (artists d)
             (set_undo_stack (([], last_artist_save d) :: undo_stack d) d))).
Proof. intros H. unfold record_undo. rewrite H. reflexivity. Qed.

Lemma history_same_set (cur cur' : list ijv) st ps :
  history cur st ps -> same_set cur cur' -> history cur' st ps.
Proof.
  intros H Hs. destruct H as [|cur diff save st prev ps Hne Hp [Hn Hd] Hh];
    constructor; auto.
  - intros ->. destruct cur as [|t c]; [congruence|].
    exact (proj1 (Hs t) (or_introl eq_refl)).
  - split; auto. intros t e. rewrite Hd, (Hs t). tauto.
Qed.

Lemma last_default (A : Type) (a : A) (l : list A) (x y : A) :
  last (a :: l) x = last (a :: l) y.
Proof.
  revert a. induction l as [|b l IH]; intros a; [reflexivity|].
  change (last (b :: l) x = last (b :: l) y). apply IH.
Qed.

Section UndoEngine.

Variable get_labels : nat * nat -> list ijv -> list plane.

Lemma commit_history (e : edit) (d : dialog) (ps : list (list ijv)) :
  history (last_ijv d) (undo_stack d) ps ->
  NoDup (last_ijv d) ->
  labelled_raster (shape d) (e_labels e) = true ->
  exists d',
    commit e d = Done d' /\
    history (last_ijv d') (undo_stack d') (last_ijv d :: ps) /\
    NoDup (last_ijv d') /\
    shape d' = shape d /\
    to_keep d' = e_to_keep e /\
    length (undo_stack d') = S (length (undo_stack d)).
Proof.
  intros Hh Hn Hl. unfold commit.
  set (d1 := set_next_id _ _).
  destruct (record_undo_labelled d1) as [diff [Hr Hspec]]; auto.
  exists (set_last_ijv (planes_ijv (labels d1))
            (set_last_artist_save (artists d1)
               (set_undo_stack ((diff, last_artist_save d1) :: undo_stack d1)
                  d1))).
  split; auto. apply labelled_raster_spec in Hl. destruct Hl as [_ [Hc Hne]].
  simpl. repeat split; auto.
  constructor; auto.
Qed.

Lemma undo_history (d : dialog) cur diff save st prev ps :
  undo_stack d = (diff, save) :: st ->
  history cur ((diff, save) :: st) (prev :: ps) ->
  NoDup (last_ijv d) -> same_set (last_ijv d) cur ->
  exists d',
    undo get_labels d = Done d' /\
    undo_stack d' = st /\
    NoDup (last_ijv d') /\ same_set (last_ijv d') prev /\
    labels d' = get_labels (shape d) (last_ijv d') /\
    to_keep d' = to_keep d /\ shape d' = shape d /\
    history prev st ps.
Proof.
  intros Hst Hh Hn Hs. inversion Hh; subst.
  destruct (undo_diff diff cur (last_ijv d) prev) as [kept [Hk [Hkn Hks]]];
    auto.
  unfold undo. rewrite Hst, Hk.
  eexists. split; [reflexivity|]. simpl. repeat split; auto; apply Hks.
Qed.

Lemma undos_history st : forall cur ps (d : dialog),
  history cur st ps ->
  undo_stack d = st ->
  NoDup (last_ijv d) -> same_set (last_ijv d) cur ->
  exists d',
    undos get_labels (length st) d = Done d' /\
    undo_stack d' = [] /\
    same_set (last_ijv d') (last ps cur) /\
    to_keep d' = to_keep d /\ shape d' = shape d /\
    (st = [] \/ labels d' = get_labels (shape d) (last_ijv d')).
Proof.
  induction st as [|[diff save] st IH]; intros cur ps d Hh Hst Hn Hs.
  - inversion Hh; subst. exists d. simpl. repeat split; auto; apply Hs.
  - inversion Hh; subst.
    destruct (undo_history d cur diff save st prev ps0)
      as [d1 [Hu [Hst1 [Hn1 [Hs1 [Hl1 [Hk1 [Hsh1 Hh1]]]]]]]]; auto.
    destruct (IH prev ps0 d1 Hh1 Hst1 Hn1 Hs1)
      as [d2 [Hu2 [Hst2 [Hs2 [Hk2 [Hsh2 Hl2]]]]]].
    exists d2. simpl. rewrite Hu. simpl. split; auto. split; auto.
    split.
    { destruct ps0 as [|p ps0]; auto.
      change (same_set (last_ijv d2) (last (p :: ps0) cur)).
      rewrite (last_default _ p ps0 cur prev). exact Hs2. }
    split; [congruence|]. split; [congruence|]. right.
    destruct Hl2 as [->|Hl2].
    + simpl in Hu2. inversion Hu2; subst. auto.
    + rewrite Hl2. congruence.
Qed.

Lemma commits_history (es : list edit) : forall (d : dialog) ps,
  history (last_ijv d) (undo_stack d) ps ->
  NoDup (last_ijv d) ->
  forallb (fun e => labelled_raster (shape d) (e_labels e)) es = true ->
  exists d' ps',
    commits es d = Done d' /\
    history (last_ijv d') (undo_stack d') ps' /\
    NoDup (last_ijv d') /\ shape d' = shape d /\
    last ps' (last_ijv d') = last ps (last_ijv d) /\
    length (undo_stack d') = length es + length (undo_stack d).
Proof.
  induction es as [|e es IH]; intros d ps Hh Hn Hl.
  - exists d, ps. simpl. repeat split; auto.
  - simpl in Hl. apply andb_true_iff in Hl. destruct Hl as [Hl1 Hl2].
    destruct (commit_history e d ps Hh Hn Hl1)
      as [d1 [Hc [Hh1 [Hn1 [Hsh1 [_ Hlen1]]]]]].
    rewrite <- Hsh1 in Hl2.
    destruct (IH d1 _ Hh1 Hn1 Hl2) as [d2 [ps2 [Hc2 [Hh2 [Hn2 [Hsh2 [Hb Hlen2]]]]]]].
    exists d2, ps2. simpl. rewrite Hc. simpl. repeat split; auto.
    + congruence.
    + rewrite Hb. destruct ps as [|p ps]; [reflexivity|].
      apply (last_default _ p ps).
    + rewrite Hlen2, Hlen1. lia.
Qed.

End UndoEngine.

(** ** Pixels of a plane and its flattening *)

Lemma row_ijv_In (i : nat) (r : list Z) : forall (j0 : nat) (t : ijv),
  In t (row_ijv i j0 r) <->
  exists k, t = (i, j0 + k, nth k r 0%Z) /\ nth k r 0%Z <> 0%Z.
Proof.
  induction r as [|x r IH]; intros j0 t; simpl.
  - split; [tauto|]. intros [k [_ H]]. destruct k; congruence.
  - rewrite in_app_iff, IH. split.
    + intros [H|[k [-> Hk]]].
      * destruct (Z.eqb_spec x 0); [contradiction|].
        destruct H as [<-|[]]. exists 0. rewrite Nat.add_0_r. auto.
      * exists (S k). rewrite Nat.add_succ_r. auto.
    + intros [[|k] [-> Hk]].
      * left. destruct (Z.eqb_spec x 0); [contradiction|].
        rewrite Nat.add_0_r. left; reflexivity.
      * right. exists k. rewrite Nat.add_succ_r. auto.
Qed.

Lemma plane_ijv_from_In (p : plane) : forall (i0 : nat) (t : ijv),
  In t (plane_ijv_from i0 p) <->
  exists a b, t = (i0 + a, b, pixel p a b) /\ pixel p a b <> 0%Z.
Proof.
  unfold pixel.
  induction p as [|r p IH]; intros i0 t; simpl.
  - split; [tauto|]. intros [a [b [_ H]]]. destruct a, b; simpl in H; congruence.
  - rewrite in_app_iff, IH, row_ijv_In. split.
    + intros [[k [-> Hk]]|[a [b [-> Hk]]]].
      * exists 0, k. rewrite Nat.add_0_r. auto.
      * exists (S a), b. rewrite Nat.add_succ_r. auto.
    + intros [[|a] [b [-> Hk]]].
      * left. exists b. rewrite Nat.add_0_r. auto.
      * right. exists a, b. rewrite Nat.add_succ_r. auto.
Qed.

Lemma plane_ijv_In (p : plane) (i j : nat) (v : Z) :
  In (i, j, v) (plane_ijv p) <-> pixel p i j = v /\ v <> 0%Z.
Proof.
  unfold plane_ijv. rewrite plane_ijv_from_In. split.
  - intros [a [b [[= -> -> ->] H]]]. auto.
  - intros [<- H]. exists i, j. auto.
Qed.

Lemma planes_ijv_In (ls : list plane) (i j : nat) (v : Z) :
  In (i, j, v) (planes_ijv ls) <->
  exists p, In p ls /\ pixel p i j = v /\ v <> 0%Z.
Proof.
  unfold planes_ijv. rewrite in_flat_map.
  split; intros [p [H1 H2]]; exists p; split; auto; apply plane_ijv_In; auto.
Qed.

Lemma pixel_in_bounds (sh : nat * nat) (p : plane) (i j : nat) :
  has_shape sh p -> pixel p i j <> 0%Z -> i < fst sh /\ j < snd sh.
Proof.
  intros [H1 H2] H. unfold pixel in H.
  destruct (Nat.lt_ge_cases i (length p)) as [Hi|Hi].
  - rewrite Forall_forall in H2.
    specialize (H2 (nth i p []) (nth_In _ _ Hi)).
    split; [lia|].
    destruct (Nat.lt_ge_cases j (length (nth i p []))) as [Hj|Hj]; [lia|].
    rewrite (nth_overflow _ _ Hj) in H. congruence.
  - rewrite (nth_overflow _ _ Hi) in H. destruct j; simpl in H; congruence.
Qed.

Lemma planes_ijv_in_bounds (sh : nat * nat) (ls : list plane) (t : ijv) :
  forallb (has_shapeb sh) ls = true ->
  In t (planes_ijv ls) -> in_bounds sh t /\ snd t <> 0%Z.
Proof.
  intros Hs Ht. destruct t as [[i j] v].
  apply planes_ijv_In in Ht. destruct Ht as [p [Hp [Hv Hz]]].
  rewrite forallb_forall in Hs. specialize (Hs p Hp).
  apply has_shapeb_has_shape in Hs.
  split; auto. unfold in_bounds; simpl.
  apply (pixel_in_bounds sh p); auto. congruence.
Qed.

(** ** The modelled restructuring meets its contract *)

Lemma set_nth_length {A : Type} (n : nat) (x : A) (l : list A) :
  length (set_nth n x l) = length l.
Proof.
  revert n; induction l as [|a l IH]; intros [|n]; simpl; auto.
Qed.

Lemma nth_set_nth {A : Type} (l : list A) : forall (n k : nat) (x d : A),
  nth k (set_nth n x l) d =
  if Nat.eqb k n && Nat.ltb n (length l) then x else nth k l d.
Proof.
  induction l as [|a l IH]; intros [|n] [|k] x d; simpl; auto;
    try (rewrite andb_false_r; reflexivity).
Qed.

Lemma pixel_set_pixel (p : plane) (i j i' j' : nat) (v : Z) :
  i < length p -> j < length (nth i p []) ->
  pixel (set_pixel i j v p) i' j' =
  if Nat.eqb i' i && Nat.eqb j' j then v else pixel p i' j'.
Proof.
  intros Hi Hj. unfold pixel, set_pixel.
  rewrite nth_set_nth. apply Nat.ltb_lt in Hi. rewrite Hi, andb_true_r.
  destruct (Nat.eqb_spec i' i) as [->|Hne]; simpl; auto.
  rewrite nth_set_nth. apply Nat.ltb_lt in Hj. rewrite Hj, andb_true_r.
  reflexivity.
Qed.

Lemma set_pixel_shape (sh : nat * nat) (p : plane) (i j : nat) (v : Z) :
  has_shape sh p -> has_shape sh (set_pixel i j v p).
Proof.
  intros [H1 H2]. unfold has_shape, set_pixel.
  rewrite set_nth_length. split; auto.
  rewrite Forall_forall in *. intros r Hr.
  apply (In_nth _ _ []) in Hr. destruct Hr as [k [Hk <-]].
  rewrite set_nth_length in Hk. rewrite nth_set_nth.
  destruct (Nat.eqb k i && Nat.ltb i (length p)) eqn:E.
  - rewrite set_nth_length. apply andb_true_iff in E. destruct E as [_ E].
    apply Nat.ltb_lt in E. apply H2, nth_In. auto.
  - apply H2, nth_In. auto.
Qed.

Lemma zeros_plane_shape (sh : nat * nat) : has_shape sh (zeros_plane sh).
Proof.
  unfold has_shape, zeros_plane. rewrite repeat_length. split; auto.
  rewrite Forall_forall. intros r Hr. apply repeat_spec in Hr. subst.
  apply repeat_length.
Qed.

Lemma nth_repeat_default {A : Type} (x : A) (n k : nat) (d : A) :
  nth k (repeat x n) d = if Nat.ltb k n then x else d.
Proof.
  revert k. induction n as [|n IH]; intros [|k]; simpl; auto.
Qed.

Lemma pixel_zeros_plane (sh : nat * nat) (i j : nat) :
  pixel (zeros_plane sh) i j = 0%Z.
Proof.
  unfold pixel, zeros_plane. rewrite nth_repeat_default.
  destruct (Nat.ltb i (fst sh)).
  - rewrite nth_repeat_default. destruct (Nat.ltb j (snd sh)); reflexivity.
  - destruct j; reflexivity.
Qed.

Lemma set_pixel_In (sh : nat * nat) (p : plane) (t x : ijv) :
  has_shape sh p -> in_bounds sh t -> snd t <> 0%Z ->
  pixel p (fst (fst t)) (snd (fst t)) = 0%Z ->
  (In x (plane_ijv (set_pixel (fst (fst t)) (snd (fst t)) (snd t) p)) <->
   x = t \/ In x (plane_ijv p)).
Proof.
  destruct t as [[i j] v], x as [[i' j'] v']. unfold in_bounds. simpl.
  intros Hs [Hi Hj] Hv H0.
  assert (Hi' : i < length p) by (destruct Hs; lia).
  assert (Hj' : j < length (nth i p [])).
  { destruct Hs as [_ Hs]. rewrite Forall_forall in Hs.
    rewrite (Hs _ (nth_In _ _ Hi')). auto. }
  rewrite !plane_ijv_In, pixel_set_pixel by auto.
  destruct (Nat.eqb_spec i' i) as [->|Hne]; simpl.
  - destruct (Nat.eqb_spec j' j) as [->|Hne]; simpl.
    + split.
      * intros [<- _]. auto.
      * intros [[= <-]|[H1 H2]]; auto. congruence.
    + split; auto. intros [[= -> ->]|H]; auto. congruence.
  - split; auto. intros [[= -> ->]|H]; auto. congruence.
Qed.

Lemma stamp_spec (sh : nat * nat) (t : ijv) (ps : list plane) :
  in_bounds sh t -> snd t <> 0%Z -> Forall (has_shape sh) ps ->
  Forall (has_shape sh) (stamp sh t ps) /\
  forall x, In x (planes_ijv (stamp sh t ps)) <-> x = t \/ In x (planes_ijv ps).
Proof.
  intros Hb Hv. induction 1 as [|p r Hp Hr IH].
  - simpl. split.
    + constructor; auto. apply set_pixel_shape, zeros_plane_shape.
    + intros x. rewrite app_nil_r.
      rewrite (set_pixel_In sh); auto using zeros_plane_shape.
      * destruct x as [[i j] v]. rewrite plane_ijv_In, pixel_zeros_plane.
        intuition congruence.
      * apply pixel_zeros_plane.
  - simpl.
    destruct (Z.eqb_spec (pixel p (fst (fst t)) (snd (fst t))) (snd t))
      as [Hsame|Hdiff].
    + split; [constructor; auto|].
      intros x. split; auto. intros [->|H]; auto.
      simpl. apply in_app_iff. left.
      destruct t as [[i j] v]. apply plane_ijv_In. auto.
    + destruct (Z.eqb_spec (pixel p (fst (fst t)) (snd (fst t))) 0)
        as [Hz|Hnz].
      * split; [constructor; auto using set_pixel_shape|].
        intros x. simpl. rewrite !in_app_iff, (set_pixel_In sh); auto. tauto.
      * destruct IH as [IH1 IH2]. split; [constructor; auto|].
        intros x. simpl. rewrite !in_app_iff, IH2. tauto.
Qed.

Lemma restructure_contract : restructuring restructure.
Proof.
  intros sh l Hl. unfold restructure.
  assert (H : forall ps, Forall (has_shape sh) ps ->
            Forall (has_shape sh) (fold_left (fun ps t => stamp sh t ps) l ps) /\
            forall x, In x (planes_ijv (fold_left (fun ps t => stamp sh t ps) l ps))
                      <-> In x l \/ In x (planes_ijv ps)).
  { induction l as [|t l IH]; intros ps Hps; simpl.
    - split; auto. tauto.
    - destruct (Hl t (or_introl eq_refl)) as [Hb Hv].
      destruct (stamp_spec sh t ps Hb Hv Hps) as [H1 H2].
      destruct (IH (fun x Hx => Hl x (or_intror Hx)) _ H1) as [H3 H4].
      split; auto. intros x. rewrite H4, H2. intuition congruence. }
  destruct (H [zeros_plane sh]) as [H1 H2].
  { constructor; auto using zeros_plane_shape. }
  split; auto. intros x. rewrite H2. simpl. rewrite app_nil_r.
  destruct x as [[i j] v]. rewrite plane_ijv_In, pixel_zeros_plane.
  intuition congruence.
Qed.

(** ** Construction *)

Lemma calculate_ijv_inv (sh : nat * nat) (ls : list plane) (rows : list ijv) :
  calculate_ijv sh ls = Ok rows ->
  forallb (has_shapeb sh) ls = true /\ rows = planes_ijv ls.
Proof.
  revert rows. induction ls as [|l r IH]; intros rows; simpl.
  - intros [= <-]. auto.
  - unfold masked_ijv. destruct (has_shapeb sh l); simpl; [|discriminate].
    destruct (calculate_ijv sh r) as [rest|]; simpl; [|discriminate].
    intros [= <-]. destruct (IH rest eq_refl) as [H1 ->]. auto.
Qed.

Lemma init_inv (orig : list plane) (overlap : bool) (d : dialog) :
  init orig overlap = Ok d ->
  labels d = orig /\ orig_labels d = orig /\ allow_overlap d = overlap /\
  shape d = shape_of (hd [] orig) /\
  undo_stack d = [] /\ artists d = [] /\ mode d = NORMAL_MODE /\
  last_ijv d = planes_ijv orig /\
  forallb (has_shapeb (shape d)) orig = true.
Proof.
  unfold init. destruct orig as [|l0 r]; [discriminate|].
  unfold reset. cbn [orig_labels set_labels].
  destruct (map_result plane_max (l0 :: r)) as [[|m ms]|]; try discriminate.
  destruct (fold_left Z.max ms m + 1 <? 0)%Z; [discriminate|].
  cbn [shape labels set_undo_stack set_artists set_to_keep set_labels].
  destruct (calculate_ijv (shape_of l0) (l0 :: r)) as [rows|] eqn:E;
    [|discriminate].
  intros [= <-]. apply calculate_ijv_inv in E. destruct E as [E1 ->].
  cbn. repeat split; auto.
Qed.

(** ** C1: what repeated undo restores *)

(** C1 (amended).  After construction on a raster on which no pixel
    carries the same identifier twice, let any sequence [es] of committed
    edits run, each leaving such a raster with at least one labelled
    pixel.  Then [length es] calls of [undo] succeed, empty the undo
    stack, and leave planes and an IJV snapshot that hold exactly the
    construction-time labelled pixels.  The keep/discard array is not
    touched by [undo]: it stays as the last edit left it. *)
Theorem undo_restores_raster
    (get_labels : nat * nat -> list ijv -> list plane)
    (orig : list plane) (overlap : bool) (es : list edit) (d0 : dialog) :
  restructuring get_labels ->
  init orig overlap = Ok d0 ->
  nodupb (planes_ijv orig) = true ->
  forallb (fun e => labelled_raster (shape d0) (e_labels e)) es = true ->
  exists d1 d2,
    commits es d0 = Done d1 /\
    undos get_labels (length es) d1 = Done d2 /\
    undo_stack d2 = [] /\
    same_set (planes_ijv (labels d2)) (planes_ijv orig) /\
    same_set (last_ijv d2) (planes_ijv orig) /\
    to_keep d2 = to_keep d1.
Proof.
  intros Hgl Hinit Hnd Hes.
  destruct (init_inv _ _ _ Hinit)
    as [Hl [_ [_ [_ [Hst [_ [_ [Hlast Hshape]]]]]]]].
  apply nodupb_NoDup in Hnd.
  destruct es as [|e es'].
  { exists d0, d0. simpl. rewrite Hl, Hlast. unfold same_set.
    repeat split; auto. }
  remember (e :: es') as es eqn:Ees.
  destruct (commits_history es d0 [])
    as [d1 [ps [Hc [Hh [Hn1 [Hsh1 [Hbase Hlen]]]]]]]; auto.
  { rewrite Hst. constructor. }
  { rewrite Hlast. auto. }
  rewrite Hst in Hlen. simpl in Hlen. rewrite Nat.add_0_r in Hlen.
  destruct (undos_history get_labels (undo_stack d1) (last_ijv d1) ps d1)
    as [d2 [Hu [Hst2 [Hs2 [Hk2 [Hsh2 Hl2]]]]]]; auto.
  { unfold same_set; tauto. }
  rewrite Hlen in Hu. simpl in Hbase. rewrite Hbase, Hlast in Hs2.
  exists d1, d2. repeat split; auto; try apply Hs2.
  - destruct Hl2 as [E|E].
    { rewrite E in Hlen. subst es. discriminate. }
    rewrite E. intros H.
    apply (proj2 (Hgl (shape d1) (last_ijv d2)
             (fun x Hx => planes_ijv_in_bounds (shape d1) orig x
                            ltac:(rewrite Hsh1; exact Hshape)
                            (proj1 (Hs2 x) Hx))) t) in H.
    apply Hs2. auto.
  - destruct Hl2 as [E|E].
    { rewrite E in Hlen. subst es. discriminate. }
    rewrite E. intros H.
    apply (proj2 (Hgl (shape d1) (last_ijv d2)
             (fun x Hx => planes_ijv_in_bounds (shape d1) orig x
                            ltac:(rewrite Hsh1; exact Hshape)
                            (proj1 (Hs2 x) Hx))) t).
    apply Hs2. auto.
Qed.

Lemma undo_restores_raster_witness :
  let orig := [[[1; 0]; [0; 0]]]%Z in
  let es := [Edit [[[1; 1]; [0; 0]]]%Z [true; true] [] 0;
             Edit [[[0; 0]; [0; 2]]]%Z [true; true; true] [] 0] in
  exists d0,
    init orig false = Ok d0 /\
    exists d1 d2,
      commits es d0 = Done d1 /\
      undos restructure (length es) d1 = Done d2 /\
      undo_stack d2 = [] /\
      same_set (planes_ijv (labels d2)) (planes_ijv orig) /\
      same_set (last_ijv d2) (planes_ijv orig) /\
      to_keep d2 = to_keep d1.
Proof.
  intros orig es. eexists. split; [reflexivity|].
  apply (undo_restores_raster restructure orig false es);
    [apply restructure_contract | reflexivity | reflexivity | reflexivity].
Defined.

(** C1 as stated fails on the keep/discard flags: [new_object] appends a
    flag, one [undo] brings the pixels back and leaves the flag in place. *)
Lemma undo_keeps_new_flag :
  let ev := Event "n" 0 true 0 0 1 1 in
  exists d0 d1 d2,
    init [[[0; 0; 0]; [0; 1; 0]; [0; 0; 0]]]%Z false = Ok d0 /\
    new_object circle13_approx ev d0 = Done d1 /\
    undo restructure d1 = Done d2 /\
    labels d2 = labels d0 /\
    to_keep d0 = [true; true] /\
    to_keep d2 = [true; true; true] /\
    to_keep d2 <> to_keep d0.
Proof.
  intros ev. do 3 eexists.
  split; [vm_compute; reflexivity|].
  split; [vm_compute; reflexivity|].
  split; [vm_compute; reflexivity|].
  vm_compute. repeat split; auto. discriminate.
Qed.

(** ** C2: the pushed diff *)

Lemma map_NoDup_inj {A B : Type} (f : A -> B) (l : list A) (x y : A) :
  NoDup (map f l) -> In x l -> In y l -> f x = f y -> x = y.
Proof.
  induction l as [|a l IH]; simpl; [tauto|].
  intros Hn Hx Hy E. inversion Hn as [|? ? Ha Hl]; subst.
  destruct Hx as [->|Hx], Hy as [->|Hy]; auto.
  - elim Ha. rewrite E. apply in_map; auto.
  - elim Ha. rewrite <- E. apply in_map; auto.
Qed.

Lemma changed_In (cur prev : list ijv) (t : ijv) :
  In t (changed cur prev) <->
  (In t cur /\ ~ In t prev) \/ (In t prev /\ ~ In t cur).
Proof.
  unfold changed. rewrite in_app_iff, !filter_In, !negb_true_iff.
  assert (H : forall l, ijv_mem t l = false <-> ~ In t l).
  { intros l. rewrite <- ijv_mem_In. destruct (ijv_mem t l); intuition congruence. }
  rewrite !H. tauto.
Qed.

Lemma diff_bounds (diff : list ijvx) (cur prev : list ijv) :
  diff_spec diff cur prev ->
  length diff <= length (changed cur prev) /\
  (NoDup (map fst cur) -> NoDup (map fst prev) ->
   length (filter is_new diff) <= length (changed_positions cur prev) /\
   length (filter is_old diff) <= length (changed_positions cur prev)).
Proof.
  intros [Hn Hd]. split.
  - rewrite <- (length_map ijv_of diff).
    apply NoDup_incl_length.
    + apply Finite.Injective_map_NoDup_in; auto.
      intros [t e] [t' e'] H1 H2. unfold ijv_of; simpl. intros <-.
      apply Hd in H1, H2. f_equal. intuition congruence.
    + intros t Ht. apply in_map_iff in Ht. destruct Ht as [[t' e] [<- Ht]].
      apply Hd in Ht. apply changed_In. unfold ijv_of; simpl.
      destruct Ht as [[_ [? ?]]|[_ [? ?]]]; [left|right]; split; assumption.
  - intros Hc Hp.
    assert (Hside : forall (f : ijvx -> bool) (side : list ijv) (e0 : epoch),
              NoDup (map fst side) ->
              (forall t e, In (t, e) diff -> f (t, e) = true ->
                 e = e0 /\ In t side /\ In t (changed cur prev)) ->
              length (filter f diff)
              <= length (changed_positions cur prev)).
    { intros f side e0 Hside Hf.
      rewrite <- (length_map (fun r => fst (ijv_of r)) (filter f diff)).
      apply NoDup_incl_length.
      - apply Finite.Injective_map_NoDup_in; [|apply NoDup_filter; auto].
        intros [t e] [t' e'] H1 H2. unfold ijv_of; simpl. intros E.
        apply filter_In in H1, H2.
        destruct H1 as [H1 F1], H2 as [H2 F2].
        destruct (Hf _ _ H1 F1) as [-> [S1 _]].
        destruct (Hf _ _ H2 F2) as [-> [S2 _]].
        f_equal. exact (map_NoDup_inj fst side t t' Hside S1 S2 E).
      - intros q Hq. apply in_map_iff in Hq.
        destruct Hq as [[t e] [<- Ht]]. apply filter_In in Ht.
        destruct Ht as [Ht F]. destruct (Hf _ _ Ht F) as [_ [_ Hch]].
        unfold changed_positions, ijv_of. simpl.
        apply nodup_In. apply (in_map fst) in Hch. exact Hch. }
    split.
    + apply (Hside is_new cur New); auto.
      intros t e Ht F. apply Hd in Ht. rewrite changed_In.
      destruct e; [|discriminate]. intuition congruence.
    + apply (Hside is_old prev Old); auto.
      intros t e Ht F. apply Hd in Ht. rewrite changed_In.
      destruct e; [discriminate|]. intuition congruence.
Qed.

(** C2.  On a raster on which no pixel carries the same identifier twice,
    [record_undo] pushes a diff whose rows are labelled pixels of exactly
    one of the two snapshots, tagged with the snapshot they come from; a
    labelled pixel of both snapshots is never in it.  With [k] the number
    of labelled pixels (IJV entries) that changed, the diff has at most
    [k] rows of either tag, hence at most [2 k] rows, and none when
    nothing changed.  When no pixel holds two identifiers, the same
    bounds hold with [k] the number of pixel positions that changed. *)
Theorem record_undo_diff_minimal (d : dialog) :
  proper_raster (shape d) (labels d) = true ->
  nodupb (last_ijv d) = true ->
  exists diff d',
    record_undo d = Done d' /\
    undo_stack d' = (diff, last_artist_save d) :: undo_stack d /\
    (forall t e, In (t, e) diff ->
       (e = New /\ In t (planes_ijv (labels d)) /\ ~ In t (last_ijv d)) \/
       (e = Old /\ In t (last_ijv d) /\ ~ In t (planes_ijv (labels d)))) /\
    (forall t e, In t (planes_ijv (labels d)) -> In t (last_ijv d) ->
       ~ In (t, e) diff) /\
    length (filter is_new diff)
      <= length (changed (planes_ijv (labels d)) (last_ijv d)) /\
    length (filter is_old diff)
      <= length (changed (planes_ijv (labels d)) (last_ijv d)) /\
    length diff <= 2 * length (changed (planes_ijv (labels d)) (last_ijv d)) /\
    (changed (planes_ijv (labels d)) (last_ijv d) = [] -> diff = []) /\
    (NoDup (map fst (planes_ijv (labels d))) ->
     NoDup (map fst (last_ijv d)) ->
     length (filter is_new diff)
       <= length (changed_positions (planes_ijv (labels d)) (last_ijv d)) /\
     length (filter is_old diff)
       <= length (changed_positions (planes_ijv (labels d)) (last_ijv d))).
Proof.
  intros Hp Hn. apply nodupb_NoDup in Hn.
  destruct (planes_ijv (labels d)) as [|t0 c] eqn:E.
  - apply proper_raster_spec in Hp. destruct Hp as [Hs _].
    exists [], (set_last_ijv []
                 (set_last_artist_save (artists d)
                    (set_undo_stack (([], last_artist_save d) :: undo_stack d)
                       d))).
    split.
    { apply record_undo_on_empty. rewrite (calculate_ijv_ok _ _ Hs), E. auto. }
    simpl. repeat split; auto; try lia; contradiction.
  - destruct (record_undo_labelled d) as [diff [Hr Hspec]]; auto.
    { unfold labelled_raster. rewrite Hp, E. reflexivity. }
    rewrite E in *.
    exists diff. eexists. split; [exact Hr|].
    destruct (diff_bounds _ _ _ Hspec) as [Hlen Hpos].
    pose proof (filter_length_le is_new diff).
    pose proof (filter_length_le is_old diff).
    destruct Hspec as [Hnd Hd].
    simpl. repeat split; auto; try lia.
    + intros t e Ht. apply Hd. exact Ht.
    + intros t e H1 H2 H3. apply Hd in H3.
      destruct H3 as [[_ [_ H3]]|[_ [_ H3]]]; apply H3; assumption.
    + intros Hch. rewrite Hch in Hlen. destruct diff; auto.
      simpl in Hlen. lia.
    + apply Hpos; auto.
    + apply Hpos; auto.
Qed.

Lemma record_undo_diff_minimal_witness :
  let d := Dialog false [] (2, 2) [[[1; 2]; [0; 0]]]%Z [true; true; true]
             [] [] [(0, 0, 1%Z); (1, 1, 2%Z)] [] NORMAL_MODE
             None None None None None None None [] 0 in
  exists diff d',
    record_undo d = Done d' /\
    undo_stack d' = (diff, last_artist_save d) :: undo_stack d /\
    (forall t e, In (t, e) diff ->
       (e = New /\ In t (planes_ijv (labels d)) /\ ~ In t (last_ijv d)) \/
       (e = Old /\ In t (last_ijv d) /\ ~ In t (planes_ijv (labels d)))) /\
    (forall t e, In t (planes_ijv (labels d)) -> In t (last_ijv d) ->
       ~ In (t, e) diff) /\
    length (filter is_new diff)
      <= length (changed (planes_ijv (labels d)) (last_ijv d)) /\
    length (filter is_old diff)
      <= length (changed (planes_ijv (labels d)) (last_ijv d)) /\
    length diff <= 2 * length (changed (planes_ijv (labels d)) (last_ijv d)) /\
    (changed (planes_ijv (labels d)) (last_ijv d) = [] -> diff = []) /\
    (NoDup (map fst (planes_ijv (labels d))) ->
     NoDup (map fst (last_ijv d)) ->
     length (filter is_new diff)
       <= length (changed_positions (planes_ijv (labels d)) (last_ijv d)) /\
     length (filter is_old diff)
       <= length (changed_positions (planes_ijv (labels d)) (last_ijv d))).
Proof.
  intros d. apply (record_undo_diff_minimal d); reflexivity.
Defined.

(** The diff of the dialog above, for the record: the pixel that kept its
    label is absent, the moved label appears once per snapshot. *)
Example record_undo_diff_example :
  let d := Dialog false [] (2, 2) [[[1; 2]; [0; 0]]]%Z [true; true; true]
             [] [] [(0, 0, 1%Z); (1, 1, 2%Z)] [] NORMAL_MODE
             None None None None None None None [] 0 in
  exists d', record_undo d = Done d' /\
             undo_stack d' = [([(0, 1, 2%Z, New); (1, 1, 2%Z, Old)], [])].
Proof. eexists. split; vm_compute; reflexivity. Qed.

(** ** C10: recording on an empty raster *)

(** When [record_undo] runs on a raster without labelled pixels, the
    pushed diff is empty whatever the previous snapshot held, and the
    snapshot becomes empty.  A following [undo] pops that entry and then
    fails: the stacked array has no rows while the match mask has one
    entry. *)
Lemma record_undo_empty_raster
    (get_labels : nat * nat -> list ijv -> list plane) (d : dialog) :
  calculate_ijv (shape d) (labels d) = Ok [] ->
  exists d1,
    record_undo d = Done d1 /\
    undo_stack d1 = ([], last_artist_save d) :: undo_stack d /\
    last_ijv d1 = [] /\
    labels d1 = labels d /\
    undo get_labels d1 = Raised IndexError (set_undo_stack (undo_stack d) d1).
Proof.
  intros H. eexists. split; [apply record_undo_on_empty; exact H|].
  repeat split.
Qed.

(** C10.  The only object of a 1x2 raster, at pixel (0,0), is deleted
    and the edit is recorded: the pushed diff is empty although the
    previous snapshot held the pixel, as the claim says.  The [undo] that
    follows does not reconstruct an empty IJV set: whatever the
    restructuring is, it pops the entry and raises [IndexError], because
    the filter [ijvx[~matches, :]] applies a mask of one entry to an
    array without rows.  The undo stack is left empty and the planes are
    not rebuilt. *)
Example undo_after_empty_record_raises
    (get_labels : nat * nat -> list ijv -> list plane) :
  exists d0 d1 d2,
    init [[[1; 0]]]%Z false = Ok d0 /\
    last_ijv d0 = [(0, 0, 1%Z)] /\
    record_undo (remove_label 1 d0) = Done d1 /\
    undo_stack d1 = [([], [])] /\ last_ijv d1 = [] /\
    undo get_labels d1 = Raised IndexError d2 /\
    undo_stack d2 = [] /\ labels d2 = [[[0; 0]]]%Z /\
    ~ (exists d3, undo get_labels d1 = Done d3).
Proof.
  do 3 eexists.
  split; [vm_compute; reflexivity|].
  split; [reflexivity|].
  split; [vm_compute; reflexivity|].
  split; [reflexivity|]. split; [reflexivity|].
  split; [vm_compute; reflexivity|].
  split; [reflexivity|]. split; [reflexivity|].
  intros [d3 H]. vm_compute in H. discriminate.
Qed.

(** ** C8: the order of the flattening *)

Lemma StronglySorted_app_intro {A : Type} (R : A -> A -> Prop) (l l' : list A) :
  StronglySorted R l -> StronglySorted R l' ->
  (forall x y, In x l -> In y l' -> R x y) ->
  StronglySorted R (l ++ l').
Proof.
  induction 1 as [|a l Hl IH Ha]; intros Hl' H; simpl; auto.
  constructor.
  - apply IH; auto. intros x y Hx Hy. apply H; [right|]; auto.
  - rewrite Forall_forall in *. intros x Hx. apply in_app_iff in Hx.
    destruct Hx as [Hx|Hx]; auto. apply H; [left|]; auto.
Qed.

Lemma row_ijv_sorted (i : nat) (r : list Z) (j0 : nat) :
  StronglySorted row_major (row_ijv i j0 r).
Proof.
  revert j0. induction r as [|x r IH]; intros j0; simpl; [constructor|].
  apply StronglySorted_app_intro; auto.
  - destruct (Z.eqb x 0); repeat constructor.
  - intros a b Ha Hb. destruct (Z.eqb x 0); [contradiction|].
    destruct Ha as [<-|[]]. apply row_ijv_In in Hb.
    destruct Hb as [k [-> _]]. right. simpl. lia.
Qed.

Lemma plane_ijv_from_sorted (p : plane) (i0 : nat) :
  StronglySorted row_major (plane_ijv_from i0 p).
Proof.
  revert i0. induction p as [|r p IH]; intros i0; simpl; [constructor|].
  apply StronglySorted_app_intro; auto using row_ijv_sorted.
  intros a b Ha Hb. apply row_ijv_In in Ha. destruct Ha as [k [-> _]].
  apply plane_ijv_from_In in Hb. destruct Hb as [a' [b' [-> _]]].
  left. simpl. lia.
Qed.

(** C8 (amended).  For planes of the dialog's shape, [calculate_ijv]
    returns the rows of all nonzero pixels plane by plane, in the order
    of the planes; within one plane the rows are in row-major order, by
    row and then by column.  Across planes the order starts over. *)
Theorem calculate_ijv_plane_by_plane (sh : nat * nat) (ls : list plane) :
  forallb (has_shapeb sh) ls = true ->
  calculate_ijv sh ls = Ok (concat (map plane_ijv ls)) /\
  Forall (fun p => StronglySorted row_major (plane_ijv p)) ls /\
  (forall i j v,
     In (i, j, v) (concat (map plane_ijv ls)) <->
     v <> 0%Z /\ exists p, In p ls /\ pixel p i j = v).
Proof.
  intros Hs. rewrite <- flat_map_concat_map. fold (planes_ijv ls).
  split; [apply calculate_ijv_ok; auto|]. split.
  - rewrite Forall_forall. intros p _. apply plane_ijv_from_sorted.
  - intros i j v. rewrite planes_ijv_In. split.
    + intros [p [H1 [H2 H3]]]. split; auto. exists p. auto.
    + intros [H1 [p [H2 H3]]]. exists p. auto.
Qed.

Lemma calculate_ijv_plane_by_plane_witness :
  let sh := (2, 2) in
  let ls := [[[0; 1]; [1; 0]]; [[2; 0]; [0; 0]]]%Z in
  calculate_ijv sh ls = Ok (concat (map plane_ijv ls)) /\
  Forall (fun p => StronglySorted row_major (plane_ijv p)) ls /\
  (forall i j v,
     In (i, j, v) (concat (map plane_ijv ls)) <->
     v <> 0%Z /\ exists p, In p ls /\ pixel p i j = v).
Proof.
  intros sh ls. apply (calculate_ijv_plane_by_plane sh ls). reflexivity.
Defined.

(** C8 as stated fails with two planes: the pixel [(0, 0)] of the second
    plane comes after the pixel [(0, 1)] of the first. *)
Lemma calculate_ijv_not_row_major :
  calculate_ijv (1, 2) [[[0; 1]]; [[2; 0]]]%Z
    = Ok [(0, 1, 1%Z); (0, 0, 2%Z)] /\
  ~ Sorted (fun a b => ~ row_major b a) [(0, 1, 1%Z); (0, 0, 2%Z)].
Proof.
  split; [reflexivity|].
  intros H. inversion H as [|? ? _ Hd]; subst.
  inversion Hd as [|? ? Hab]; subst.
  apply Hab. right. simpl. lia.
Qed.

(** ** C9: construction *)









Lemma In_concat_pixel (p : plane) (v : Z) :
  In v (concat p) -> exists i j, pixel p i j = v.
Proof.
  intros H. apply in_concat in H. destruct H as [r [Hr Hv]].
  apply (In_nth _ _ []) in Hr. destruct Hr as [i [_ <-]].
  apply (In_nth _ _ 0%Z) in Hv. destruct Hv as [j [_ <-]].
  exists i, j. reflexivity.
Qed.




(** Planes of different shapes are refused by the array indexing of the
    first flattening, with the error of that indexing. *)
Example init_shape_mismatch :
  init [[[1; 0]; [0; 0]]; [[1; 0; 0]]]%Z false = Raise IndexError.
Proof. reflexivity. Qed.

(** ** C7: Escape outside normal mode *)

Section Escape.

Variable get_labels : nat * nat -> list ijv -> list plane.
Variable polygon_lines_to_mask : list point -> nat * nat -> mask.
Variable outline_pts : bool -> mask -> list (list point).
Variable circle13 : list point.
Variable transform : point -> point.
Variable other_command : string -> event -> dialog -> outcome.

(** C7.  In freehand, either split or delete mode, Escape returns the
    dialog to normal mode and drops what was in progress: the freehand
    line, the split line, the delete rectangle with its marked points and
    its start.  The planes, the keep flags, the chains, the undo stack
    and the snapshot it diffs against stay as they were. *)
Theorem escape_cancels (ev : event) (d : dialog) :
  key ev = "escape"%string ->
  mode d <> NORMAL_MODE ->
  split_line_present d ->
  exists d',
    on_key_down get_labels polygon_lines_to_mask outline_pts circle13
      transform other_command ev d = Done d' /\
    mode d' = NORMAL_MODE /\
    labels d' = labels d /\
    undo_stack d' = undo_stack d /\
    last_ijv d' = last_ijv d /\
    last_artist_save d' = last_artist_save d /\
    to_keep d' = to_keep d /\
    artists d' = artists d /\
    (mode d = FREEHAND_DRAW_MODE -> active_artist d' = None) /\
    (mode d = SPLIT_PICK_SECOND_MODE -> split_artist d' = None) /\
    (mode d = DELETE_MODE ->
       delete_mode_artist d' = None /\ delete_mode_rect_artist d' = None /\
       delete_mode_start d' = None).
Proof.
  intros Hk Hm Hs. unfold on_key_down. rewrite Hk.
  cbn [mode set_pressed_keys].
  unfold split_line_present in Hs.
  destruct (mode d) eqn:E; try congruence;
    rewrite ?String.eqb_refl; unfold exit_split_mode;
    cbn [mode split_artist set_pressed_keys]; rewrite ?E.
  - eexists. split; [reflexivity|]. cbn. rewrite ?E.
    repeat split; auto; discriminate.
  - destruct (split_artist d) eqn:Es; [|elim (Hs eq_refl); auto].
    eexists. split; [reflexivity|]. cbn. repeat split; auto; discriminate.
  - eexists. split; [reflexivity|]. cbn. repeat split; auto; discriminate.
  - eexists. split; [reflexivity|]. cbn. repeat split; auto; discriminate.
Qed.

End Escape.

Lemma escape_cancels_witness :
  let ev := Event "escape" 0 true 0 0 0 0 in
  let d := Dialog false [[[1; 0]]]%Z (1, 2) [[[1; 0]]]%Z [true; true]
             [] [] [(0, 0, 1%Z)] [] SPLIT_PICK_SECOND_MODE
             None None (Some [(0, 0); (1, 1)]%Q) None None None None [] 0 in
  exists d',
    on_key_down restructure (fun _ sh => zeros_mask sh) (fun _ _ => [])
      circle13_approx (fun p => p) (fun _ _ d => Done d) ev d = Done d' /\
    mode d' = NORMAL_MODE /\
    labels d' = labels d /\
    undo_stack d' = undo_stack d /\
    last_ijv d' = last_ijv d /\
    last_artist_save d' = last_artist_save d /\
    to_keep d' = to_keep d /\
    artists d' = artists d /\
    (mode d = FREEHAND_DRAW_MODE -> active_artist d' = None) /\
    (mode d = SPLIT_PICK_SECOND_MODE -> split_artist d' = None) /\
    (mode d = DELETE_MODE ->
       delete_mode_artist d' = None /\ delete_mode_rect_artist d' = None /\
       delete_mode_start d' = None).
Proof.
  intros ev d.
  apply (escape_cancels restructure (fun _ sh => zeros_mask sh)
           (fun _ _ => []) circle13_approx (fun p => p)
           (fun _ _ d => Done d) ev d).
  - reflexivity.
  - discriminate.
  - intros _. discriminate.
Defined.

(** ** C6: deleting a control point of a triangle *)

(** C6.  The control point nearest the cursor is removed, but a chain of
    four stored points is not deleted instead of being shrunk.
    A triangle is stored as four points.  [delete_control_point] tests
    [len(l) < 4] before it removes the point, so the triangle is not
    deleted: it is left with two distinct points and the closing one, and
    its object stays in the raster. *)
Example delete_control_point_keeps_degenerate_chain :
  let triangle := [(0, 0); (4, 0); (0, 4); (0, 0)]%Q in
  let d := Dialog false [[[1; 1]; [1; 0]]]%Z (2, 2) [[[1; 1]; [1; 0]]]%Z
             [true; true] [Artist 0 triangle 1 false true] []
             [(0, 0, 1%Z); (0, 1, 1%Z); (1, 0, 1%Z)] []
             NORMAL_MODE None None None None None None None [] 1 in
  let ev := Event "d" 0 true 4 0 4 0 in
  exists d',
    delete_control_point (fun p => p) ev d = Done d' /\
    map xydata (artists d') = [[(0, 0); (0, 4); (0, 0)]]%Q /\
    labels d' = labels d.
Proof. eexists. split; [vm_compute; reflexivity|]. split; reflexivity. Qed.

(** Only a chain that is already down to three stored points goes. *)
Example delete_control_point_deletes_two_point_chain :
  let d := Dialog false [[[1; 1]; [1; 0]]]%Z (2, 2) [[[1; 1]; [1; 0]]]%Z
             [true; true] [Artist 0 [(0, 0); (0, 4); (0, 0)]%Q 1 true true] []
             [(0, 0, 1%Z); (0, 1, 1%Z); (1, 0, 1%Z)] []
             NORMAL_MODE None None None None None None None [] 1 in
  let ev := Event "d" 0 true 0 4 0 4 in
  exists d',
    delete_control_point (fun p => p) ev d = Done d' /\
    artists d' = [] /\ planes_ijv (labels d') = [].
Proof. eexists. split; [vm_compute; reflexivity|]. split; reflexivity. Qed.

(** ** C3: what the drag handler lets through *)

(** The handler does reject a crossing move when the candidate is on no
    edge: in the chain (0,0) (8,0) (8,8) (4,4) (0,8), the first point is
    dragged to (10,6), which makes the edge to (8,0) cross the edge from
    (8,8) to (4,4); the dialog is left as it was.  [paths_cross] stands
    for the path intersection test. *)
Example drag_across_edge_rejected :
  let square := [(0, 0); (8, 0); (8, 8); (4, 4); (0, 8); (0, 0)]%Q in
  let d := Dialog false [] (12, 12) [] [true; true]
             [Artist 0 square 1 false true] [] [] []
             NORMAL_MODE (Some (ArtistKey 0)) (Some 0) None None None None
             None [] 1 in
  let ev := Event "none" 1 true 0 0 10 6 in
  handle_mouse_moved_active_mode paths_cross ev d = Done d.
Proof. vm_compute. reflexivity. Qed.

(** C3.  The handler lets a crossing move through when the candidate
    lies on an edge of the chain.  The chain A(0,2) B(4,2) C(8,2) D(4,6)
    E(8,10) F(0,10) of object 1 is closed at A, and overlap is disabled.
    A is dragged to (6,8), the middle of the edge DE.  The new edge from
    (6,8) to B crosses the edge CD, which is not adjacent to it, in the
    point (5,5).  Because the candidate passes the on-segment test for
    DE, the loop skips the whole chain before the path intersection test
    is made: whatever that test would answer, the handler returns
    normally and the chain now starts and ends at (6,8). *)
Example drag_onto_edge_accepted
    (intersects_path : list point -> list point -> bool) :
  let chain :=
    [(0, 2); (4, 2); (8, 2); (4, 6); (8, 10); (0, 10); (0, 2)]%Q in
  let d := Dialog false [] (12, 12) [] [true; true]
             [Artist 0 chain 1 false true] [] [] []
             NORMAL_MODE (Some (ArtistKey 0)) (Some 0) None None None None
             None [] 1 in
  let ev := Event "none" 1 true 0 0 6 8 in
  segments_cross ((6, 8), (4, 2))%Q ((8, 2), (4, 6))%Q = true /\
  (5 == 6 + (1 # 2) * (4 - 6))%Q /\ (5 == 8 + (1 # 2) * (2 - 8))%Q /\
  (5 == 8 + (3 # 4) * (4 - 8))%Q /\ (5 == 2 + (3 # 4) * (6 - 2))%Q /\
  on_segment (6, 8)%Q ((4, 6), (8, 10))%Q = true /\
  exists d',
    handle_mouse_moved_active_mode intersects_path ev d = Done d' /\
    map xydata (artists d')
    = [[(6, 8); (4, 2); (8, 2); (4, 6); (8, 10); (0, 10); (6, 8)]%Q] /\
    map xydata (artists d') <> map xydata (artists d).
Proof.
  split; [reflexivity|]. repeat (split; [reflexivity|]). eexists.
  split; [vm_compute; reflexivity|].
  split; [reflexivity|]. vm_compute. discriminate.
Qed.

(** The handler tests the candidate truncated to integers and stores the
    destination as it came.  In the chain A(3,3) B(8,0) C(7,4) D(4,7)
    E(0,8), A is dragged to (5.75, 5.75): the tested point (5,5) is on
    the near side of the edge CD, the stored point beyond it, and the new
    edge from E crosses CD. *)
Example drag_tests_truncated_point :
  let chain := [(3, 3); (8, 0); (7, 4); (4, 7); (0, 8); (3, 3)]%Q in
  let d := Dialog false [] (12, 12) [] [true; true]
             [Artist 0 chain 1 false true] [] [] []
             NORMAL_MODE (Some (ArtistKey 0)) (Some 0) None None None None
             None [] 1 in
  let ev := Event "none" 1 true 0 0 (23 # 4) (23 # 4) in
  segments_cross ((0, 8), (23 # 4, 23 # 4))%Q ((7, 4), (4, 7))%Q = true /\
  exists d',
    handle_mouse_moved_active_mode paths_cross ev d = Done d' /\
    map xydata (artists d')
    = [[(23 # 4, 23 # 4); (8, 0); (7, 4); (4, 7); (0, 8);
        (23 # 4, 23 # 4)]%Q].
Proof.
  split; [reflexivity|]. eexists.
  split; [vm_compute; reflexivity|]. reflexivity.
Qed.

(** ** C4: the control-point simplifier *)

(** *** Indices of the accepted points *)

Lemma argwhere_from_In (l : list bool) : forall (i x : nat),
  In x (argwhere_from i l) <-> exists k, x = i + k /\ nth k l false = true.
Proof.
  induction l as [|b r IH]; intros i x; simpl.
  - split; [tauto|]. intros [k [_ H]]. destruct k; discriminate.
  - rewrite in_app_iff, IH. split.
    + intros [H|[k [-> Hk]]].
      * destruct b; [|contradiction]. destruct H as [<-|[]].
        exists 0. rewrite Nat.add_0_r. auto.
      * exists (S k). rewrite Nat.add_succ_r. auto.
    + intros [[|k] [-> Hk]].
      * left. simpl in Hk. subst b. rewrite Nat.add_0_r. left; auto.
      * right. exists k. rewrite Nat.add_succ_r. auto.
Qed.

Lemma argwhere_In (l : list bool) (x : nat) :
  In x (argwhere l) <-> nth x l false = true.
Proof.
  unfold argwhere. rewrite argwhere_from_In. split.
  - intros [k [-> H]]. exact H.
  - intros H. exists x. auto.
Qed.

Lemma argwhere_from_sorted (l : list bool) (i : nat) :
  StronglySorted lt (argwhere_from i l).
Proof.
  revert i. induction l as [|b r IH]; intros i; simpl; [constructor|].
  apply StronglySorted_app_intro; auto.
  - destruct b; repeat constructor.
  - intros x y Hx Hy. destruct b; [|contradiction].
    destruct Hx as [<-|[]]. apply argwhere_from_In in Hy.
    destruct Hy as [k [-> _]]. lia.
Qed.

Lemma argwhere_from_app (l l' : list bool) (i : nat) :
  argwhere_from i (l ++ l')
  = argwhere_from i l ++ argwhere_from (i + length l) l'.
Proof.
  revert i. induction l as [|b r IH]; intros i; simpl.
  - rewrite Nat.add_0_r. reflexivity.
  - rewrite IH, <- app_assoc, Nat.add_succ_r. reflexivity.
Qed.

Lemma select_argwhere_from {A : Type} (d : A) (acc : list bool) :
  forall (chain : list A) (i : nat),
    length acc <= length chain ->
    select acc chain = map (fun j => nth (j - i) chain d) (argwhere_from i acc).
Proof.
  induction acc as [|b r IH]; intros chain i Hlen; [reflexivity|].
  destruct chain as [|c chain]; [simpl in Hlen; lia|].
  simpl in Hlen. simpl select. simpl argwhere_from. rewrite map_app.
  assert (Hr : select r chain
               = map (fun j => nth (j - i) (c :: chain) d)
                     (argwhere_from (S i) r)).
  { rewrite (IH chain (S i)) by lia. apply map_ext_in.
    intros j Hj. apply argwhere_from_In in Hj. destruct Hj as [k [-> _]].
    replace (S i + k - i) with (S (S i + k - S i)) by lia. reflexivity. }
  destruct b; simpl; rewrite Hr; [rewrite Nat.sub_diag|]; reflexivity.
Qed.

Lemma select_argwhere {A : Type} (d : A) (acc : list bool) (chain : list A) :
  length acc <= length chain ->
  select acc chain = map (fun j => nth j chain d) (argwhere acc).
Proof.
  intros H. rewrite (select_argwhere_from d acc chain 0 H).
  apply map_ext. intros j. rewrite Nat.sub_0_r. reflexivity.
Qed.

Lemma filter_none {A : Type} (f : A -> bool) (l : list A) :
  (forall x, In x l -> f x = false) -> filter f l = [].
Proof.
  induction l as [|a l IH]; intros H; simpl; auto.
  rewrite (H a (or_introl eq_refl)). apply IH. intros x Hx. apply H. right; auto.
Qed.

Lemma filter_all {A : Type} (f : A -> bool) (l : list A) :
  (forall x, In x l -> f x = true) -> filter f l = l.
Proof.
  induction l as [|a l IH]; intros H; simpl; auto.
  rewrite (H a (or_introl eq_refl)). f_equal. apply IH.
  intros x Hx. apply H. right; auto.
Qed.

Lemma cumsum_from_nth (l : list bool) : forall (c i k : nat),
  k < length l ->
  nth k (cumsum_from c l) 0
  = c + length (filter (fun j => Nat.leb j (i + k)) (argwhere_from i l)).
Proof.
  induction l as [|b r IH]; intros c i k Hk; [simpl in Hk; lia|].
  simpl in Hk. simpl cumsum_from. simpl argwhere_from.
  rewrite filter_app, length_app.
  destruct k as [|k].
  - simpl nth. rewrite Nat.add_0_r.
    rewrite (filter_none _ (argwhere_from (S i) r)).
    + destruct b; simpl; [rewrite Nat.leb_refl; simpl|]; lia.
    + intros x Hx. apply argwhere_from_In in Hx. destruct Hx as [k [-> _]].
      apply Nat.leb_gt. lia.
  - simpl nth. rewrite (IH _ (S i) k) by lia.
    replace (S i + k) with (i + S k) by lia.
    destruct b; simpl; [|lia].
    destruct (Nat.leb_spec i (i + S k)); simpl; lia.
Qed.

Lemma removelast_length {A : Type} (l : list A) :
  length (removelast l) = length l - 1.
Proof.
  induction l as [|a [|b l] IH]; auto.
  change (S (length (removelast (b :: l))) = S (length (b :: l)) - 1).
  rewrite IH. simpl. lia.
Qed.

(** The running count of accepted points, read as a number of indices. *)
Lemma cumsum_removelast_nth (acc : list bool) (k : nat) :
  k < length acc - 1 ->
  nth k (cumsum (removelast acc)) 0
  = length (filter (fun j => Nat.leb j k) (argwhere acc)).
Proof.
  intros Hk. unfold cumsum, argwhere.
  rewrite (cumsum_from_nth (removelast acc) 0 0 k)
    by (rewrite removelast_length; exact Hk).
  simpl. destruct acc as [|a acc]; [simpl in Hk; lia|].
  rewrite (app_removelast_last false (l := a :: acc)) at 2 by discriminate.
  rewrite argwhere_from_app, filter_app, length_app.
  rewrite (filter_none _ (argwhere_from _ [_])); [simpl; lia|].
  intros x Hx. apply argwhere_from_In in Hx. destruct Hx as [j [-> _]].
  apply Nat.leb_gt. rewrite removelast_length. simpl in *. lia.
Qed.

(** *** Cutting a sorted list at a threshold *)

Lemma sorted_cut (l : list nat) (k : nat) :
  StronglySorted lt l ->
  filter (fun j => Nat.leb j k) l
    = firstn (length (filter (fun j => Nat.leb j k) l)) l /\
  filter (fun j => Nat.ltb k j) l
    = skipn (length (filter (fun j => Nat.leb j k) l)) l.
Proof.
  induction 1 as [|a l Hl IH Ha]; simpl; auto.
  rewrite Forall_forall in Ha.
  destruct (Nat.leb_spec a k) as [Hak|Hak].
  - destruct (Nat.ltb_spec k a); [lia|]. simpl.
    destruct IH as [IH1 IH2]. rewrite <- IH1. auto.
  - destruct (Nat.ltb_spec k a); [|lia].
    rewrite (filter_none _ l).
    + simpl. split; auto. f_equal. apply filter_all.
      intros x Hx. apply Nat.ltb_lt. specialize (Ha x Hx). lia.
    + intros x Hx. apply Nat.leb_gt. specialize (Ha x Hx). lia.
Qed.

Lemma last_firstn (l : list nat) : forall c,
  1 <= c <= length l -> last (firstn c l) 0 = nth (pred c) l 0.
Proof.
  induction l as [|a l IH]; intros c Hc; simpl in Hc; [lia|].
  destruct c as [|[|c]]; [lia| |].
  - simpl. destruct l; reflexivity.
  - change (firstn (S (S c)) (a :: l)) with (a :: firstn (S c) l).
    destruct l as [|b l]; [simpl in Hc; lia|].
    change (last (a :: firstn (S c) (b :: l)) 0)
      with (last (firstn (S c) (b :: l)) 0).
    rewrite IH by (simpl in *; lia). reflexivity.
Qed.

Lemma hd_skipn (l : list nat) : forall c, hd 0 (skipn c l) = nth c l 0.
Proof.
  induction l as [|a l IH]; intros [|c]; simpl; auto.
Qed.

Lemma sorted_last_max (l : list nat) :
  StronglySorted lt l -> l <> [] ->
  In (last l 0) l /\ forall x, In x l -> x <= last l 0.
Proof.
  induction 1 as [|a l Hl IH Ha]; intros Hne; [congruence|].
  destruct l as [|b l].
  - simpl. split; auto. intros x [<-|[]]. lia.
  - destruct IH as [IH1 IH2]; [discriminate|].
    change (last (a :: b :: l) 0) with (last (b :: l) 0).
    split; [right; auto|]. intros x [<-|Hx]; auto.
    rewrite Forall_forall in Ha.
    specialize (Ha _ IH1). lia.
Qed.

Lemma sorted_hd_min (l : list nat) :
  StronglySorted lt l -> l <> [] ->
  In (hd 0 l) l /\ forall x, In x l -> hd 0 l <= x.
Proof.
  intros Hs Hne. destruct l as [|a l]; [congruence|].
  inversion Hs as [|? ? _ Ha]; subst. rewrite Forall_forall in Ha.
  simpl. split; auto. intros x [<-|Hx]; auto. specialize (Ha x Hx). lia.
Qed.

(** *** The accepted neighbours of a point *)

Lemma StronglySorted_filter {A : Type} (R : A -> A -> Prop) (f : A -> bool)
    (l : list A) :
  StronglySorted R l -> StronglySorted R (filter f l).
Proof.
  induction 1 as [|a l Hl IH Ha]; simpl; [constructor|].
  destruct (f a); auto. constructor; auto.
  rewrite Forall_forall in *. intros x Hx. apply filter_In in Hx.
  apply Ha. tauto.
Qed.

Lemma argwhere_sorted (acc : list bool) : StronglySorted lt (argwhere acc).
Proof. apply argwhere_from_sorted. Qed.

Lemma before_spec (n : nat) (acc : list bool) (k : nat) :
  well_seeded n acc ->
  nth (accepted_before acc k) acc false = true /\
  accepted_before acc k <= k /\
  forall i, nth i acc false = true -> i <= k -> i <= accepted_before acc k.
Proof.
  intros [Hlen [H0 Hn]]. unfold accepted_before.
  set (F := filter (fun i => Nat.leb i k) (argwhere acc)).
  assert (HF : forall i, In i F <-> nth i acc false = true /\ i <= k).
  { intros i. unfold F. rewrite filter_In, argwhere_In, Nat.leb_le. tauto. }
  destruct (sorted_last_max F) as [H1 H2].
  - apply StronglySorted_filter, argwhere_sorted.
  - intros E. assert (H : In 0 F) by (apply HF; split; [auto|lia]).
    rewrite E in H. contradiction.
  - apply HF in H1. destruct H1 as [H1 H1']. repeat split; auto.
    intros i Hi Hik. apply H2, HF. auto.
Qed.

Lemma after_spec (n : nat) (acc : list bool) (k : nat) :
  well_seeded n acc -> k < n - 1 ->
  nth (accepted_after acc k) acc false = true /\
  k < accepted_after acc k /\ accepted_after acc k <= n - 1 /\
  forall i, nth i acc false = true -> k < i -> accepted_after acc k <= i.
Proof.
  intros [Hlen [H0 Hn]] Hk. unfold accepted_after.
  set (F := filter (fun i => Nat.ltb k i) (argwhere acc)).
  assert (HF : forall i, In i F <-> nth i acc false = true /\ k < i).
  { intros i. unfold F. rewrite filter_In, argwhere_In, Nat.ltb_lt. tauto. }
  assert (Hlast : In (n - 1) F) by (apply HF; auto).
  destruct (sorted_hd_min F) as [H1 H2].
  - apply StronglySorted_filter, argwhere_sorted.
  - intros E. rewrite E in Hlast. contradiction.
  - apply HF in H1. destruct H1 as [H1 H1']. repeat split; auto.
    intros i Hi Hik. apply H2, HF. auto.
Qed.

Lemma neighbours (n : nat) (acc : list bool) (k : nat) :
  well_seeded n acc -> k < n - 1 ->
  1 <= nth k (cumsum (removelast acc)) 0 /\
  nth k (cumsum (removelast acc)) 0 < length (argwhere acc) /\
  nth (pred (nth k (cumsum (removelast acc)) 0)) (argwhere acc) 0
    = accepted_before acc k /\
  nth (nth k (cumsum (removelast acc)) 0) (argwhere acc) 0
    = accepted_after acc k.
Proof.
  intros Hw Hk. pose proof Hw as [Hlen [H0 Hn]].
  rewrite cumsum_removelast_nth by lia.
  destruct (sorted_cut (argwhere acc) k (argwhere_sorted acc)) as [Hf Hs].
  set (c := length (filter (fun j => Nat.leb j k) (argwhere acc))) in *.
  assert (Hc1 : 1 <= c).
  { assert (H : In 0 (filter (fun j => Nat.leb j k) (argwhere acc))).
    { apply filter_In. split; [apply argwhere_In; auto|].
      apply Nat.leb_le. lia. }
    unfold c. destruct (filter _ _); [contradiction|]. simpl. lia. }
  assert (Hc2 : c < length (argwhere acc)).
  { assert (H : In (n - 1) (skipn c (argwhere acc))).
    { rewrite <- Hs. apply filter_In. split; [apply argwhere_In; auto|].
      apply Nat.ltb_lt. lia. }
    destruct (Nat.lt_ge_cases c (length (argwhere acc))); auto.
    rewrite skipn_all2 in H by lia. contradiction. }
  repeat split; auto.
  - unfold accepted_before. rewrite Hf. fold c.
    symmetry. apply last_firstn. lia.
  - unfold accepted_after. rewrite Hs. symmetry. apply hd_skipn.
Qed.

(** *** The areas computed by the loop are the deviations *)

Lemma zip_with_length {A B C : Type} (f : A -> B -> C) (l : list A) :
  forall l', length (zip_with f l l') = Nat.min (length l) (length l').
Proof.
  induction l as [|a l IH]; intros [|b l']; simpl; auto.
Qed.

Lemma zip_with_nth {A B C : Type} (f : A -> B -> C) (da : A) (db : B) (dc : C)
    (l : list A) : forall l' k,
  k < length l -> k < length l' ->
  nth k (zip_with f l l') dc = f (nth k l da) (nth k l' db).
Proof.
  induction l as [|a l IH]; intros [|b l'] [|k] H1 H2; simpl in *;
    try lia; auto.
  apply IH; lia.
Qed.

Lemma cumsum_from_length (l : list bool) (c : nat) :
  length (cumsum_from c l) = length l.
Proof. revert c; induction l; intros; simpl; auto. Qed.

Lemma nth_removelast {A : Type} (d : A) (l : list A) : forall k,
  k < length l - 1 -> nth k (removelast l) d = nth k l d.
Proof.
  induction l as [|a [|b l] IH]; intros k Hk; simpl in Hk; try lia.
  destruct k as [|k]; [reflexivity|].
  change (nth k (removelast (b :: l)) d = nth k (b :: l) d).
  apply IH. simpl. lia.
Qed.

Lemma areas_length (chain : list point) (acc : list bool) :
  length acc = length chain ->
  length (areas chain acc) = length chain - 1.
Proof.
  intros H. unfold areas, cumsum.
  rewrite zip_with_length, cumsum_from_length, !removelast_length, H.
  apply Nat.min_id.
Qed.

Lemma areas_nth (chain : list point) (acc : list bool) (k : nat) :
  well_seeded (length chain) acc -> k < length chain - 1 ->
  nth k (areas chain acc) 0%Q = deviation chain acc k.
Proof.
  intros Hw Hk. pose proof Hw as [Hlen _].
  destruct (neighbours _ acc k Hw Hk) as [Hc1 [Hc2 [Hb Ha]]].
  unfold areas.
  rewrite (zip_with_nth _ 0 origin 0%Q);
    [| unfold cumsum; rewrite cumsum_from_length, removelast_length; lia
     | rewrite removelast_length; lia].
  rewrite (nth_removelast origin chain k Hk).
  rewrite (select_argwhere origin acc chain) by lia.
  set (c := nth k (cumsum (removelast acc)) 0) in *.
  unfold deviation. rewrite <- Hb, <- Ha.
  rewrite (nth_indep _ origin (nth 0 chain origin))
    by (rewrite length_map; lia).
  rewrite (map_nth (fun j => nth j chain origin)).
  rewrite (nth_indep (map _ _) origin (nth 0 chain origin))
    by (rewrite length_map; lia).
  rewrite (map_nth (fun j => nth j chain origin)).
  reflexivity.
Qed.

(** *** Comparisons of rationals and [np.argmax] *)

Lemma Qltb_lt (a b : Q) : Qltb a b = true <-> (a < b)%Q.
Proof.
  unfold Qltb. rewrite negb_true_iff. split.
  - intros H. apply Qnot_le_lt. intros Hle.
    apply Qle_bool_iff in Hle. congruence.
  - intros H. destruct (Qle_bool b a) eqn:E; auto.
    apply Qle_bool_iff in E. exfalso. exact (Qlt_not_le _ _ H E).
Qed.

Lemma Qltb_ge (a b : Q) : Qltb a b = false <-> (b <= a)%Q.
Proof.
  unfold Qltb. rewrite negb_false_iff. apply Qle_bool_iff.
Qed.

Lemma skipn_cons_nth {A : Type} (d : A) (l : list A) : forall i x r,
  skipn i l = x :: r ->
  nth i l d = x /\ skipn (S i) l = r /\ i < length l.
Proof.
  induction l as [|a l IH]; intros [|i] x r H; simpl in *; try discriminate.
  - inversion H; subst. repeat split; auto. lia.
  - destruct (IH i x r H) as [H1 [H2 H3]]. repeat split; auto. lia.
Qed.

Lemma argmax_from_spec (l : list Q) : forall r i besti best,
  skipn i l = r -> i <= length l -> besti < i ->
  best = nth besti l 0%Q ->
  (forall k, k < i -> (nth k l 0 <= best)%Q) ->
  (forall k, k < besti -> (nth k l 0 < best)%Q) ->
  argmax_from best besti i r < length l /\
  (forall k, k < length l ->
     (nth k l 0 <= nth (argmax_from best besti i r) l 0)%Q) /\
  (forall k, k < argmax_from best besti i r ->
     (nth k l 0 < nth (argmax_from best besti i r) l 0)%Q).
Proof.
  induction r as [|x r IH]; intros i besti best Hs Hi Hb Hbest Hle Hlt.
  - simpl. assert (length l <= i).
    { destruct (Nat.lt_ge_cases i (length l)) as [H|H]; auto.
      apply (f_equal (@length Q)) in Hs. rewrite length_skipn in Hs.
      simpl in Hs. lia. }
    subst best. repeat split; auto; try lia. intros k Hk. apply Hle. lia.
  - destruct (skipn_cons_nth 0%Q l i x r Hs) as [Hx [Hs' Hil]].
    simpl. destruct (Qltb best x) eqn:E.
    + apply Qltb_lt in E. apply IH; auto; try lia.
      * intros k Hk. destruct (Nat.eq_dec k i) as [->|Hne].
        -- rewrite Hx. apply Qle_refl.
        -- apply Qlt_le_weak. eapply Qle_lt_trans; [apply Hle; lia|exact E].
      * intros k Hk. eapply Qle_lt_trans; [apply Hle; lia|exact E].
    + apply Qltb_ge in E. apply IH; auto; try lia.
      intros k Hk. destruct (Nat.eq_dec k i) as [->|Hne].
      * rewrite Hx. exact E.
      * apply Hle. lia.
Qed.

Lemma argmax_spec (l : list Q) :
  l <> [] ->
  argmax l < length l /\
  (forall k, k < length l -> (nth k l 0 <= nth (argmax l) l 0)%Q) /\
  (forall k, k < argmax l -> (nth k l 0 < nth (argmax l) l 0)%Q).
Proof.
  destruct l as [|x r]; [congruence|]. intros _. unfold argmax.
  apply (argmax_from_spec (x :: r) r 1 0 x); simpl; auto; try lia.
  intros k Hk. assert (k = 0) as -> by lia. apply Qle_refl.
Qed.

Lemma triangle_area_degenerate (p q : point) : triangle_area p q p = 0%Q.
Proof.
  unfold triangle_area.
  set (e := ((py q - py p) * (px p - px p) - (py p - py p) * (px q - px p))%Q).
  assert (He : (Qabs e / 2 == 0)%Q).
  { assert (H : (e == 0)%Q) by (unfold e; ring).
    rewrite H. reflexivity. }
  assert (Hlt : Qltb (Qabs e / 2) eps32 = true).
  { apply Qltb_lt. rewrite He. reflexivity. }
  rewrite Hlt. reflexivity.
Qed.

(** *** Every round of the loop accepts a new point *)

Lemma set_nth_keeps (acc : list bool) (i j : nat) :
  nth j acc false = true -> nth j (set_nth i true acc) false = true.
Proof.
  intros H. rewrite nth_set_nth.
  destruct (Nat.eqb j i && Nat.ltb i (length acc)); auto.
Qed.

Lemma set_nth_well_seeded (n : nat) (acc : list bool) (i : nat) :
  well_seeded n acc -> well_seeded n (set_nth i true acc).
Proof.
  intros [H1 [H2 H3]]. unfold well_seeded.
  rewrite set_nth_length. auto using set_nth_keeps.
Qed.

Lemma set_nth_pending (acc : list bool) : forall i,
  i < length acc -> nth i acc false = false ->
  S (pending (set_nth i true acc)) = pending acc.
Proof.
  unfold pending.
  induction acc as [|b acc IH]; intros [|i] Hi Hf; simpl in *; try lia.
  - subst b. reflexivity.
  - destruct b; simpl; rewrite <- (IH i) by (auto; lia); reflexivity.
Qed.

Lemma bisect_is_new (n : nat) (acc : list bool) (k : nat) :
  well_seeded n acc -> k < n - 1 -> nth k acc false = false ->
  (accepted_before acc k + accepted_after acc k) / 2 < length acc /\
  nth ((accepted_before acc k + accepted_after acc k) / 2) acc false = false.
Proof.
  intros Hw Hk Hf. pose proof Hw as [Hlen _].
  destruct (before_spec n acc k Hw) as [Hb1 [Hb2 Hb3]].
  destruct (after_spec n acc k Hw Hk) as [Ha1 [Ha2 [Ha3 Ha4]]].
  set (b := accepted_before acc k) in *.
  set (a := accepted_after acc k) in *.
  assert (Hbk : b < k).
  { destruct (Nat.eq_dec b k) as [E|E]; [|lia].
    rewrite E in Hb1. congruence. }
  assert (Hm : b < (b + a) / 2 < a).
  { split.
    - apply Nat.div_le_lower_bound with (b := 2) (q := S b); lia.
    - apply Nat.Div0.div_lt_upper_bound; lia. }
  split; [lia|].
  destruct (nth ((b + a) / 2) acc false) eqn:E; auto. exfalso.
  destruct (Nat.le_gt_cases ((b + a) / 2) k) as [H|H].
  - specialize (Hb3 _ E H). lia.
  - specialize (Ha4 _ E H). lia.
Qed.

Lemma accept_loop_runs (chain : list point) :
  2 <= length chain ->
  forall (fuel : nat) (acc : list bool),
    well_seeded (length chain) acc ->
    pending acc < fuel ->
    exists final,
      accept_loop fuel chain acc = Some final /\
      simplifies chain acc final.
Proof.
  intros Hn. induction fuel as [|fuel IH]; intros acc Hw Hfuel; [lia|].
  pose proof Hw as [Hlen _].
  destruct (argmax_spec (areas chain acc)) as [Hm1 [Hm2 Hm3]].
  { intros E. apply (f_equal (@length Q)) in E.
    rewrite areas_length in E by auto. simpl in E. lia. }
  rewrite areas_length in Hm1, Hm2 by auto.
  set (m := argmax (areas chain acc)) in *.
  assert (Hworst : worst_point chain acc m).
  { split; [exact Hm1|]. split.
    - intros k' Hk'. rewrite <- !areas_nth by auto. apply Hm2. exact Hk'.
    - intros k' Hk'. rewrite <- !areas_nth by (auto; lia). apply Hm3.
      exact Hk'. }
  simpl accept_loop. fold m. rewrite (areas_nth chain acc m Hw Hm1).
  destruct (Qltb (deviation chain acc m) 4) eqn:E.
  - exists acc. split; auto.
    apply (@simplifies_stop chain acc m Hworst). apply Qltb_lt. exact E.
  - destruct (neighbours _ acc m Hw Hm1) as [_ [_ [Hb Ha]]].
    rewrite Hb, Ha.
    assert (Hpend : nth m acc false = false).
    { destruct (nth m acc false) eqn:Em; auto. exfalso.
      destruct (before_spec _ acc m Hw) as [_ [Hle Hmax]].
      assert (Heq : accepted_before acc m = m).
      { apply Nat.le_antisymm; auto. }
      unfold deviation in E. rewrite Heq, triangle_area_degenerate in E.
      discriminate. }
    destruct (bisect_is_new _ acc m Hw Hm1 Hpend) as [Hlt Hnew].
    destruct (IH (set_nth ((accepted_before acc m + accepted_after acc m) / 2)
                          true acc)) as [final [Hrun Hsim]].
    + apply set_nth_well_seeded. exact Hw.
    + pose proof (set_nth_pending acc _ Hlt Hnew). lia.
    + exists final. split; auto.
      apply (@simplifies_bisect chain acc m final Hworst); auto.
      * intros H. apply Qltb_lt in H. congruence.
      * rewrite (nth_indep acc true false) by lia. exact Hpend.
Qed.

Lemma simplifies_keeps (chain : list point) (acc final : list bool) :
  simplifies chain acc final ->
  length final = length acc /\
  forall i, nth i acc false = true -> nth i final false = true.
Proof.
  induction 1 as [|acc k final Hw Hd Hk Hrun [IH1 IH2]]; auto.
  rewrite set_nth_length in IH1. split; auto.
  intros i Hi. apply IH2, set_nth_keeps, Hi.
Qed.


Lemma seed_accepted_spec (n : nat) :
  2 <= n ->
  well_seeded n (seed_accepted n) /\ nth (n / 2) (seed_accepted n) false = true.
Proof.
  intros Hn. unfold well_seeded, seed_accepted.
  rewrite !set_nth_length, repeat_length.
  assert (Hhalf : n / 2 < n) by (apply Nat.div_lt; lia).
  repeat split; auto.
  - apply set_nth_keeps, set_nth_keeps. rewrite nth_set_nth, repeat_length.
    destruct (Nat.ltb_spec 0 n); [reflexivity|lia].
  - apply set_nth_keeps. rewrite nth_set_nth, set_nth_length, repeat_length.
    rewrite Nat.eqb_refl. destruct (Nat.ltb_spec (n - 1) n); [reflexivity|lia].
  - rewrite nth_set_nth, !set_nth_length, repeat_length, Nat.eqb_refl.
    destruct (Nat.ltb_spec (n / 2) n); [reflexivity|lia].
Qed.




(** The run of the simplifier on the chain above: two rounds accept the
    points 7 and 8; the points along the left side and the corner (0,6),
    whose triangle with (0,5) and (6,6) has area 3, are dropped. *)
Example control_points_example :
  control_points [(0, 0); (0, 1); (0, 2); (0, 3); (0, 4); (0, 5); (0, 6);
                  (6, 6); (6, 0); (3, 0); (0, 0)]%Q
  = Some [(0, 0); (0, 5); (6, 6); (6, 0); (0, 0)]%Q.
Proof. vm_compute. reflexivity. Qed.

(** ** C5: joining the selected objects *)

(** *** [np.unique] *)

Lemma insert_unique_In (v : Z) (l : list Z) (x : Z) :
  In x (insert_unique v l) <-> x = v \/ In x l.
Proof.
  induction l as [|w r IH]; simpl; [intuition|].
  destruct (Z.ltb_spec v w); simpl; [intuition|].
  destruct (Z.eqb_spec v w); simpl; [subst; intuition|].
  rewrite IH. intuition.
Qed.

Lemma unique_In (l : list Z) (x : Z) : In x (unique l) <-> In x l.
Proof.
  induction l as [|a l IH]; simpl; [tauto|].
  rewrite insert_unique_In, IH. intuition.
Qed.

Lemma insert_unique_sorted (v : Z) (l : list Z) :
  StronglySorted Z.lt l -> StronglySorted Z.lt (insert_unique v l).
Proof.
  induction 1 as [|w r Hr IH Hw]; simpl; [repeat constructor|].
  rewrite Forall_forall in Hw.
  destruct (Z.ltb_spec v w).
  - constructor; [constructor; auto; rewrite Forall_forall; auto|].
    rewrite Forall_forall. intros x [<-|Hx]; auto.
    specialize (Hw x Hx). lia.
  - destruct (Z.eqb_spec v w).
    + constructor; auto. rewrite Forall_forall; auto.
    + constructor; auto. rewrite Forall_forall. intros x Hx.
      apply insert_unique_In in Hx. destruct Hx as [->|Hx]; auto. lia.
Qed.

Lemma unique_sorted (l : list Z) : StronglySorted Z.lt (unique l).
Proof.
  induction l; simpl; [constructor | apply insert_unique_sorted; auto].
Qed.

Lemma unique_hd_min (l : list Z) :
  unique l <> [] ->
  In (hd 0%Z (unique l)) (unique l) /\
  forall w, In w (unique l) -> (hd 0%Z (unique l) <= w)%Z.
Proof.
  pose proof (unique_sorted l) as Hs. intros Hne.
  destruct (unique l) as [|a r]; [congruence|].
  inversion Hs as [|? ? _ Ha]; subst. rewrite Forall_forall in Ha.
  simpl. split; auto. intros w [<-|Hw]; [lia|]. specialize (Ha w Hw). lia.
Qed.

(** *** Boolean arrays indexed by labels *)

Lemma put_true_all_spec (vs : list Z) : forall a : list bool,
  (forall v, In v vs -> (0 <= v < Z.of_nat (length a))%Z) ->
  exists a',
    put_true_all a vs = Ok a' /\ length a' = length a /\
    forall k, nth k a' false = true <->
              nth k a false = true \/ exists v, In v vs /\ Z.to_nat v = k.
Proof.
  induction vs as [|v vs IH]; intros a Hr; simpl.
  - exists a. repeat split; auto. intros [H|[v [[] _]]]; auto.
  - pose proof (Hr v (or_introl eq_refl)) as Hv.
    unfold put_true.
    destruct (Z.leb_spec 0 v); [|lia].
    destruct (Z.ltb_spec v (Z.of_nat (length a))); [|lia]. simpl.
    destruct (IH (set_nth (Z.to_nat v) true a)) as [a' [Ha' [Hlen Hk]]].
    { intros w Hw. rewrite set_nth_length. apply Hr. right; auto. }
    exists a'. split; auto. split.
    { rewrite Hlen. apply set_nth_length. }
    intros k. rewrite Hk, nth_set_nth.
    assert (Hin : Nat.ltb (Z.to_nat v) (length a) = true)
      by (apply Nat.ltb_lt; lia).
    rewrite Hin, andb_true_r.
    destruct (Nat.eqb_spec k (Z.to_nat v)) as [->|Hne]; split.
    + intros _. right. exists v. auto.
    + auto.
    + intros [Hn|[w [Hw E]]]; [left; exact Hn|].
      right. exists w. split; [right; exact Hw|exact E].
    + intros [Hn|[w [[Ew|Hw] E]]].
      * left; exact Hn.
      * subst w. congruence.
      * right. exists w. auto.
Qed.

Lemma map_result_ok {A B : Type} (f : A -> result B) (g : A -> B)
    (l : list A) :
  (forall x, In x l -> f x = Ok (g x)) -> map_result f l = Ok (map g l).
Proof.
  induction l as [|a l IH]; intros H; simpl; auto.
  rewrite (H a (or_introl eq_refl)). simpl.
  rewrite IH; auto. intros x Hx. apply H. right; auto.
Qed.

Lemma take_plane_ok (a : list bool) (l : plane) :
  (forall v, In v (concat l) -> (0 <= v < Z.of_nat (length a))%Z) ->
  take_plane a l = Ok (map (map (fun v => nth (Z.to_nat v) a false)) l).
Proof.
  intros H. unfold take_plane. apply map_result_ok.
  intros r Hr. apply map_result_ok. intros v Hv.
  assert (Hin : In v (concat l)) by (apply in_concat; exists r; auto).
  specialize (H v Hin). unfold take.
  destruct (Z.leb_spec 0 v); [|lia].
  destruct (Z.ltb_spec v (Z.of_nat (length a))); [|lia]. reflexivity.
Qed.

(** *** Pixels of combined planes and masks *)

Lemma zip_with_nth_default {A B C : Type} (f : A -> B -> C)
    (da : A) (db : B) (l : list A) : forall (l' : list B) (k : nat),
  length l = length l' ->
  nth k (zip_with f l l') (f da db) = f (nth k l da) (nth k l' db).
Proof.
  induction l as [|a l IH]; intros [|b l'] [|k] H; simpl in *;
    try discriminate; auto.
Qed.

Lemma Forall_nth_length {A : Type} (n : nat) (l : list (list A)) (i : nat) :
  Forall (fun r => length r = n) l -> i < length l -> length (nth i l []) = n.
Proof.
  intros H Hi. rewrite Forall_forall in H. apply H, nth_In, Hi.
Qed.

Lemma mpixel_mask_or (sh : nat * nat) (a b : mask) (i j : nat) :
  mask_has_shape sh a -> mask_has_shape sh b ->
  mpixel (mask_or a b) i j = mpixel a i j || mpixel b i j.
Proof.
  intros [Ha1 Ha2] [Hb1 Hb2]. unfold mpixel, mask_or.
  change (@nil bool) with (zip_with orb [] []) at 1.
  rewrite zip_with_nth_default by congruence.
  destruct (Nat.lt_ge_cases i (length a)) as [Hi|Hi].
  - change false with (orb false false) at 1.
    apply zip_with_nth_default.
    rewrite (Forall_nth_length _ _ _ Ha2 Hi).
    rewrite (Forall_nth_length _ _ _ Hb2) by lia. reflexivity.
  - rewrite (nth_overflow a []), (nth_overflow b []) by lia.
    destruct j; reflexivity.
Qed.

Lemma mask_or_shape (sh : nat * nat) (a b : mask) :
  mask_has_shape sh a -> mask_has_shape sh b ->
  mask_has_shape sh (mask_or a b).
Proof.
  intros [Ha1 Ha2] [Hb1 Hb2]. unfold mask_has_shape, mask_or.
  rewrite zip_with_length, Ha1, Hb1, Nat.min_id. split; auto.
  rewrite Forall_forall. intros r Hr.
  apply (In_nth _ _ (zip_with orb [] [])) in Hr. destruct Hr as [k [Hk <-]].
  rewrite zip_with_length in Hk.
  rewrite zip_with_nth_default by congruence.
  rewrite zip_with_length.
  rewrite (Forall_nth_length _ _ _ Ha2), (Forall_nth_length _ _ _ Hb2) by lia.
  apply Nat.min_id.
Qed.

Lemma mask_xor_shape (sh : nat * nat) (a b : mask) :
  mask_has_shape sh a -> mask_has_shape sh b ->
  mask_has_shape sh (mask_xor a b).
Proof.
  intros [Ha1 Ha2] [Hb1 Hb2]. unfold mask_has_shape, mask_xor.
  rewrite zip_with_length, Ha1, Hb1, Nat.min_id. split; auto.
  rewrite Forall_forall. intros r Hr.
  apply (In_nth _ _ (zip_with xorb [] [])) in Hr. destruct Hr as [k [Hk <-]].
  rewrite zip_with_length in Hk.
  rewrite zip_with_nth_default by congruence.
  rewrite zip_with_length.
  rewrite (Forall_nth_length _ _ _ Ha2), (Forall_nth_length _ _ _ Hb2) by lia.
  apply Nat.min_id.
Qed.

Lemma zeros_mask_shape (sh : nat * nat) : mask_has_shape sh (zeros_mask sh).
Proof.
  unfold mask_has_shape, zeros_mask. rewrite repeat_length. split; auto.
  rewrite Forall_forall. intros r Hr. apply repeat_spec in Hr. subst.
  apply repeat_length.
Qed.

Lemma mpixel_zeros_mask (sh : nat * nat) (i j : nat) :
  mpixel (zeros_mask sh) i j = false.
Proof.
  unfold mpixel, zeros_mask. rewrite nth_repeat_default.
  destruct (Nat.ltb i (fst sh)).
  - rewrite nth_repeat_default. destruct (Nat.ltb j (snd sh)); reflexivity.
  - destruct j; reflexivity.
Qed.

Lemma map_map_shape {A B : Type} (g : A -> B) (n w : nat)
    (l : list (list A)) :
  length l = n /\ Forall (fun r => length r = w) l ->
  length (map (map g) l) = n /\
  Forall (fun r => length r = w) (map (map g) l).
Proof.
  intros [H1 H2]. rewrite length_map. split; auto.
  rewrite Forall_forall in *. intros r Hr. apply in_map_iff in Hr.
  destruct Hr as [r' [<- Hr']]. rewrite length_map. auto.
Qed.

Lemma nth_map_map {A B : Type} (g : A -> B) (da : A) (l : list (list A))
    (i j : nat) :
  nth j (nth i (map (map g) l) []) (g da) = g (nth j (nth i l []) da).
Proof.
  change (@nil B) with (map g []). rewrite map_nth. apply map_nth.
Qed.

Lemma pixel_mask_times (m : mask) (n : Z) (i j : nat) :
  pixel (mask_times m n) i j = if mpixel m i j then n else 0%Z.
Proof.
  unfold pixel, mask_times, mpixel.
  apply (nth_map_map (fun b : bool => if b then n else 0%Z) false).
Qed.

Lemma pixel_erase_label (n : Z) (l : plane) (i j : nat) :
  pixel (erase_label n l) i j
  = if Z.eqb (pixel l i j) n then 0%Z else pixel l i j.
Proof.
  unfold pixel, erase_label.
  rewrite <- (nth_map_map (fun v => if Z.eqb v n then 0%Z else v) 0%Z).
  destruct (Z.eqb 0 n); reflexivity.
Qed.

Lemma pixel_clear_where (sh : nat * nat) (t : mask) (l : plane) (i j : nat) :
  mask_has_shape sh t -> has_shape sh l ->
  pixel (clear_where t l) i j = if mpixel t i j then 0%Z else pixel l i j.
Proof.
  intros [Ht1 Ht2] [Hl1 Hl2]. unfold pixel, clear_where, mpixel.
  set (f := fun (b : bool) (v : Z) => if b then 0%Z else v).
  change (@nil Z) with (zip_with f [] []) at 1.
  rewrite zip_with_nth_default by congruence.
  destruct (Nat.lt_ge_cases i (length t)) as [Hi|Hi].
  - change 0%Z with (f false 0%Z) at 1.
    rewrite (zip_with_nth_default f false 0%Z); [reflexivity|].
    rewrite (Forall_nth_length _ _ _ Ht2 Hi).
    rewrite (Forall_nth_length _ _ _ Hl2) by lia. reflexivity.
  - rewrite (nth_overflow t []), (nth_overflow l []) by lia.
    destruct j; reflexivity.
Qed.

Lemma clear_where_shape (sh : nat * nat) (t : mask) (l : plane) :
  mask_has_shape sh t -> has_shape sh l -> has_shape sh (clear_where t l).
Proof.
  intros [Ht1 Ht2] [Hl1 Hl2]. unfold has_shape, clear_where.
  set (f := fun (b : bool) (v : Z) => if b then 0%Z else v).
  rewrite zip_with_length, Ht1, Hl1, Nat.min_id. split; auto.
  rewrite Forall_forall. intros r Hr.
  apply (In_nth _ _ (zip_with f [] [])) in Hr. destruct Hr as [k [Hk <-]].
  rewrite zip_with_length in Hk.
  rewrite zip_with_nth_default by congruence.
  rewrite zip_with_length.
  rewrite (Forall_nth_length _ _ _ Ht2), (Forall_nth_length _ _ _ Hl2) by lia.
  apply Nat.min_id.
Qed.

(** *** Raster updates keep the planes in shape *)

Lemma shapes_forall (sh : nat * nat) (ls : list plane) :
  forallb (has_shapeb sh) ls = true <-> forall p, In p ls -> has_shape sh p.
Proof.
  rewrite forallb_forall. split; intros H p Hp;
    apply has_shapeb_has_shape; auto.
Qed.

Lemma erase_label_shape (sh : nat * nat) (n : Z) (l : plane) :
  has_shape sh l -> has_shape sh (erase_label n l).
Proof. apply map_map_shape. Qed.

Lemma mask_times_shape (sh : nat * nat) (m : mask) (n : Z) :
  mask_has_shape sh m -> has_shape sh (mask_times m n).
Proof. apply map_map_shape. Qed.

Lemma fold_xor_shape
    (polygon_lines_to_mask : list point -> nat * nat -> mask)
    (sh : nat * nat) (l : list artist) : forall m,
  fills_shape polygon_lines_to_mask -> mask_has_shape sh m ->
  mask_has_shape sh
    (fold_left (fun m a => mask_xor m (polygon_lines_to_mask (xydata a) sh))
               l m).
Proof.
  induction l as [|a l IH]; intros m Hf Hm; simpl; auto.
  apply IH; auto. apply mask_xor_shape; auto.
Qed.

Section Join.

Variable get_labels : nat * nat -> list ijv -> list plane.
Variable polygon_lines_to_mask : list point -> nat * nat -> mask.
Variable outline_pts : bool -> mask -> list (list point).

Hypothesis get_labels_ok : restructuring get_labels.
Hypothesis get_labels_some : forall sh l, get_labels sh l <> [].
Hypothesis mask_ok : fills_shape polygon_lines_to_mask.

Lemma restructure_labels_spec (d : dialog) :
  forallb (has_shapeb (shape d)) (labels d) = true ->
  exists d',
    restructure_labels get_labels d = Done d' /\
    to_keep d' = to_keep d /\ shape d' = shape d /\
    artists d' = artists d /\
    forallb (has_shapeb (shape d)) (labels d') = true /\
    forall t, In t (planes_ijv (labels d')) <-> In t (planes_ijv (labels d)).
Proof.
  intros Hs. unfold restructure_labels. rewrite (calculate_ijv_ok _ _ Hs).
  eexists. split; [reflexivity|]. cbn.
  destruct (get_labels_ok (shape d) (planes_ijv (labels d))) as [H1 H2].
  { intros t Ht. apply (planes_ijv_in_bounds _ _ _ Hs Ht). }
  repeat split; auto; try apply H2.
  apply shapes_forall. rewrite Forall_forall in H1. exact H1.
Qed.

Lemma restructure_labels_some (d d' : dialog) :
  restructure_labels get_labels d = Done d' -> labels d' <> [].
Proof.
  unfold restructure_labels.
  destruct (calculate_ijv (shape d) (labels d)); [|discriminate].
  intros [= <-]. destruct d. simpl. apply get_labels_some.
Qed.

(** *** Closing the chains of one object *)

Lemma close_label_spec (label : Z) (d : dialog) :
  raster_ok d -> labels d <> [] ->
  (0 < label < Z.of_nat (length (to_keep d)))%Z ->
  exists d',
    close_label get_labels polygon_lines_to_mask label d = Done d' /\
    raster_ok d' /\ to_keep d' = to_keep d /\ shape d' = shape d /\
    labels d' <> [] /\
    artists d' = filter (fun a => negb (has_label label a)) (artists d) /\
    forall i j v,
      In (i, j, v) (planes_ijv (labels d')) <->
      (v <> label /\ In (i, j, v) (planes_ijv (labels d))) \/
      (v = label /\ committed polygon_lines_to_mask d label i j).
Proof.
  intros [Hs Hv] Hne Hl. unfold close_label, committed.
  change (existsb K_EDITED (filter (has_label label) (artists d)))
    with (chains_edited d label).
  destruct (chains_edited d label) eqn:Eed.
  2:{ eexists. split; [reflexivity|]. simpl.
      split; [split; auto|]. split; [reflexivity|]. split; [reflexivity|].
      split; [exact Hne|]. split; [reflexivity|].
      intros i j v. split.
      - intros H. destruct (Z.eq_dec v label) as [->|Hn]; auto.
      - intros [[_ H]|[-> H]]; exact H. }
  unfold replace_label, append_label.
  cbn [labels remove_label set_labels set_artists].
  destruct (map (erase_label label) (labels d)) as [|e0 es] eqn:Eer.
  { destruct (labels d); [congruence|discriminate]. }
  rewrite <- Eer. cbn [and_then].
  change (fold_left
            (fun m a => mask_xor m (polygon_lines_to_mask (xydata a) (shape d)))
            (filter (has_label label) (artists d)) (zeros_mask (shape d)))
    with (chain_mask polygon_lines_to_mask d label).
  set (m := chain_mask polygon_lines_to_mask d label).
  assert (Hm : mask_has_shape (shape d) m).
  { unfold m, chain_mask. apply fold_xor_shape; auto using zeros_mask_shape. }
  match goal with
  | |- exists d', restructure_labels _ ?x = _ /\ _ =>
      destruct (restructure_labels_spec x) as [d' [Hr [Hk [Hsh [Har [Hs' Hin]]]]]]
  end.
  { cbn. rewrite forallb_app. apply andb_true_iff. split.
    - apply shapes_forall. intros p Hp. apply in_map_iff in Hp.
      destruct Hp as [q [<- Hq]]. apply erase_label_shape.
      apply (proj1 (shapes_forall _ _) Hs q Hq).
    - simpl. rewrite andb_true_r. apply has_shapeb_has_shape.
      apply mask_times_shape. exact Hm. }
  exists d'. split; [exact Hr|].
  assert (Hflat : forall i j v,
            In (i, j, v) (planes_ijv (labels d')) <->
            (v <> label /\ In (i, j, v) (planes_ijv (labels d))) \/
            (v = label /\ mpixel m i j = true)).
  { intros i j v. rewrite Hin. cbn [labels set_labels set_artists].
    split.
    - intros Hx. apply planes_ijv_In in Hx.
      destruct Hx as [p [Hp [Hpix Hnz]]].
      apply in_app_iff in Hp. destruct Hp as [Hp|[<-|[]]].
      + apply in_map_iff in Hp. destruct Hp as [q [<- Hq]].
        rewrite pixel_erase_label in Hpix.
        destruct (Z.eqb_spec (pixel q i j) label) as [E|E]; [congruence|].
        left. split; [congruence|]. apply planes_ijv_In. exists q. auto.
      + rewrite pixel_mask_times in Hpix.
        destruct (mpixel m i j); [right; split; congruence | congruence].
    - intros Hx. apply planes_ijv_In.
      destruct Hx as [[Hn H]|[-> H]].
      + apply planes_ijv_In in H. destruct H as [q [Hq [Hpix Hnz]]].
        exists (erase_label label q). split.
        * apply in_app_iff. left. apply in_map. exact Hq.
        * rewrite pixel_erase_label, Hpix.
          destruct (Z.eqb_spec v label); [contradiction|auto].
      + exists (mask_times m label). split.
        * apply in_app_iff. right. left. reflexivity.
        * rewrite pixel_mask_times, H. split; [reflexivity|lia]. }
  cbn [shape to_keep artists set_labels set_artists] in Hk, Hsh, Har, Hs'.
  split; [split|].
  - rewrite Hsh. exact Hs'.
  - intros i j v Ht. rewrite Hk. apply Hflat in Ht.
    destruct Ht as [[_ Ht]|[-> _]]; [apply (Hv i j v Ht)|exact Hl].
  - split; [exact Hk|]. split; [exact Hsh|].
    split; [apply (restructure_labels_some _ _ Hr)|].
    split; [exact Har|exact Hflat].
Qed.

Lemma filter_filter {A : Type} (f g : A -> bool) (l : list A) :
  filter f (filter g l) = filter (fun x => g x && f x) l.
Proof.
  induction l as [|a l IH]; [reflexivity|].
  simpl. destruct (g a); simpl; [destruct (f a)|]; rewrite IH; reflexivity.
Qed.

Lemma filter_ext_in' {A : Type} (f g : A -> bool) (l : list A) :
  (forall x, In x l -> f x = g x) -> filter f l = filter g l.
Proof.
  induction l as [|a l IH]; intros H; [reflexivity|].
  simpl. rewrite (H a (or_introl eq_refl)).
  rewrite IH by (intros x Hx; apply H; right; auto). reflexivity.
Qed.

Lemma existsb_label (v : Z) (done : list Z) :
  existsb (Z.eqb v) done = true <-> In v done.
Proof.
  rewrite existsb_exists. split.
  - intros [w [Hw E]]. apply Z.eqb_eq in E. subst; auto.
  - intros H. exists v. split; [exact H|apply Z.eqb_refl].
Qed.

Lemma chains_of_closed_state (d dk : dialog) (done : list Z) (l : Z) :
  closed_state polygon_lines_to_mask d done dk ->
  chains_of dk l = if existsb (Z.eqb l) done then [] else chains_of d l.
Proof.
  intros [_ [_ [_ [_ [Ha _]]]]]. unfold chains_of. rewrite Ha, filter_filter.
  destruct (existsb (Z.eqb l) done) eqn:E.
  - apply filter_none. intros a _. unfold has_label.
    destruct (Z.eqb_spec (K_LABEL a) l) as [->|]; [|apply andb_false_r].
    rewrite E. reflexivity.
  - apply filter_ext_in'. intros a _. unfold has_label.
    destruct (Z.eqb_spec (K_LABEL a) l) as [->|]; [|apply andb_false_r].
    rewrite E. reflexivity.
Qed.

Lemma committed_closed_state (d dk : dialog) (done : list Z) (l : Z)
    (i j : nat) :
  closed_state polygon_lines_to_mask d done dk ->
  (committed polygon_lines_to_mask dk l i j <->
   committed polygon_lines_to_mask d l i j).
Proof.
  intros Hst. pose proof (chains_of_closed_state d dk done l Hst) as Hch.
  destruct Hst as [_ [_ [Hsh [_ [_ Hflat]]]]].
  unfold committed, chains_edited, chain_mask. rewrite Hch, Hsh.
  destruct (existsb (Z.eqb l) done) eqn:E.
  - apply existsb_label in E. simpl. rewrite Hflat.
    unfold committed, chains_edited, chain_mask. tauto.
  - assert (Hn : ~ In l done).
    { intros H. apply existsb_label in H. congruence. }
    destruct (existsb K_EDITED (chains_of d l)); [tauto|].
    rewrite Hflat. tauto.
Qed.

Lemma close_label_step (d dk : dialog) (done : list Z) (l : Z) :
  closed_state polygon_lines_to_mask d done dk ->
  (0 < l < Z.of_nat (length (to_keep d)))%Z ->
  exists d',
    close_label get_labels polygon_lines_to_mask l dk = Done d' /\
    closed_state polygon_lines_to_mask d (l :: done) d'.
Proof.
  intros Hst Hl.
  pose proof (fun i j => committed_closed_state d dk done l i j Hst) as Hcm.
  destruct Hst as [Hok [Hk [Hsh [Hne [Ha Hflat]]]]].
  destruct (close_label_spec l dk Hok Hne) as
    [d' [Hc [Hok' [Hk' [Hsh' [Hne' [Ha' Hflat']]]]]]].
  { rewrite Hk. exact Hl. }
  exists d'. split; [exact Hc|].
  split; [exact Hok'|]. split; [congruence|]. split; [congruence|].
  split; [exact Hne'|]. split.
  - rewrite Ha', Ha, filter_filter. apply filter_ext_in'.
    intros a _. unfold has_label. simpl.
    rewrite negb_orb. apply andb_comm.
  - intros i j v. rewrite Hflat', Hflat, Hcm. simpl.
    destruct (Z.eq_dec v l) as [->|Hn]; [tauto|].
    assert (l = v <-> False) by (split; [congruence|tauto]). tauto.
Qed.

Lemma close_labels_spec (d : dialog) (ls : list Z) : forall done dk,
  closed_state polygon_lines_to_mask d done dk ->
  (forall w, In w ls -> (0 < w < Z.of_nat (length (to_keep d)))%Z) ->
  exists d',
    close_labels get_labels polygon_lines_to_mask ls dk = Done d' /\
    closed_state polygon_lines_to_mask d (rev ls ++ done) d'.
Proof.
  unfold close_labels.
  induction ls as [|l ls IH]; intros done dk Hst Hr; simpl.
  - exists dk. auto.
  - destruct (close_label_step d dk done l Hst (Hr l (or_introl eq_refl)))
      as [d1 [Hc Hst1]].
    rewrite Hc.
    destruct (IH (l :: done) d1 Hst1) as [d2 [Hc2 Hst2]].
    { intros w Hw. apply Hr. right; auto. }
    exists d2. split; [exact Hc2|].
    rewrite <- app_assoc. exact Hst2.
Qed.

Lemma closed_state_start (d : dialog) :
  raster_ok d -> labels d <> [] ->
  closed_state polygon_lines_to_mask d [] d.
Proof.
  intros Hok Hne. split; [exact Hok|]. split; [reflexivity|].
  split; [reflexivity|]. split; [exact Hne|]. split.
  - simpl. symmetry. apply filter_all. reflexivity.
  - intros i j v. simpl. tauto.
Qed.

(** *** The loop over the planes *)

Lemma join_erase_ok (a : list bool) (ls : list plane) : forall m0 : mask,
  (forall l, In l ls ->
     take_plane a l = Ok (map (map (fun v => nth (Z.to_nat v) a false)) l)) ->
  join_erase a ls m0
  = Ok (fold_left
          (fun m l =>
             mask_or m (map (map (fun v => nth (Z.to_nat v) a false)) l))
          ls m0,
        map (fun l =>
               clear_where
                 (map (map (fun v => nth (Z.to_nat v) a false)) l) l) ls).
Proof.
  induction ls as [|l ls IH]; intros m0 H; simpl; auto.
  rewrite (H l (or_introl eq_refl)). simpl.
  rewrite IH by (intros q Hq; apply H; right; auto). reflexivity.
Qed.

Lemma mpixel_take (a : list bool) (l : plane) (i j : nat) :
  nth 0 a false = false ->
  mpixel (map (map (fun v => nth (Z.to_nat v) a false)) l) i j
  = nth (Z.to_nat (pixel l i j)) a false.
Proof.
  intros H0. unfold mpixel, pixel.
  rewrite <- (nth_map_map (fun v => nth (Z.to_nat v) a false) 0%Z).
  simpl. rewrite H0. reflexivity.
Qed.

Lemma fold_or_spec (sh : nat * nat) (a : list bool) (ls : list plane) :
  nth 0 a false = false ->
  forall m0 : mask,
    mask_has_shape sh m0 -> (forall l, In l ls -> has_shape sh l) ->
    let m := fold_left
               (fun m l =>
                  mask_or m (map (map (fun v => nth (Z.to_nat v) a false)) l))
               ls m0 in
    mask_has_shape sh m /\
    forall i j, mpixel m i j = true <->
                mpixel m0 i j = true \/
                exists l, In l ls /\
                          nth (Z.to_nat (pixel l i j)) a false = true.
Proof.
  intros H0. induction ls as [|l ls IH]; intros m0 Hm0 Hls; simpl.
  - split; auto. intros i j. split; auto. intros [H|[l [[] _]]]; auto.
  - assert (Hl : mask_has_shape sh
                   (map (map (fun v => nth (Z.to_nat v) a false)) l)).
    { apply map_map_shape. apply Hls. left; auto. }
    destruct (IH (mask_or m0 (map (map (fun v => nth (Z.to_nat v) a false)) l)))
      as [H1 H2].
    { apply mask_or_shape; auto. }
    { intros q Hq. apply Hls. right; auto. }
    split; auto. intros i j. rewrite H2.
    rewrite (mpixel_mask_or sh) by auto.
    rewrite orb_true_iff, mpixel_take by auto. split.
    + intros [[H|H]|[q [Hq H]]]; auto.
      * right. exists l. auto.
      * right. exists q. auto.
    + intros [H|[q [[<-|Hq] H]]]; auto. right. exists q. auto.
Qed.

(** *** The steps after the raster update *)

Lemma control_points_total (chain : list point) :
  exists cp, control_points chain = Some cp.
Proof.
  unfold control_points, control_points_fuel.
  destruct (Nat.ltb_spec 10 (length chain)); [|eauto].
  destruct (seed_accepted_spec (length chain)) as [Hw _]; [lia|].
  destruct (accept_loop_runs chain ltac:(lia) (S (length chain))
              (seed_accepted (length chain)) Hw) as [final [Hrun _]].
  { unfold pending. pose proof (filter_length_le negb
      (seed_accepted (length chain))). destruct Hw as [Hl _]. lia. }
  rewrite Hrun. eauto.
Qed.

Lemma add_chains_ok (polarity : bool) (n : Z) (chains : list (list point)) :
  forall d : dialog,
  exists d' new,
    add_chains polarity n chains d = Done d' /\
    labels d' = labels d /\ shape d' = shape d /\
    to_keep d' = to_keep d /\
    artists d' = artists d ++ new /\
    Forall (fun a => K_LABEL a = n /\ K_EDITED a = false) new.
Proof.
  induction chains as [|raw rest IH]; intros d.
  { exists d, []. simpl. rewrite app_nil_r. repeat split; auto. }
  cbn [add_chains].
  destruct (control_points_total
              ((if polarity then raw else rev raw)
               ++ firstn 1 (if polarity then raw else rev raw))) as [cp Hcp].
  rewrite Hcp.
  destruct (IH (set_next_id (S (next_id d))
                  (set_artists
                     (artists d ++ [Artist (next_id d) (map swap_xy cp) n
                                           false polarity]) d)))
    as [d' [new [H1 [H2 [H3 [H4 [H5 H6]]]]]]].
  exists d', (Artist (next_id d) (map swap_xy cp) n false polarity :: new).
  split; [exact H1|]. split; [exact H2|]. split; [exact H3|].
  split; [exact H4|]. split.
  - rewrite H5. simpl. rewrite <- app_assoc. reflexivity.
  - constructor; [split; reflexivity|exact H6].
Qed.

Lemma make_control_points_ok (n : Z) (d : dialog) :
  exists d' new,
    make_control_points outline_pts n d = Done d' /\
    labels d' = labels d /\ shape d' = shape d /\
    to_keep d' = to_keep d /\
    artists d' = artists d ++ new /\
    Forall (fun a => K_LABEL a = n /\ K_EDITED a = false) new.
Proof.
  unfold make_control_points.
  destruct (add_chains_ok true n (outline_pts true (object_mask d n)) d)
    as [d1 [new1 [H1 [H2 [H3 [H4 [H5 H6]]]]]]].
  rewrite H1. simpl.
  destruct (add_chains_ok false n (outline_pts false (object_mask d n)) d1)
    as [d2 [new2 [G1 [G2 [G3 [G4 [G5 G6]]]]]]].
  exists d2, (new1 ++ new2).
  split; [exact G1|]. split; [congruence|]. split; [congruence|].
  split; [congruence|]. split.
  - rewrite G5, H5, app_assoc. reflexivity.
  - apply Forall_app. auto.
Qed.

Lemma insert_row_not_nil (a : ijvx) (l : list ijvx) : insert_row a l <> [].
Proof. destruct l; simpl; [|destruct (row_ltb _ _)]; discriminate. Qed.

Lemma record_undo_ok (d : dialog) :
  forallb (has_shapeb (shape d)) (labels d) = true ->
  exists d', record_undo d = Done d' /\ labels d' = labels d.
Proof.
  intros Hs. unfold record_undo. rewrite (calculate_ijv_ok _ _ Hs).
  destruct (planes_ijv (labels d)) as [|t r]; [eexists; split; reflexivity|].
  simpl map. simpl app. simpl lexsort.
  destruct (insert_row _ _) as [|x l] eqn:E.
  { elim (insert_row_not_nil _ _ E). }
  rewrite drop_matches_cons. eexists. split; reflexivity.
Qed.

Lemma record_undo_frame (d d' : dialog) :
  record_undo d = Done d' ->
  frame d' = frame d /\ labels d' = labels d /\ to_keep d' = to_keep d /\
  artists d' = artists d /\ next_id d' = next_id d /\
  last_artist_save d' = artists d /\
  exists diff, undo_stack d' = (diff, last_artist_save d) :: undo_stack d.
Proof.
  unfold record_undo.
  destruct (calculate_ijv (shape d) (labels d)) as [rows|e]; [|discriminate].
  match goal with
  | |- match ?x with _ => _ end = _ -> _ => destruct x as [diff|e]
  end; [|discriminate].
  intros [= <-]. destruct d. simpl. repeat split; eauto.
Qed.

Lemma unique_two (l : list Z) :
  2 <= length (unique l) <-> exists a b, In a l /\ In b l /\ a <> b.
Proof.
  pose proof (unique_sorted l) as Hs. split.
  - intros Hlen. destruct (unique l) as [|x [|y r]] eqn:E;
      try (simpl in Hlen; lia).
    exists x, y. split; [|split].
    + apply unique_In. rewrite E. left; auto.
    + apply unique_In. rewrite E. right; left; auto.
    + inversion Hs as [|? ? _ Hf]; subst. inversion Hf; subst. lia.
  - intros [a [b [Ha [Hb Hab]]]].
    apply unique_In in Ha, Hb.
    destruct (unique l) as [|x [|y r]]; simpl in *; lia.
Qed.

Lemma coherent_spec (d : dialog) :
  coherent d = true ->
  raster_ok d /\
  forall w, In w (selected d) ->
    (0 < w < Z.of_nat (length (to_keep d)))%Z.
Proof.
  unfold coherent, raster_ok, in_range, selected.
  rewrite !andb_true_iff. intros [[Hs Hv] Ha].
  rewrite forallb_forall in Hv, Ha. split; [split; auto|].
  - intros i j v Ht. specialize (Hv _ Ht). simpl in Hv. lia.
  - intros w Hw. apply unique_In, in_map_iff in Hw.
    destruct Hw as [a [<- Hin]]. specialize (Ha _ Hin). lia.
Qed.

Lemma set_labels_twice (x y : list plane) (d : dialog) :
  set_labels x (set_labels y d) = set_labels x d.
Proof. destruct d. reflexivity. Qed.

Lemma record_undo_done (d : dialog) :
  forallb (has_shapeb (shape d)) (labels d) = true ->
  exists d',
    record_undo d = Done d' /\ labels d' = labels d /\
    to_keep d' = to_keep d /\ artists d' = artists d /\
    shape d' = shape d /\ mode d' = mode d /\
    length (undo_stack d') = S (length (undo_stack d)).
Proof.
  intros Hs. destruct (record_undo_ok d Hs) as [d' [Hr Hl]].
  exists d'. split; [exact Hr|].
  destruct (record_undo_frame d d' Hr)
    as [Hf [_ [Hk [Ha [_ [_ [diff Hu]]]]]]].
  unfold frame in Hf. injection Hf as _ _ Hsh Hm _ _ _ _ _ _ _ _.
  rewrite Hu. repeat split; auto.
Qed.

(** C5.  On a dialog with at least one plane, whose planes have its
    shape and whose labels are identifiers with a keep flag, the selected
    identifiers are the labels of the open chains.  When all chains carry
    the same label (or there is none) [join_objects] returns at once and
    changes nothing.  When two chains carry different labels it ends
    normally; [n] is the smallest selected identifier, and the flattened
    raster it leaves is described from the input alone: [n] labels
    exactly the pixels that some selected object has once its chains are
    committed (the parity fill of its chains where one was edited, its
    pixels in the planes otherwise), no other selected identifier occurs,
    and the objects that were not selected keep their pixels.  The keep
    flags are unchanged and the chains left are the fresh, unedited
    outlines of [n]. *)
Theorem join_objects_merges (d : dialog) :
  coherent d = true ->
  labels d <> [] ->
  ((forall a b, In a (artists d) -> In b (artists d) ->
      K_LABEL a = K_LABEL b) ->
   join_objects get_labels polygon_lines_to_mask outline_pts d = Done d) /\
  ((exists a b, In a (artists d) /\ In b (artists d) /\
                K_LABEL a <> K_LABEL b) ->
   exists n d' flat,
     join_objects get_labels polygon_lines_to_mask outline_pts d = Done d' /\
     (exists a, In a (artists d) /\ K_LABEL a = n) /\
     (forall a, In a (artists d) -> (n <= K_LABEL a)%Z) /\
     calculate_ijv (shape d') (labels d') = Ok flat /\
     to_keep d' = to_keep d /\
     Forall (fun a => K_LABEL a = n /\ K_EDITED a = false) (artists d') /\
     forall i j v,
       In (i, j, v) flat <->
       (v = n /\
        exists a, In a (artists d) /\
                  committed polygon_lines_to_mask d (K_LABEL a) i j)
       \/
       ((forall a, In a (artists d) -> K_LABEL a <> v) /\
        In (i, j, v) (planes_ijv (labels d)))).
Proof.
  intros Hc Hne. destruct (coherent_spec d Hc) as [Hok Hsel].
  assert (Hselin : forall w, In w (selected d) <->
                     exists a, In a (artists d) /\ K_LABEL a = w).
  { intros w. unfold selected. rewrite unique_In, in_map_iff.
    split; intros [a [H1 H2]]; exists a; auto. }
  pose proof (unique_two (map K_LABEL (artists d))) as Htwo.
  fold (selected d) in Htwo.
  unfold join_objects. fold (selected d). split.
  { intros Hsame.
    destruct (Nat.ltb_spec (length (selected d)) 2) as [_|Hge]; [reflexivity|].
    apply Htwo in Hge. destruct Hge as [x [y [Hx [Hy Hxy]]]].
    apply in_map_iff in Hx, Hy.
    destruct Hx as [a [<- Ha]], Hy as [b [<- Hb]].
    elim Hxy. apply Hsame; assumption. }
  intros Hdiff.
  assert (Hlen : 2 <= length (selected d)).
  { apply Htwo. destruct Hdiff as [a [b [Ha [Hb Hab]]]].
    exists (K_LABEL a), (K_LABEL b).
    split; [apply in_map; exact Ha|]. split; [apply in_map; exact Hb|].
    exact Hab. }
  clear Htwo Hdiff.
  destruct (Nat.ltb_spec (length (selected d)) 2) as [Hlt2|Hge2]; [lia|].
  set (sel := selected d) in *. set (n := hd 0%Z sel).
  destruct (unique_hd_min (map K_LABEL (artists d))) as [Hn Hmin].
  { fold (selected d). fold sel. destruct sel; [simpl in Hlen; lia|discriminate]. }
  fold (selected d) in Hn, Hmin. fold sel in Hn, Hmin. fold n in Hn, Hmin.
  destruct (close_labels_spec d sel [] d (closed_state_start d Hok Hne) Hsel)
    as [d1 [Hcl Hst]].
  rewrite app_nil_r in Hst.
  destruct Hst as [[Hs1 Hv1] [Hk1 [Hsh1 [Hne1 [Hart1 Hflat1]]]]].
  rewrite Hcl. cbn [and_then]. rewrite <- Hk1 in Hsel.
  (* the boolean array of the selected identifiers *)
  destruct (put_true_all_spec sel (repeat false (length (to_keep d1))))
    as [tj [Hput [Htjlen Htj]]].
  { intros v Hv. rewrite repeat_length. specialize (Hsel v Hv). lia. }
  rewrite Hput. rewrite repeat_length in Htjlen.
  assert (Htj' : forall v, (0 < v < Z.of_nat (length (to_keep d1)))%Z ->
                   (nth (Z.to_nat v) tj false = true <-> In v sel)).
  { intros v Hv. rewrite Htj, nth_repeat_default. split.
    - intros [H|[w [Hw E]]].
      + destruct (Nat.ltb _ _); discriminate.
      + specialize (Hsel w Hw). assert (w = v) by lia. subst. exact Hw.
    - intros H. right. exists v. auto. }
  assert (Htj0 : forall v, (v <= 0)%Z -> nth (Z.to_nat v) tj false = false).
  { intros v Hv. destruct (nth (Z.to_nat v) tj false) eqn:E; auto.
    apply Htj in E. rewrite nth_repeat_default in E.
    destruct E as [E|[w [Hw E]]].
    - destruct (Nat.ltb _ _); discriminate.
    - specialize (Hsel w Hw). lia. }
  assert (Hpos : (0 < Z.of_nat (length (to_keep d1)))%Z).
  { specialize (Hsel n Hn). lia. }
  assert (Hpix : forall l i j, In l (labels d1) ->
                   (0 <= pixel l i j < Z.of_nat (length (to_keep d1)))%Z).
  { intros l i j Hl. destruct (Z.eq_dec (pixel l i j) 0) as [->|Hnz]; [lia|].
    assert (0 < pixel l i j < Z.of_nat (length (to_keep d1)))%Z; [|lia].
    apply (Hv1 i j). apply planes_ijv_In. exists l. auto. }
  rewrite (join_erase_ok tj (labels d1)).
  2:{ intros l Hl. apply take_plane_ok. intros v Hv.
      destruct (In_concat_pixel _ _ Hv) as [i [j <-]].
      rewrite Htjlen. apply Hpix. exact Hl. }
  set (tmask := fun l : plane =>
                  map (map (fun v => nth (Z.to_nat v) tj false)) l).
  set (m := fold_left (fun m l => mask_or m (tmask l)) (labels d1)
                      (zeros_mask (shape d1))).
  set (erased := map (fun l => clear_where (tmask l) l) (labels d1)).
  assert (Hshapes : forall l, In l (labels d1) -> has_shape (shape d1) l).
  { apply shapes_forall. exact Hs1. }
  destruct (fold_or_spec (shape d1) tj (labels d1) (Htj0 0%Z ltac:(lia))
              (zeros_mask (shape d1)) (zeros_mask_shape _) Hshapes)
    as [Hm Hmpix].
  fold tmask in Hm, Hmpix. fold m in Hm, Hmpix.
  assert (Happ : append_label m n (set_labels erased d1)
                 = Done (set_labels (erased ++ [mask_times m n]) d1)).
  { unfold append_label. rewrite set_labels_twice.
    assert (He : labels (set_labels erased d1) = erased)
      by (destruct d1; reflexivity).
    rewrite He. destruct erased as [|e0 es] eqn:Ee; [|reflexivity].
    unfold erased in Ee. destruct (labels d1); [congruence|discriminate]. }
  match goal with
  | |- exists n0 d' flat, and_then ?a _ = _ /\ _ =>
      change a with (append_label m n (set_labels erased d1))
  end.
  rewrite Happ. cbn [and_then].
  match goal with
  | |- exists n' d' flat, and_then (restructure_labels _ ?x) _ = _ /\ _ =>
      destruct (restructure_labels_spec x)
        as [d2 [Hr [Hk2 [Hsh2 [Har2 [Hs2 Hin2]]]]]]
  end.
  { cbn. rewrite forallb_app. apply andb_true_iff. split.
    - apply shapes_forall. intros p Hp. apply in_map_iff in Hp.
      destruct Hp as [l [<- Hl]]. apply clear_where_shape; auto.
      apply map_map_shape. apply Hshapes. exact Hl.
    - simpl. rewrite andb_true_r. apply has_shapeb_has_shape.
      apply mask_times_shape. exact Hm. }
  assert (Hsh2' : shape d2 = shape d1) by (rewrite Hsh2; destruct d1; reflexivity).
  assert (Hs2' : forallb (has_shapeb (shape d1)) (labels d2) = true).
  { rewrite <- Hs2. destruct d1; reflexivity. }
  assert (Hk2' : to_keep d2 = to_keep d1) by (rewrite Hk2; destruct d1; reflexivity).
  assert (Har2' : artists d2 = artists d1) by (rewrite Har2; destruct d1; reflexivity).
  assert (Hin2' : forall t, In t (planes_ijv (labels d2)) <->
                    In t (planes_ijv (erased ++ [mask_times m n]))).
  { intros t. rewrite Hin2. destruct d1; reflexivity. }
  clear Hin2 Hs2 Hsh2 Hk2 Har2.
  rewrite Hr. cbn [and_then].
  destruct (make_control_points_ok n d2)
    as [d3 [new [Hmk [Hl3 [Hsh3 [Hk3 [Har3 Hnew]]]]]]].
  rewrite Hmk. cbn [and_then].
  destruct (record_undo_done d3) as [d' [Hru [Hl' [Hk' [Har' [Hsh' _]]]]]].
  { rewrite Hl3, Hsh3, Hsh2'. exact Hs2'. }
  exists n, d', (planes_ijv (labels d')).
  split; [exact Hru|].
  split; [apply Hselin; exact Hn|].
  split; [intros a Ha; apply Hmin; apply Hselin; exists a; auto|].
  split.
  { apply calculate_ijv_ok. rewrite Hl', Hsh', Hl3, Hsh3, Hsh2'. exact Hs2'. }
  split; [congruence|].
  split.
  { rewrite Har', Har3, Har2', Hart1.
    rewrite (filter_none _ (artists d)); [exact Hnew|].
    intros a Ha. apply negb_false_iff. apply existsb_label.
    apply in_rev. rewrite rev_involutive. apply Hselin. exists a; auto. }
  intros i j v. rewrite Hl', Hl3.
  assert (Hmid :
    In (i, j, v) (planes_ijv (labels d2)) <->
    (v = n /\
     exists w, In w sel /\ In (i, j, w) (planes_ijv (labels d1)))
    \/ (~ In v sel /\ In (i, j, v) (planes_ijv (labels d1)))).
  {   assert (Hn0 : n <> 0%Z) by (specialize (Hsel n Hn); lia).
    assert (Herased : forall l, In l (labels d1) ->
              pixel (clear_where (tmask l) l) i j
              = if nth (Z.to_nat (pixel l i j)) tj false then 0%Z
                else pixel l i j).
    { intros l Hl. rewrite (pixel_clear_where (shape d1)); auto.
      - unfold tmask. rewrite mpixel_take; auto. apply (Htj0 0%Z). lia.
      - apply map_map_shape. apply Hshapes. exact Hl. }
    assert (Hmask : mpixel m i j = true <->
              exists w, In w sel /\ In (i, j, w) (planes_ijv (labels d1))).
    { split.
      - intros Hx. apply (proj1 (Hmpix i j)) in Hx.
        rewrite mpixel_zeros_mask in Hx.
        destruct Hx as [Hx|[l [Hl Hx]]]; [discriminate|].
        pose proof (Hpix l i j Hl) as Hrange.
        destruct (Z.eq_dec (pixel l i j) 0) as [E|E].
        { rewrite (Htj0 (pixel l i j)) in Hx by lia. discriminate. }
        exists (pixel l i j). split.
        + apply Htj'; auto. lia.
        + apply planes_ijv_In. exists l. auto.
      - intros [w [Hw Hin]]. apply (proj2 (Hmpix i j)).
        right. apply planes_ijv_In in Hin.
        destruct Hin as [l [Hl [Hp Hnz]]]. exists l. split; auto.
        rewrite Hp. apply Htj'; auto. }
      split.
    - intros Hx. apply Hin2', planes_ijv_In in Hx.
      destruct Hx as [p [Hp [Hpv Hnz]]]. apply in_app_iff in Hp.
      destruct Hp as [Hp|[<-|[]]].
      + right. unfold erased in Hp. apply in_map_iff in Hp.
        destruct Hp as [l [<- Hl]]. rewrite (Herased l Hl) in Hpv.
        destruct (nth (Z.to_nat (pixel l i j)) tj false) eqn:E; [congruence|].
        assert (Hin : In (i, j, v) (planes_ijv (labels d1))).
        { apply planes_ijv_In. exists l. auto. }
        split; auto. intros Hv. apply Htj' in Hv; [|apply (Hv1 i j); exact Hin].
        congruence.
      + left. rewrite pixel_mask_times in Hpv.
        destruct (mpixel m i j) eqn:E; [|congruence].
        split; [congruence|]. apply Hmask. reflexivity.
    - intros Hx. apply Hin2', planes_ijv_In.
      destruct Hx as [[-> Hw]|[Hv Hin]].
      + exists (mask_times m n). split; [apply in_app_iff; right; left; auto|].
        rewrite pixel_mask_times. apply Hmask in Hw. rewrite Hw. auto.
      + pose proof Hin as Hin'. apply planes_ijv_In in Hin.
        destruct Hin as [l [Hl [Hp Hnz]]].
        exists (clear_where (tmask l) l). split.
        { apply in_app_iff. left. unfold erased.
          apply (in_map (fun l => clear_where (tmask l) l)). exact Hl. }
        rewrite (Herased l Hl), Hp.
        destruct (nth (Z.to_nat v) tj false) eqn:E; auto.
        exfalso. apply Hv. apply Htj'; auto. apply (Hv1 i j). exact Hin'. }
  rewrite Hmid. clear Hmid.
  assert (Hrev : forall w, In w (rev sel) <-> In w sel).
  { intros w. symmetry. apply in_rev. }
  split.
  - intros [[-> [w [Hw Hin]]]|[Hv Hin]].
    + left. split; [reflexivity|].
      apply Hselin in Hw. destruct Hw as [a [Ha <-]]. exists a.
      split; [exact Ha|]. apply Hflat1 in Hin.
      destruct Hin as [[Hnot _]|[_ Hcm]]; [|exact Hcm].
      elim Hnot. apply Hrev. apply Hselin. exists a; auto.
    + right. split.
      * intros a Ha E. apply Hv. apply Hselin. exists a; auto.
      * apply Hflat1 in Hin. destruct Hin as [[_ Hin]|[Hd _]]; [exact Hin|].
        elim Hv. apply Hrev. exact Hd.
  - intros [[-> [a [Ha Hcm]]]|[Hv Hin]].
    + left. split; [reflexivity|]. exists (K_LABEL a).
      assert (Hsa : In (K_LABEL a) sel) by (apply Hselin; exists a; auto).
      split; [exact Hsa|]. apply Hflat1. right.
      split; [apply Hrev; exact Hsa|exact Hcm].
    + right. assert (Hns : ~ In v sel).
      { intros Hs. apply Hselin in Hs. destruct Hs as [a [Ha E]].
        exact (Hv a Ha E). }
      split; [exact Hns|]. apply Hflat1. left.
      split; [|exact Hin]. intros Hd. apply Hns. apply Hrev. exact Hd.
Qed.

End Join.

Lemma stamp_some (sh : nat * nat) (t : ijv) (ps : list plane) :
  stamp sh t ps <> [].
Proof.
  destruct ps as [|p r]; simpl; [discriminate|].
  destruct (Z.eqb _ _); [discriminate|].
  destruct (Z.eqb _ _); discriminate.
Qed.

Lemma restructure_some (sh : nat * nat) (l : list ijv) :
  restructure sh l <> [].
Proof.
  unfold restructure.
  assert (H : forall ps, ps <> [] ->
            fold_left (fun ps t => stamp sh t ps) l ps <> []).
  { induction l as [|t l IH]; intros ps Hps; simpl; [exact Hps|].
    apply IH. apply stamp_some. }
  apply H. discriminate.
Qed.

Lemma mask_has_shape_box (xy : list point) (sh : nat * nat) :
  mask_has_shape sh (box_mask xy sh).
Proof.
  unfold mask_has_shape, box_mask. rewrite length_map, length_seq.
  split; [reflexivity|]. apply Forall_forall. intros r Hr.
  apply in_map_iff in Hr. destruct Hr as [i [<- _]].
  rewrite length_map, length_seq. reflexivity.
Qed.

Lemma join_objects_merges_witness :
  let sq := [(0, 0); (1, 0); (1, 1); (0, 1); (0, 0)]%Q in
  let d := Dialog false [] (2, 3) [[[1; 2; 3]; [1; 2; 0]]]%Z
             [true; true; true; true]
             [Artist 0 sq 2 false true;
              Artist 1 [(0, 0); (1, 0); (0, 0)]%Q 1 true true] []
             [] [] NORMAL_MODE None None None None None None None [] 2 in
  let op := fun (_ : bool) (_ : mask) => @nil (list point) in
  exists n d' flat,
    join_objects restructure box_mask op d = Done d' /\
    (exists a, In a (artists d) /\ K_LABEL a = n) /\
    (forall a, In a (artists d) -> (n <= K_LABEL a)%Z) /\
    calculate_ijv (shape d') (labels d') = Ok flat /\
    to_keep d' = to_keep d /\
    Forall (fun a => K_LABEL a = n /\ K_EDITED a = false) (artists d') /\
    forall i j v,
      In (i, j, v) flat <->
      (v = n /\
       exists a, In a (artists d) /\ committed box_mask d (K_LABEL a) i j)
      \/
      ((forall a, In a (artists d) -> K_LABEL a <> v) /\
       In (i, j, v) (planes_ijv (labels d))).
Proof.
  intros sq d op.
  apply (proj2 (join_objects_merges restructure box_mask op
                  restructure_contract restructure_some mask_has_shape_box
                  d eq_refl ltac:(discriminate))).
  exists (Artist 0 sq 2 false true),
         (Artist 1 [(0, 0); (1, 0); (0, 0)]%Q 1 true true).
  split; [left; reflexivity|]. split; [right; left; reflexivity|].
  simpl. lia.
Defined.

(** Object 1 has an edited chain along the top row, object 2 an unedited
    one.  The join leaves the identifier 1 on the fill of the edited
    chain and on the pixels of object 2; the pixel (1, 0) that object 1
    had outside its edited chain is gone, and object 3 keeps its pixel. *)
Example join_objects_example :
  let sq := [(0, 0); (1, 0); (1, 1); (0, 1); (0, 0)]%Q in
  let d := Dialog false [] (2, 3) [[[1; 2; 3]; [1; 2; 0]]]%Z
             [true; true; true; true]
             [Artist 0 sq 2 false true;
              Artist 1 [(0, 0); (1, 0); (0, 0)]%Q 1 true true] []
             [] [] NORMAL_MODE None None None None None None None [] 2 in
  exists d',
    join_objects restructure box_mask (fun _ _ => []) d = Done d' /\
    labels d' = [[[1; 1; 3]; [0; 1; 0]]]%Z.
Proof. eexists. split; [vm_compute; reflexivity|]. reflexivity. Qed.

(** Without a plane the assignment of the joined object fails. *)
Example join_objects_without_planes :
  let sq := [(0, 0); (1, 0); (1, 1); (0, 1); (0, 0)]%Q in
  let d := Dialog false [] (2, 3) [] [true; true; true]
             [Artist 0 sq 2 false true; Artist 1 sq 1 false true] []
             [] [] NORMAL_MODE None None None None None None None [] 2 in
  exists d',
    join_objects restructure box_mask (fun _ _ => []) d
    = Raised IndexError d' /\ artists d' = [] /\ labels d' = [].
Proof. eexists. split; [vm_compute; reflexivity|]. split; reflexivity. Qed.

(* ------------------------------------------------------------------ *)
(** ** Erasing a label *)

Lemma row_ijv_erase (n : Z) (r : list Z) : forall i j,
  row_ijv i j (map (fun v => if Z.eqb v n then 0%Z else v) r)
  = filter (fun t : ijv => negb (Z.eqb (snd t) n)) (row_ijv i j r).
Proof.
  induction r as [|x r IH]; intros i j; [reflexivity|].
  cbn [map row_ijv]. rewrite filter_app, IH. f_equal.
  cbn [snd].
  destruct (Z.eqb_spec x n) as [->|Hn].
  - simpl. destruct (Z.eqb_spec n 0); simpl; [reflexivity|].
    rewrite Z.eqb_refl. reflexivity.
  - destruct (Z.eqb_spec x 0); simpl; [reflexivity|].
    destruct (Z.eqb_spec x n); [contradiction|reflexivity].
Qed.

Lemma plane_ijv_from_erase (n : Z) (p : plane) : forall i,
  plane_ijv_from i (erase_label n p)
  = filter (fun t : ijv => negb (Z.eqb (snd t) n)) (plane_ijv_from i p).
Proof.
  induction p as [|r p IH]; intros i; [reflexivity|].
  unfold erase_label in *. cbn [map plane_ijv_from].
  rewrite filter_app, IH, row_ijv_erase. reflexivity.
Qed.

Lemma has_shapeb_erase (sh : nat * nat) (n : Z) (p : plane) :
  has_shapeb sh (erase_label n p) = has_shapeb sh p.
Proof.
  unfold has_shapeb, erase_label. rewrite length_map. f_equal.
  induction p as [|r p IH]; [reflexivity|].
  cbn [map forallb]. rewrite length_map, IH. reflexivity.
Qed.

Lemma calculate_ijv_erase (sh : nat * nat) (n : Z) (ls : list plane) :
  calculate_ijv sh (map (erase_label n) ls)
  = match calculate_ijv sh ls with
    | Ok rows => Ok (filter (fun t : ijv => negb (Z.eqb (snd t) n)) rows)
    | Raise e => Raise e
    end.
Proof.
  induction ls as [|l ls IH]; [reflexivity|].
  cbn [map calculate_ijv]. unfold masked_ijv.
  rewrite has_shapeb_erase.
  destruct (has_shapeb sh l); [|reflexivity].
  cbn [bind]. rewrite IH.
  destruct (calculate_ijv sh ls); [|reflexivity].
  cbn [bind]. unfold plane_ijv.
  rewrite plane_ijv_from_erase, filter_app. reflexivity.
Qed.

(** X1 (remove_label).  Flattening the raster after [remove_label n] gives
    the rows of the flattening before it whose identifier is not [n], in
    the same order; when the flattening failed before, it fails the same
    way afterwards.  Nothing but the planes is touched. *)
Theorem remove_label_erases (n : Z) (d : dialog) :
  calculate_ijv (shape (remove_label n d)) (labels (remove_label n d))
  = match calculate_ijv (shape d) (labels d) with
    | Ok rows => Ok (filter (fun t => negb (Z.eqb (snd t) n)) rows)
    | Raise e => Raise e
    end
  /\ set_labels (labels d) (remove_label n d) = d.
Proof.
  split.
  - unfold remove_label. destruct d. simpl.
    apply calculate_ijv_erase.
  - destruct d. reflexivity.
Qed.

(* ------------------------------------------------------------------ *)
(** ** Reset *)

Lemma reset_writes (d x : dialog) :
  reset d = Done x ->
  labels x = orig_labels d /\ artists x = [] /\ undo_stack x = [] /\
  last_artist_save x = [] /\
  last_ijv x = planes_ijv (orig_labels d) /\
  frame x = frame d /\ next_id x = next_id d.
Proof.
  destruct d. unfold reset. simpl.
  destruct (map_result plane_max _) as [[|m ms]|e]; try discriminate.
  destruct (_ <? 0)%Z; try discriminate.
  destruct (calculate_ijv _ _) as [rows|e] eqn:E; try discriminate.
  intros [= <-]. simpl. apply calculate_ijv_inv in E. destruct E as [_ ->].
  repeat split.
Qed.

Lemma reset_same (d d' x : dialog) :
  orig_labels d' = orig_labels d -> shape d' = shape d ->
  reset d = Done x ->
  exists x', reset d' = Done x' /\ to_keep x' = to_keep x.
Proof.
  destruct d, d'. simpl. intros -> ->. unfold reset. simpl.
  destruct (map_result plane_max _) as [[|m ms]|e]; try discriminate.
  destruct (_ <? 0)%Z; try discriminate.
  destruct (calculate_ijv _ _); try discriminate.
  intros [= <-]. eexists. split; reflexivity.
Qed.

(** X2 (reset).  In every state of a session that still has the original
    planes and the shape of its construction (no method writes them),
    [reset] succeeds and brings back what the constructor had built:
    the planes, the keep flags and the snapshot are those of
    construction, and there are no chains, no undo entries and no saved
    chains.  Everything else (the mode, the pressed keys, the active
    chain, the split and delete attributes, the counter that names line
    objects) is left as it is. *)
Theorem reset_restores_construction_raster
    (orig : list plane) (overlap : bool) (d0 d : dialog) :
  init orig overlap = Ok d0 ->
  orig_labels d = orig ->
  shape d = shape d0 ->
  exists d',
    reset d = Done d' /\
    labels d' = labels d0 /\ to_keep d' = to_keep d0 /\
    last_ijv d' = last_ijv d0 /\
    artists d' = [] /\ undo_stack d' = [] /\ last_artist_save d' = [] /\
    frame d' = frame d /\ next_id d' = next_id d.
Proof.
  intros Hi Ho Hs. pose proof (init_inv _ _ _ Hi) as Hinv.
  destruct Hinv as [Hl0 [Ho0 [_ [_ [_ [_ [_ [Hij0 _]]]]]]]].
  unfold init in Hi. destruct orig as [|l0 rest]; [discriminate|].
  match type of Hi with
  | match reset ?x with _ => _ end = _ =>
      set (dinit := x) in Hi; destruct (reset dinit) as [x0| |] eqn:R
  end; try discriminate.
  injection Hi as <-.
  destruct (reset_same dinit d x0) as [d' [Hr Hk]]; [| |exact R|].
  - rewrite Ho. reflexivity.
  - rewrite Hs. destruct (reset_writes _ _ R) as [_ [_ [_ [_ [_ [Hf _]]]]]].
    unfold frame in Hf. injection Hf as _ _ Hsh _ _ _ _ _ _ _ _ _.
    exact Hsh.
  - exists d'. split; [exact Hr|].
    destruct (reset_writes _ _ Hr) as [H1 [H2 [H3 [H4 [H5 [H6 H7]]]]]].
    rewrite H1, H5, Ho, Hl0, Hij0. repeat split; auto.
Qed.

Lemma reset_restores_construction_raster_witness :
  let orig := [[[1; 0]; [0; 2]]]%Z in
  let chain := Artist 0 [(0, 0); (1, 1); (0, 0)]%Q 1 true true in
  let d0 := Dialog false orig (2, 2) orig [true; true; true] [] []
              [(0, 0, 1%Z); (1, 1, 2%Z)] []
              NORMAL_MODE None None None None None None None [] 0 in
  let d := Dialog false orig (2, 2) [[[1; 1]; [0; 0]]]%Z
             [true; true; true; true]
             [chain] [([(0, 1, 1%Z, New); (1, 1, 2%Z, Old)], [])]
             [(0, 0, 1%Z); (0, 1, 1%Z)] [chain]
             SPLIT_PICK_FIRST_MODE None None None None None None None
             ["s"%string; "n"%string] 1 in
  init orig false = Ok d0 /\
  exists d',
    reset d = Done d' /\
    labels d' = labels d0 /\ to_keep d' = to_keep d0 /\
    last_ijv d' = last_ijv d0 /\
    artists d' = [] /\ undo_stack d' = [] /\ last_artist_save d' = [] /\
    frame d' = frame d /\ next_id d' = next_id d.
Proof.
  intros orig chain d0 d.
  assert (H0 : init orig false = Ok d0) by (vm_compute; reflexivity).
  split; [exact H0|].
  exact (reset_restores_construction_raster orig false d0 d H0
           eq_refl eq_refl).
Defined.

(* ------------------------------------------------------------------ *)
(** ** Picking a control point *)

Lemma argmin_from_index (l : list PrimFloat.float) : forall best besti i,
  (fst (argmin_from best besti i l) = besti /\
   snd (argmin_from best besti i l) = best) \/
  (i <= fst (argmin_from best besti i l) < i + length l /\
   nth (fst (argmin_from best besti i l) - i) l best
   = snd (argmin_from best besti i l)).
Proof.
  induction l as [|x r IH]; intros best besti i.
  - left. split; reflexivity.
  - cbn [argmin_from]. destruct (PrimFloat.ltb x best).
    + right. destruct (IH x i (S i)) as [[Hk Hm]|[Hk Hm]].
      * rewrite Hk, Hm. split; [simpl; lia|].
        rewrite Nat.sub_diag. reflexivity.
      * split; [simpl; lia|].
        replace (fst (argmin_from x i (S i) r) - i)
          with (S (fst (argmin_from x i (S i) r) - S i)) by lia.
        cbn [nth]. rewrite <- Hm. apply nth_indep. lia.
    + destruct (IH best besti (S i)) as [[Hk Hm]|[Hk Hm]]; [left; auto|right].
      split; [simpl; lia|].
      replace (fst (argmin_from best besti (S i) r) - i)
        with (S (fst (argmin_from best besti (S i) r) - S i)) by lia.
      exact Hm.
Qed.

Lemma argmin_index (l : list PrimFloat.float) (dflt : PrimFloat.float) :
  l <> [] ->
  exists k m, argmin l = Ok (k, m) /\ k < length l /\ nth k l dflt = m.
Proof.
  destruct l as [|x r]; [congruence|]. intros _.
  exists (fst (argmin_from x 0 1 r)), (snd (argmin_from x 0 1 r)).
  split; [unfold argmin; destruct (argmin_from x 0 1 r); reflexivity|].
  destruct (argmin_from_index r x 0 1) as [[Hk Hm]|[Hk Hm]].
  - rewrite Hk, Hm. split; [simpl; lia|reflexivity].
  - split; [simpl; lia|].
    destruct (fst (argmin_from x 0 1 r)) as [|k]; [lia|].
    replace (S k - 1) with k in Hm by lia.
    cbn [nth]. rewrite <- Hm. apply nth_indep. simpl in Hk. lia.
Qed.

Lemma pick_from_ok (transform : point -> point) (ev : event)
    (l : list artist) : forall seen best,
  pick_ok transform ev seen best ->
  (forall a, In a l -> 2 <= length (xydata a)) ->
  exists best',
    pick_from transform ev l best = Ok best' /\
    pick_ok transform ev (seen ++ l) best'.
Proof.
  induction l as [|a l IH]; intros seen best Hinv Hlen.
  - exists best. rewrite app_nil_r. split; [reflexivity|exact Hinv].
  - cbn [pick_from].
    set (f := fun p => distance (transform p) (ev_x ev) (ev_y ev)).
    assert (Ha : 2 <= length (xydata a)) by (apply Hlen; left; auto).
    assert (Hl : length (map f (removelast (xydata a)))
                 = length (xydata a) - 1).
    { rewrite length_map. apply removelast_length. }
    destruct (argmin_index (map f (removelast (xydata a))) (f origin))
      as [idx [dm [Harg [Hidx Hnth]]]].
    { intros E. rewrite E in Hl. simpl in Hl. lia. }
    rewrite Harg. cbn [bind].
    assert (Hdm : dm = f (nth idx (xydata a) origin)).
    { rewrite <- Hnth, map_nth. rewrite nth_removelast; [reflexivity|lia]. }
    replace (seen ++ a :: l) with ((seen ++ [a]) ++ l)
      by (rewrite <- app_assoc; reflexivity).
    apply IH; [|intros b Hb; apply Hlen; right; auto].
    assert (Hkeep : pick_ok transform ev (seen ++ [a]) best).
    { destruct best as [[[bd b0] i0]|]; [|exact I].
      destruct Hinv as [I1 I2]. split; [apply in_or_app; left; auto|exact I2]. }
    destruct (PrimFloat.ltb dm epsilon) eqn:E1; [|exact Hkeep].
    assert (Hnew : pick_ok transform ev (seen ++ [a]) (Some (dm, a, idx))).
    { split; [apply in_or_app; right; left; auto|].
      split; [lia|]. split; [exact Hdm|exact E1]. }
    destruct best as [[[bd b0] i0]|]; cbn [andb]; [|exact Hnew].
    destruct (PrimFloat.ltb dm bd); [exact Hnew|exact Hkeep].
Qed.

Lemma get_control_point_ok (transform : point -> point) (ev : event)
    (d : dialog) :
  (forall a, In a (artists d) -> 2 <= length (xydata a)) ->
  exists best,
    pick_ok transform ev (artists d) best /\
    get_control_point transform ev d
    = Ok (match best with
          | None => None
          | Some (_, a, idx) => Some (a, idx)
          end).
Proof.
  intros Hlen. unfold get_control_point.
  destruct (pick_from_ok transform ev (artists d) [] None I Hlen)
    as [b [H1 H2]].
  exists b. split; [exact H2|]. rewrite H1. reflexivity.
Qed.

Lemma get_control_point_some (transform : point -> point) (ev : event)
    (d : dialog) (a : artist) (idx : nat) :
  (forall b, In b (artists d) -> 2 <= length (xydata b)) ->
  get_control_point transform ev d = Ok (Some (a, idx)) ->
  In a (artists d) /\ idx < length (xydata a) - 1.
Proof.
  intros Hlen Hg.
  destruct (get_control_point_ok transform ev d Hlen) as [best [Hinv Hb]].
  rewrite Hb in Hg. destruct best as [[[bd b] i]|]; [|discriminate].
  injection Hg as -> ->. destruct Hinv as [I1 [I2 _]]. auto.
Qed.

(** X3 (get_control_point).  When every chain has at least two stored
    points, picking never fails.  What it returns is a chain of the
    dialog together with the index of one of its control points other
    than the closing point, and the distance of that point from the
    cursor, computed in double precision as the code does, is below
    [epsilon = 5]. *)
Theorem get_control_point_hit (transform : point -> point)
    (ev : event) (d : dialog) :
  (forall a, In a (artists d) -> 2 <= length (xydata a)) ->
  exists r,
    get_control_point transform ev d = Ok r /\
    forall a idx, r = Some (a, idx) ->
      In a (artists d) /\ idx < length (xydata a) - 1 /\
      PrimFloat.ltb
        (distance (transform (nth idx (xydata a) origin))
                  (ev_x ev) (ev_y ev))
        epsilon = true.
Proof.
  intros Hlen.
  destruct (get_control_point_ok transform ev d Hlen) as [best [Hinv Hg]].
  eexists. split; [exact Hg|].
  intros a idx E. destruct best as [[[bd b] i]|]; [|discriminate].
  injection E as -> ->. destruct Hinv as [I1 [I2 [I3 I4]]].
  rewrite <- I3. auto.
Qed.

(** The hit test is made on the rounded root: a point whose exact
    distance is just below 5 is not picked where the double root is 5. *)
Example get_control_point_rounds :
  let sq := [(0, 0); (10, 0); (10, 10); (0, 10); (0, 0)]%Q in
  let a := Artist 0 sq 1 false true in
  let d := Dialog false [] (12, 12) [] [true; true] [a] [] [] []
             NORMAL_MODE None None None None None None None [] 1 in
  get_control_point (fun p => p)
    (Event "none" 1 true 13 (9007199254740991 # 2251799813685248) 0 0) d
  = Ok None /\
  get_control_point (fun p => p) (Event "none" 1 true 13 (39 # 10) 0 0) d
  = Ok (Some (a, 1)).
Proof. split; vm_compute; reflexivity. Qed.

Lemma get_control_point_hit_witness :
  let sq := [(0, 0); (10, 0); (10, 10); (0, 10); (0, 0)]%Q in
  let a := Artist 0 sq 1 false true in
  let d := Dialog false [] (12, 12) [] [true; true] [a] [] [] []
             NORMAL_MODE None None None None None None None [] 1 in
  let ev := Event "none" 1 true 9 1 9 1 in
  get_control_point (fun p => p) ev d = Ok (Some (a, 1)) /\
  exists r,
    get_control_point (fun p => p) ev d = Ok r /\
    forall a idx, r = Some (a, idx) ->
      In a (artists d) /\ idx < length (xydata a) - 1 /\
      PrimFloat.ltb
        (distance (nth idx (xydata a) origin) (ev_x ev) (ev_y ev))
        epsilon = true.
Proof.
  intros sq a d ev. split; [vm_compute; reflexivity|].
  apply (get_control_point_hit (fun p => p) ev d).
  intros b [<-|[]]. simpl. lia.
Defined.

(* ------------------------------------------------------------------ *)
(** ** Deleting a control point *)

Lemma skipn_removelast {A : Type} (l : list A) : forall k,
  k < length l -> skipn k (removelast l) = removelast (skipn k l).
Proof.
  induction l as [|a l IH]; intros k Hk; [simpl in Hk; lia|].
  destruct k as [|k]; [reflexivity|].
  destruct l as [|b l]; [simpl in Hk; lia|].
  change (skipn k (removelast (b :: l)) = removelast (skipn k (b :: l))).
  apply IH. simpl in *. lia.
Qed.

Lemma firstn_removelast_lt {A : Type} (l : list A) : forall k,
  k < length l -> firstn k (removelast l) = firstn k l.
Proof.
  induction l as [|a l IH]; intros k Hk; [simpl in Hk; lia|].
  destruct k as [|k]; [reflexivity|].
  destruct l as [|b l]; [simpl in Hk; lia|].
  change (a :: firstn k (removelast (b :: l)) = a :: firstn k (b :: l)).
  f_equal. apply IH. simpl in *. lia.
Qed.

Lemma last_app_firstn1 {A : Type} (d : A) (l : list A) :
  l <> [] -> last (l ++ firstn 1 l) d = hd d l.
Proof.
  destruct l as [|a l]; [congruence|]. intros _.
  simpl firstn. rewrite last_last. reflexivity.
Qed.

(** X4 (delete_control_point).  When the picked chain has at least four
    stored points, the command succeeds, keeps the chain and removes
    exactly the picked control point: the chain is one point shorter, is
    closed again, is marked as edited, and its control points are the
    former ones without the picked one, in order.  The raster and the
    keep flags stay as they are and one undo entry is pushed. *)
Theorem delete_control_point_shortens (transform : point -> point)
    (ev : event) (d : dialog) (a : artist) (idx : nat) :
  forallb (has_shapeb (shape d)) (labels d) = true ->
  (forall b, In b (artists d) -> 2 <= length (xydata b)) ->
  get_control_point transform ev d = Ok (Some (a, idx)) ->
  4 <= length (xydata a) ->
  exists d' chain,
    delete_control_point transform ev d = Done d' /\
    labels d' = labels d /\ to_keep d' = to_keep d /\
    length (undo_stack d') = S (length (undo_stack d)) /\
    artists d'
    = map (fun b => if Nat.eqb (aid a) (aid b)
                    then Artist (aid b) chain (K_LABEL b) true (K_OUTSIDE b)
                    else b) (artists d) /\
    length chain = length (xydata a) - 1 /\
    hd origin chain = last chain origin /\
    removelast chain
    = firstn idx (removelast (xydata a))
      ++ skipn (S idx) (removelast (xydata a)).
Proof.
  intros Hs Hlen Hg H4.
  destruct (get_control_point_some transform ev d a idx Hlen Hg) as [Hin Hidx].
  unfold delete_control_point. rewrite Hg.
  destruct (Nat.ltb_spec (length (xydata a)) 4) as [Hlt|_]; [lia|].
  set (l1 := firstn idx (xydata a) ++ removelast (skipn (S idx) (xydata a))).
  match goal with
  | |- exists d' chain, record_undo ?x = _ /\ _ =>
      destruct (record_undo_done x) as [d' [Hr [Hl [Hk [Ha [_ [_ Hu]]]]]]];
        [exact Hs|]
  end.
  exists d', (l1 ++ firstn 1 l1).
  assert (Hl1 : length l1 = length (xydata a) - 2).
  { unfold l1. rewrite length_app, length_firstn, removelast_length,
      length_skipn. lia. }
  assert (Hne : l1 <> []).
  { intros E. rewrite E in Hl1. simpl in Hl1. lia. }
  split; [exact Hr|]. split; [exact Hl|]. split; [exact Hk|].
  split; [exact Hu|]. split; [rewrite Ha; reflexivity|].
  split; [|split].
  - rewrite length_app, Hl1. destruct l1; [congruence|]. simpl. lia.
  - rewrite last_app_firstn1 by exact Hne.
    destruct l1; [congruence|]. reflexivity.
  - destruct l1 as [|p l1'] eqn:E; [congruence|].
    simpl firstn. rewrite removelast_last. rewrite <- E. unfold l1.
    rewrite firstn_removelast_lt by lia.
    rewrite skipn_removelast by lia. reflexivity.
Qed.

Lemma delete_control_point_shortens_witness :
  let sq := [(0, 0); (10, 0); (10, 10); (0, 10); (0, 0)]%Q in
  let d := Dialog false [[[1; 1]; [1; 0]]]%Z (2, 2) [[[1; 1]; [1; 0]]]%Z
             [true; true] [Artist 0 sq 1 false true] []
             [(0, 0, 1%Z); (0, 1, 1%Z); (1, 0, 1%Z)] []
             NORMAL_MODE None None None None None None None [] 1 in
  let ev := Event "d" 0 true 10 0 10 0 in
  exists d' chain,
    delete_control_point (fun p => p) ev d = Done d' /\
    labels d' = labels d /\ to_keep d' = to_keep d /\
    length (undo_stack d') = S (length (undo_stack d)) /\
    artists d'
    = map (fun b => if Nat.eqb 0 (aid b)
                    then Artist (aid b) chain (K_LABEL b) true (K_OUTSIDE b)
                    else b) (artists d) /\
    length chain = length sq - 1 /\
    hd origin chain = last chain origin /\
    removelast chain
    = firstn 1 (removelast sq) ++ skipn 2 (removelast sq).
Proof.
  apply (delete_control_point_shortens (fun p => p)
           (Event "d" 0 true 10 0 10 0)
           (Dialog false [[[1; 1]; [1; 0]]]%Z (2, 2) [[[1; 1]; [1; 0]]]%Z
              [true; true]
              [Artist 0 [(0, 0); (10, 0); (10, 10); (0, 10); (0, 0)]%Q
                      1 false true] []
              [(0, 0, 1%Z); (0, 1, 1%Z); (1, 0, 1%Z)] []
              NORMAL_MODE None None None None None None None [] 1)
           (Artist 0 [(0, 0); (10, 0); (10, 10); (0, 10); (0, 0)]%Q
                   1 false true) 1).
  - reflexivity.
  - intros b [<-|[]]. simpl. lia.
  - reflexivity.
  - simpl. lia.
Defined.

(* ------------------------------------------------------------------ *)
(** ** Deleting a chain, new objects, dragging *)

Lemma planes_ijv_erase (n : Z) (ls : list plane) :
  planes_ijv (map (erase_label n) ls)
  = filter (fun t : ijv => negb (Z.eqb (snd t) n)) (planes_ijv ls).
Proof.
  unfold planes_ijv. induction ls as [|l ls IH]; [reflexivity|].
  cbn [map flat_map]. rewrite filter_app, IH. f_equal.
  apply plane_ijv_from_erase.
Qed.

Lemma forallb_has_shapeb_erase (sh : nat * nat) (n : Z) (ls : list plane) :
  forallb (has_shapeb sh) (map (erase_label n) ls)
  = forallb (has_shapeb sh) ls.
Proof.
  induction ls as [|l ls IH]; [reflexivity|].
  cbn [map forallb]. rewrite has_shapeb_erase, IH. reflexivity.
Qed.

Lemma map_id_when {A : Type} (f : A -> A) (l : list A) :
  (forall x, In x l -> f x = x) -> map f l = l.
Proof.
  induction l as [|a l IH]; intros H; [reflexivity|].
  simpl. rewrite H by (left; auto). f_equal. apply IH.
  intros x Hx. apply H. right; auto.
Qed.

(** X5 (delete_control_point, delete_artist).  On a dialog with at least
    one plane, whose planes have its shape and whose labels have a keep
    flag, when the picked chain has fewer than four stored points, the
    command removes the whole chain and pushes one undo entry.  If another chain of the same object is
    left, the raster stays as it is and every chain of that object is
    marked edited; if none is left, the object is erased from the raster:
    the flattening loses exactly the rows of that object. *)
Theorem delete_control_point_removes_chain (transform : point -> point)
    (ev : event) (d : dialog) (a : artist) (idx : nat) :
  coherent d = true -> labels d <> [] ->
  (forall b, In b (artists d) -> 2 <= length (xydata b)) ->
  get_control_point transform ev d = Ok (Some (a, idx)) ->
  length (xydata a) < 4 ->
  exists d',
    delete_control_point transform ev d = Done d' /\
    to_keep d' = to_keep d /\
    length (undo_stack d') = S (length (undo_stack d)) /\
    artists d'
    = map (fun b => if Z.eqb (K_LABEL b) (K_LABEL a)
                    then Artist (aid b) (xydata b) (K_LABEL b) true
                                (K_OUTSIDE b)
                    else b)
          (filter (fun b => negb (Nat.eqb (aid a) (aid b))) (artists d)) /\
    ((exists b, In b (artists d) /\ aid b <> aid a /\
                K_LABEL b = K_LABEL a) ->
     labels d' = labels d) /\
    ((forall b, In b (artists d) -> aid b <> aid a ->
                K_LABEL b <> K_LABEL a) ->
     planes_ijv (labels d')
     = filter (fun t : ijv => negb (Z.eqb (snd t) (K_LABEL a)))
              (planes_ijv (labels d))).
Proof.
  intros Hco _ Hlen Hg H4.
  assert (Hs : forallb (has_shapeb (shape d)) (labels d) = true).
  { unfold coherent in Hco. rewrite !andb_true_iff in Hco. tauto. }
  unfold delete_control_point. rewrite Hg.
  destruct (Nat.ltb_spec (length (xydata a)) 4) as [_|Hge]; [|lia].
  set (rest := filter (fun b => negb (same_artist a b)) (artists d)).
  assert (Hrest : forall b, In b rest <-> In b (artists d) /\ aid b <> aid a).
  { intros b. unfold rest. rewrite filter_In. unfold same_artist.
    rewrite negb_true_iff. split; intros [H1 H2]; split; auto.
    - intros E. rewrite E, Nat.eqb_refl in H2. discriminate.
    - apply Nat.eqb_neq. congruence. }
  unfold delete_artist. fold rest.
  destruct (existsb (has_label (K_LABEL a)) rest) eqn:Ex.
  - match goal with
    | |- exists d', record_undo ?x = _ /\ _ =>
        destruct (record_undo_done x) as [d' [Hr [Hl [Hk [Ha [_ [_ Hu]]]]]]];
          [exact Hs|]
    end.
    exists d'. split; [exact Hr|]. split; [exact Hk|]. split; [exact Hu|].
    split; [rewrite Ha; reflexivity|]. split; [intros _; exact Hl|].
    intros Hnone. apply existsb_exists in Ex.
    destruct Ex as [b [Hb Hlab]]. apply Hrest in Hb.
    unfold has_label in Hlab. apply Z.eqb_eq in Hlab.
    destruct Hb as [Hb1 Hb2]. elim (Hnone b Hb1 Hb2 Hlab).
  - match goal with
    | |- exists d', record_undo ?x = _ /\ _ =>
        destruct (record_undo_done x) as [d' [Hr [Hl [Hk [Ha [_ [_ Hu]]]]]]]
    end.
    { unfold remove_label. simpl.
      rewrite forallb_has_shapeb_erase. exact Hs. }
    exists d'. split; [exact Hr|]. split; [exact Hk|]. split; [exact Hu|].
    split; [|split].
    + rewrite Ha. simpl. fold rest. symmetry. apply map_id_when.
      intros b Hb. destruct (Z.eqb_spec (K_LABEL b) (K_LABEL a)) as [E|_]; auto.
      assert (Hex : existsb (has_label (K_LABEL a)) rest = true).
      { apply existsb_exists. exists b. split; [exact Hb|].
        unfold has_label. apply Z.eqb_eq. exact E. }
      congruence.
    + intros [b [Hb1 [Hb2 Hb3]]].
      assert (Hex : existsb (has_label (K_LABEL a)) rest = true).
      { apply existsb_exists. exists b. split; [apply Hrest; auto|].
        unfold has_label. apply Z.eqb_eq. exact Hb3. }
      congruence.
    + intros _. rewrite Hl. unfold remove_label. simpl.
      apply planes_ijv_erase.
Qed.

Lemma delete_control_point_removes_chain_witness :
  let tri := [(0, 0); (0, 4); (0, 0)]%Q in
  let a := Artist 0 tri 1 true true in
  let d := Dialog false [[[1; 1]; [2; 0]]]%Z (2, 2) [[[1; 1]; [2; 0]]]%Z
             [true; true; true] [a] []
             [(0, 0, 1%Z); (0, 1, 1%Z); (1, 0, 2%Z)] []
             NORMAL_MODE None None None None None None None [] 1 in
  let ev := Event "d" 0 true 0 4 0 4 in
  exists d',
    delete_control_point (fun p => p) ev d = Done d' /\
    to_keep d' = to_keep d /\
    length (undo_stack d') = S (length (undo_stack d)) /\
    artists d'
    = map (fun b => if Z.eqb (K_LABEL b) (K_LABEL a)
                    then Artist (aid b) (xydata b) (K_LABEL b) true
                                (K_OUTSIDE b)
                    else b)
          (filter (fun b => negb (Nat.eqb (aid a) (aid b))) (artists d)) /\
    ((exists b, In b (artists d) /\ aid b <> aid a /\
                K_LABEL b = K_LABEL a) ->
     labels d' = labels d) /\
    ((forall b, In b (artists d) -> aid b <> aid a ->
                K_LABEL b <> K_LABEL a) ->
     planes_ijv (labels d')
     = filter (fun t : ijv => negb (Z.eqb (snd t) (K_LABEL a)))
              (planes_ijv (labels d))).
Proof.
  intros tri a d ev.
  apply (delete_control_point_removes_chain (fun p => p) ev d a 1).
  - reflexivity.
  - discriminate.
  - intros b [<-|[]]. simpl. lia.
  - vm_compute. reflexivity.
  - simpl. lia.
Defined.

(* ------------------------------------------------------------------ *)
(** ** New objects *)

Lemma clip_new_object_bounds (sh : nat * nat) (p : point) :
  0 < snd sh ->
  (0 <= px (clip_new_object sh p))%Q /\
  (px (clip_new_object sh p) < inject_Z (Z.of_nat (snd sh)))%Q /\
  (py (clip_new_object sh p) < inject_Z (Z.of_nat (fst sh)))%Q.
Proof.
  intros Hw. unfold clip_new_object, px, py. cbn [fst snd].
  assert (H1 : (1 <= Z.of_nat (snd sh))%Z) by lia.
  rewrite Zle_Qle in H1. change (inject_Z 1) with 1%Q in H1.
  set (w := inject_Z (Z.of_nat (snd sh))) in *.
  set (h := inject_Z (Z.of_nat (fst sh))).
  split; [|split].
  - destruct (Qltb (fst p) 0) eqn:E0.
    + destruct (Qle_bool w 0) eqn:E1; [|apply Qle_refl].
      apply Qle_bool_iff in E1. lra.
    + apply Qltb_ge in E0.
      destruct (Qle_bool w (fst p)) eqn:E1; [lra|exact E0].
  - destruct (Qltb (fst p) 0) eqn:E0.
    + destruct (Qle_bool w 0) eqn:E1; [|lra].
      apply Qle_bool_iff in E1. lra.
    + destruct (Qle_bool w (fst p)) eqn:E1; [lra|].
      apply Qnot_le_lt. intros H. apply Qle_bool_iff in H. congruence.
  - destruct (Qle_bool h (snd p)) eqn:E1; [lra|].
    apply Qnot_le_lt. intros H. apply Qle_bool_iff in H. congruence.
Qed.

(** X6 (new_object).  On a dialog with at least one plane, whose planes
    have its shape and whose labels have a keep flag, and whose image is
    at least one pixel wide, a key press over the editing axes makes
    [new_object] succeed, whatever the 13 circle offsets are: it appends
    one keep flag, set, and one chain, labelled with the new object
    number (the former number of flags), marked edited and outside, with
    one point per angle; the planes are untouched and one undo entry is
    pushed.  Every point of the chain has its [x] within the image,
    [0 <= x < width], and its [y] below the height. *)
Theorem new_object_chain (circle13 : list point) (ev : event) (d : dialog) :
  coherent d = true -> labels d <> [] ->
  inaxes ev = true ->
  0 < snd (shape d) ->
  exists d' a,
    new_object circle13 ev d = Done d' /\
    labels d' = labels d /\
    to_keep d' = to_keep d ++ [true] /\
    artists d' = artists d ++ [a] /\
    K_LABEL a = Z.of_nat (length (to_keep d)) /\
    K_EDITED a = true /\ K_OUTSIDE a = true /\
    length (xydata a) = length circle13 /\
    length (undo_stack d') = S (length (undo_stack d)) /\
    forall p, In p (xydata a) ->
      (0 <= px p)%Q /\
      (px p < inject_Z (Z.of_nat (snd (shape d))))%Q /\
      (py p < inject_Z (Z.of_nat (fst (shape d))))%Q.
Proof.
  intros Hco _ _ Hw.
  assert (Hs : forallb (has_shapeb (shape d)) (labels d) = true).
  { unfold coherent in Hco. rewrite !andb_true_iff in Hco. tauto. }
  unfold new_object.
  match goal with
  | |- exists d' a, record_undo ?x = _ /\ _ =>
      destruct (record_undo_done x) as [d' [Hr [Hl [Hk [Ha [_ [_ Hu]]]]]]];
        [exact Hs|]
  end.
  eexists d', _. split; [exact Hr|].
  split; [exact Hl|]. split; [exact Hk|]. split; [exact Ha|].
  cbn [K_LABEL K_EDITED K_OUTSIDE xydata].
  split; [reflexivity|]. split; [reflexivity|]. split; [reflexivity|].
  split; [apply length_map|]. split; [exact Hu|].
  intros p Hp. apply in_map_iff in Hp. destruct Hp as [cs [<- _]].
  apply clip_new_object_bounds. exact Hw.
Qed.

Lemma new_object_chain_witness :
  let d := Dialog false [[[0; 0; 0]; [0; 1; 0]; [0; 0; 0]]]%Z (3, 3)
             [[[0; 0; 0]; [0; 1; 0]; [0; 0; 0]]]%Z [true; true] [] []
             [(1, 1, 1%Z)] [] NORMAL_MODE
             None None None None None None None [] 0 in
  let ev := Event "n" 0 true 0 0 1 1 in
  exists d' a,
    new_object circle13_approx ev d = Done d' /\
    labels d' = labels d /\
    to_keep d' = to_keep d ++ [true] /\
    artists d' = artists d ++ [a] /\
    K_LABEL a = Z.of_nat (length (to_keep d)) /\
    K_EDITED a = true /\ K_OUTSIDE a = true /\
    length (xydata a) = length circle13_approx /\
    length (undo_stack d') = S (length (undo_stack d)) /\
    forall p, In p (xydata a) ->
      (0 <= px p)%Q /\
      (px p < inject_Z (Z.of_nat (snd (shape d))))%Q /\
      (py p < inject_Z (Z.of_nat (fst (shape d))))%Q.
Proof.
  intros d ev. apply (new_object_chain circle13_approx ev d).
  - reflexivity.
  - discriminate.
  - reflexivity.
  - simpl. lia.
Defined.

(** The chain is not clipped at the top: [y] is only limited from above
    (lines 1203-1205), so a new object near the upper edge has points
    with a negative [y]. *)
Example new_object_above_image :
  let d := Dialog false [[[0; 0; 0]; [0; 1; 0]; [0; 0; 0]]]%Z (3, 3)
             [[[0; 0; 0]; [0; 1; 0]; [0; 0; 0]]]%Z [true; true] [] []
             [(1, 1, 1%Z)] [] NORMAL_MODE
             None None None None None None None [] 0 in
  let ev := Event "n" 0 true 0 0 1 1 in
  exists d',
    new_object circle13_approx ev d = Done d' /\
    exists a, In a (artists d') /\ In (1, - (19))%Q (xydata a).
Proof.
  eexists. split; [vm_compute; reflexivity|].
  eexists. split; [left; reflexivity|]. vm_compute. tauto.
Qed.

(* ------------------------------------------------------------------ *)
(** ** Dragging keeps the chains in shape *)

Lemma last_as_nth {A : Type} (d : A) (l : list A) :
  last l d = nth (length l - 1) l d.
Proof.
  induction l as [|a l IH]; [reflexivity|].
  destruct l as [|b l]; [reflexivity|].
  replace (length (a :: b :: l) - 1) with (S (length (b :: l) - 1))
    by (simpl; lia).
  change (last (b :: l) d = nth (length (b :: l) - 1) (b :: l) d).
  exact IH.
Qed.








(* ------------------------------------------------------------------ *)
(** ** Closing the chains of an object *)

(** X8 (close_label, replace_label).  On a dialog with at least one
    plane, whose planes have its shape and whose labels have a keep flag,
    closing the chains of an object succeeds and removes exactly its
    chains.  If none of them was edited the planes are left as they are.
    If one was edited, the object is redrawn from its chains: in the
    flattened raster it then has exactly the pixels that an odd number of
    its chains' polygons cover, so that a polygon inside a polygon is a
    hole, and all other objects keep their pixels.  The restructuring and
    the rasterizer are any that meet their contracts. *)
Theorem close_label_commits
    (get_labels : nat * nat -> list ijv -> list plane)
    (polygon_lines_to_mask : list point -> nat * nat -> mask)
    (label : Z) (d : dialog) :
  restructuring get_labels ->
  (forall sh l, get_labels sh l <> []) ->
  fills_shape polygon_lines_to_mask ->
  raster_ok d -> labels d <> [] ->
  (0 < label < Z.of_nat (length (to_keep d)))%Z ->
  exists d' flat,
    close_label get_labels polygon_lines_to_mask label d = Done d' /\
    calculate_ijv (shape d') (labels d') = Ok flat /\
    to_keep d' = to_keep d /\
    artists d'
    = filter (fun a => negb (Z.eqb (K_LABEL a) label)) (artists d) /\
    (chains_edited d label = false -> labels d' = labels d) /\
    forall i j v,
      In (i, j, v) flat <->
      (v <> label /\ In (i, j, v) (planes_ijv (labels d))) \/
      (v = label /\
       if chains_edited d label
       then mpixel (chain_mask polygon_lines_to_mask d label) i j = true
       else In (i, j, label) (planes_ijv (labels d))).
Proof.
  intros Hgl Hsome Hmask Hok Hne Hl.
  destruct (close_label_spec get_labels polygon_lines_to_mask Hgl Hsome Hmask
              label d Hok Hne Hl)
    as [d' [Hc [[Hs' _] [Hk [Hsh [_ [Ha Hflat]]]]]]].
  exists d', (planes_ijv (labels d')).
  split; [exact Hc|].
  split; [apply calculate_ijv_ok; exact Hs'|].
  split; [exact Hk|]. split; [exact Ha|]. split; [|exact Hflat].
  intros Hed. unfold close_label in Hc.
  change (existsb K_EDITED (filter (has_label label) (artists d)))
    with (chains_edited d label) in Hc.
  rewrite Hed in Hc. injection Hc as <-. reflexivity.
Qed.

Lemma close_label_commits_witness :
  let d := Dialog false [] (2, 3) [[[1; 2; 3]; [1; 2; 0]]]%Z
             [true; true; true; true]
             [Artist 0 [(0, 0); (1, 0); (0, 0)]%Q 1 true true;
              Artist 1 [(0, 0); (0, 0)]%Q 1 false false;
              Artist 2 [(1, 0); (1, 1); (1, 0)]%Q 2 false true] []
             [] [] NORMAL_MODE None None None None None None None [] 3 in
  (exists d0,
     close_label restructure box_mask 1 d = Done d0 /\
     labels d0 = [[[0; 2; 3]; [0; 2; 0]]; [[0; 1; 0]; [0; 0; 0]]]%Z) /\
  exists d' flat,
    close_label restructure box_mask 1 d = Done d' /\
    calculate_ijv (shape d') (labels d') = Ok flat /\
    to_keep d' = to_keep d /\
    artists d'
    = filter (fun a => negb (Z.eqb (K_LABEL a) 1)) (artists d) /\
    (chains_edited d 1 = false -> labels d' = labels d) /\
    forall i j v,
      In (i, j, v) flat <->
      (v <> 1%Z /\ In (i, j, v) (planes_ijv (labels d))) \/
      (v = 1%Z /\
       if chains_edited d 1
       then mpixel (chain_mask box_mask d 1) i j = true
       else In (i, j, 1%Z) (planes_ijv (labels d))).
Proof.
  intros d. split.
  - eexists. split; [vm_compute; reflexivity|]. reflexivity.
  - apply (close_label_commits restructure box_mask 1 d
             restructure_contract restructure_some mask_has_shape_box).
    + split; [reflexivity|]. intros i j v H. vm_compute in H.
      destruct H as [H|[H|[H|[H|[H|[]]]]]]; injection H as _ _ <-; simpl; lia.
    + discriminate.
    + simpl. lia.
Defined.

(* ------------------------------------------------------------------ *)
(** ** The chains that [make_control_points] opens *)

Lemma select_app {A : Type} (a1 a2 : list bool) (l2 : list A) :
  forall l1 : list A,
    length a1 = length l1 ->
    select (a1 ++ a2) (l1 ++ l2) = select a1 l1 ++ select a2 l2.
Proof.
  induction a1 as [|b a1 IH]; intros [|r l1] Hl; try discriminate.
  - simpl. destruct a2, l2; reflexivity.
  - simpl. injection Hl as Hl. rewrite (IH l1 Hl).
    destruct b; reflexivity.
Qed.

Lemma select_incl {A : Type} (acc : list bool) :
  forall (l : list A) (x : A), In x (select acc l) -> In x l.
Proof.
  induction acc as [|b acc IH]; intros [|r l] x H; simpl in H; try tauto.
  destruct b; [destruct H as [H|H]; [left; exact H|]|];
    right; apply IH; exact H.
Qed.

Lemma ends_split {A : Type} (d : A) (l : list A) :
  2 <= length l ->
  exists mid, l = nth 0 l d :: mid ++ [nth (length l - 1) l d] /\
              length l = S (S (length mid)).
Proof.
  intros Hl. destruct l as [|r t]; [simpl in Hl; lia|].
  destruct (exists_last (l := t)) as [mid [z Ht]].
  { intros ->. simpl in Hl. lia. }
  exists mid. subst t. split.
  - simpl nth at 1. f_equal. f_equal. f_equal.
    rewrite <- last_as_nth. rewrite app_comm_cons. rewrite last_last.
    reflexivity.
  - simpl. rewrite length_app. simpl. lia.
Qed.

Lemma closed_ends (r z : point) (mid : list point) :
  closed (r :: mid ++ [z]) <-> r = z.
Proof.
  unfold closed. rewrite app_comm_cons, last_last. simpl. tauto.
Qed.

(** The simplifier keeps a closed chain closed, never leaves a single
    point, and only returns points of the chain. *)
Lemma control_points_closed (chain cp : list point) :
  control_points chain = Some cp ->
  closed chain -> length chain <> 1 ->
  closed cp /\ length cp <> 1 /\ incl cp chain.
Proof.
  unfold control_points, control_points_fuel.
  destruct (Nat.ltb_spec 10 (length chain)) as [Hlen|Hlen].
  2:{ intros H; injection H as <-. intros Hc Hn.
      split; [exact Hc|]. split; [exact Hn|]. apply incl_refl. }
  destruct (seed_accepted_spec (length chain)) as [Hw _]; [lia|].
  destruct (accept_loop_runs chain ltac:(lia) (S (length chain))
              (seed_accepted (length chain)) Hw) as [final [Hrun Hsim]].
  { unfold pending. pose proof (filter_length_le negb
      (seed_accepted (length chain))). destruct Hw as [Hl _]. lia. }
  rewrite Hrun. intros H; injection H as <-. intros Hc _.
  destruct (simplifies_keeps _ _ _ Hsim) as [Hfl Hkeep].
  destruct Hw as [Hsl [Hs0 Hs1]].
  pose proof (Hkeep _ Hs0) as Hf0. pose proof (Hkeep _ Hs1) as Hf1.
  destruct (ends_split origin chain ltac:(lia)) as [mid [Hch Hcl]].
  destruct (ends_split false final ltac:(lia)) as [fmid [Hfi Hfil]].
  rewrite Hfl, Hsl in Hfi. rewrite Hf0, Hf1 in Hfi.
  assert (Hmid : length fmid = length mid) by lia.
  split; [|split].
  - rewrite Hch in Hc |- *. rewrite Hfi. simpl select.
    rewrite (select_app fmid [true] _ mid Hmid). simpl select.
    apply closed_ends. apply closed_ends in Hc. exact Hc.
  - rewrite Hch, Hfi. simpl select.
    rewrite (select_app fmid [true] _ mid Hmid). simpl.
    rewrite length_app. simpl. lia.
  - intros x. apply select_incl.
Qed.

Lemma closing_chain (c : list point) :
  closed (c ++ firstn 1 c) /\ length (c ++ firstn 1 c) <> 1 /\
  incl (c ++ firstn 1 c) c.
Proof.
  destruct c as [|x t].
  - split; [reflexivity|]. split; [discriminate|]. apply incl_refl.
  - change (firstn 1 (x :: t)) with [x]. split; [|split].
    + apply (closed_ends x x t). reflexivity.
    + rewrite length_app. simpl. lia.
    + intros p Hp. apply in_app_or in Hp. destruct Hp as [Hp|[<-|[]]];
        [exact Hp|left; reflexivity].
Qed.

Lemma closed_swap (l : list point) : closed l -> closed (map swap_xy l).
Proof.
  unfold closed. intros H.
  assert (Hh : hd origin (map swap_xy l) = swap_xy (hd origin l))
    by (destruct l; reflexivity).
  assert (Hl : last (map swap_xy l) origin = swap_xy (last l origin)).
  { clear H Hh. induction l as [|a l IH]; [reflexivity|].
    destruct l as [|b l]; [reflexivity|].
    change (last (map swap_xy (b :: l)) origin
            = swap_xy (last (b :: l) origin)).
    apply IH. }
  rewrite Hh, Hl, H. reflexivity.
Qed.

Lemma swap_xy_swap (p : point) : swap_xy (swap_xy p) = p.
Proof. destruct p; reflexivity. Qed.

Lemma add_chains_closed (polarity : bool) (n : Z)
    (chains : list (list point)) :
  forall d : dialog,
  exists d' new,
    add_chains polarity n chains d = Done d' /\
    labels d' = labels d /\ shape d' = shape d /\
    to_keep d' = to_keep d /\ undo_stack d' = undo_stack d /\
    artists d' = artists d ++ new /\
    map K_OUTSIDE new = repeat polarity (length chains) /\
    Forall (fun a =>
              K_LABEL a = n /\ K_EDITED a = false /\
              closed (xydata a) /\ length (xydata a) <> 1 /\
              forall p, In p (xydata a) ->
                exists raw, In raw chains /\ In (swap_xy p) raw) new.
Proof.
  induction chains as [|raw rest IH]; intros d.
  { exists d, []. simpl. rewrite app_nil_r. repeat split; auto. }
  cbn [add_chains].
  set (c := if polarity then raw else rev raw).
  destruct (control_points_total (c ++ firstn 1 c)) as [cp Hcp].
  rewrite Hcp.
  destruct (closing_chain c) as [Hc1 [Hc2 Hc3]].
  destruct (control_points_closed _ _ Hcp Hc1 Hc2) as [Hp1 [Hp2 Hp3]].
  destruct (IH (set_next_id (S (next_id d))
                  (set_artists
                     (artists d ++ [Artist (next_id d) (map swap_xy cp) n
                                           false polarity]) d)))
    as [d' [new [H1 [H2 [H3 [H4 [H5 [H6 [H7 H8]]]]]]]]].
  exists d', (Artist (next_id d) (map swap_xy cp) n false polarity :: new).
  split; [exact H1|]. split; [exact H2|]. split; [exact H3|].
  split; [exact H4|]. split; [exact H5|]. split; [|split].
  - rewrite H6. simpl. rewrite <- app_assoc. reflexivity.
  - simpl. rewrite H7. reflexivity.
  - constructor.
    + simpl. split; [reflexivity|]. split; [reflexivity|].
      split; [apply closed_swap; exact Hp1|].
      split; [rewrite length_map; exact Hp2|].
      intros p Hp. apply in_map_iff in Hp. destruct Hp as [q [<- Hq]].
      rewrite swap_xy_swap. exists raw. split; [left; reflexivity|].
      apply Hp3, Hc3 in Hq. unfold c in Hq.
      destruct polarity; [exact Hq|apply in_rev; exact Hq].
    + eapply Forall_impl; [|exact H8].
      intros a [Ha [Hb [Hc [Hd He]]]].
      split; [exact Ha|]. split; [exact Hb|]. split; [exact Hc|].
      split; [exact Hd|].
      intros p Hp. destruct (He p Hp) as [r [Hr Hq]].
      exists r. split; [right; exact Hr|exact Hq].
Qed.

(** X9 (make_control_points).  On a dialog whose planes have its shape,
    opening the chains of an object succeeds, whatever outlines
    [get_outline_pts] traces: the simplifier loop ends on every chain.  The raster, the keep flags and the undo
    stack are left alone, and the new chains come after the open ones,
    first one per outline of the object and then one per outline of a
    hole.  Every new chain carries the object's number, is not edited, is
    closed (its last stored point repeats its first), never consists of a
    single point, and each of its points, read back as row and column, is
    a point of the outline it was made from. *)
Theorem make_control_points_appends
    (outline_pts : bool -> mask -> list (list point)) (n : Z) (d : dialog) :
  forallb (has_shapeb (shape d)) (labels d) = true ->
  exists d' new,
    make_control_points outline_pts n d = Done d' /\
    labels d' = labels d /\ to_keep d' = to_keep d /\
    undo_stack d' = undo_stack d /\
    artists d' = artists d ++ new /\
    map K_OUTSIDE new
    = repeat true (length (outline_pts true (object_mask d n)))
      ++ repeat false (length (outline_pts false (object_mask d n))) /\
    Forall (fun a =>
              K_LABEL a = n /\ K_EDITED a = false /\
              closed (xydata a) /\ length (xydata a) <> 1 /\
              forall p, In p (xydata a) ->
                exists raw,
                  In raw (outline_pts (K_OUTSIDE a) (object_mask d n)) /\
                  In (swap_xy p) raw) new.
Proof.
  intros _. unfold make_control_points.
  destruct (add_chains_closed true n (outline_pts true (object_mask d n)) d)
    as [d1 [new1 [H1 [H2 [H3 [H4 [H5 [H6 [H7 H8]]]]]]]]].
  rewrite H1. simpl.
  destruct (add_chains_closed false n (outline_pts false (object_mask d n))
              d1)
    as [d2 [new2 [G1 [G2 [G3 [G4 [G5 [G6 [G7 G8]]]]]]]]].
  exists d2, (new1 ++ new2).
  split; [exact G1|]. split; [congruence|]. split; [congruence|].
  split; [congruence|]. split; [|split].
  - rewrite G6, H6, app_assoc. reflexivity.
  - rewrite map_app, H7, G7. reflexivity.
  - assert (Hpol : forall pol new,
              map K_OUTSIDE new = repeat pol (length new) ->
              Forall (fun a => K_OUTSIDE a = pol) new).
    { intros pol new. induction new as [|a new IH]; intros H;
        constructor; simpl in H; injection H as Ha Hn; auto. }
    assert (L1 : length new1
                 = length (outline_pts true (object_mask d n))).
    { rewrite <- (length_map K_OUTSIDE), H7, repeat_length. reflexivity. }
    assert (L2 : length new2
                 = length (outline_pts false (object_mask d n))).
    { rewrite <- (length_map K_OUTSIDE), G7, repeat_length. reflexivity. }
    rewrite <- L1 in H7. rewrite <- L2 in G7.
    apply Hpol in H7. apply Hpol in G7.
    apply Forall_app. split.
    + rewrite Forall_forall in *. intros a Ha.
      destruct (H8 a Ha) as [A1 [A2 [A3 [A4 A5]]]].
      rewrite (H7 a Ha). auto.
    + rewrite Forall_forall in *. intros a Ha.
      destruct (G8 a Ha) as [A1 [A2 [A3 [A4 A5]]]].
      rewrite (G7 a Ha). auto.
Qed.

Lemma make_control_points_appends_witness :
  let outline := [(1, 1); (1, 2); (1, 3); (1, 4); (2, 4); (3, 4); (4, 4);
                  (4, 3); (4, 2); (4, 1); (3, 1); (2, 1)]%Q in
  let op := fun (pol : bool) (_ : mask) =>
              if pol then [outline] else [] in
  let d := Dialog false [] (1, 1) [[[1%Z]]] [true; true] [] []
             [] [] NORMAL_MODE None None None None None None None [] 0 in
  (exists d0,
     make_control_points op 1 d = Done d0 /\
     map xydata (artists d0)
     = [[(1, 1); (4, 1); (4, 4); (1, 4); (1, 1)]%Q]) /\
  exists d' new,
    make_control_points op 1 d = Done d' /\
    labels d' = labels d /\ to_keep d' = to_keep d /\
    undo_stack d' = undo_stack d /\
    artists d' = artists d ++ new /\
    map K_OUTSIDE new
    = repeat true (length (op true (object_mask d 1)))
      ++ repeat false (length (op false (object_mask d 1))) /\
    Forall (fun a =>
              K_LABEL a = 1%Z /\ K_EDITED a = false /\
              closed (xydata a) /\ length (xydata a) <> 1 /\
              forall p, In p (xydata a) ->
                exists raw,
                  In raw (op (K_OUTSIDE a) (object_mask d 1)) /\
                  In (swap_xy p) raw) new.
Proof.
  intros outline op d. split.
  - eexists. split; vm_compute; reflexivity.
  - exact (make_control_points_appends op 1 d eq_refl).
Defined.

(* ------------------------------------------------------------------ *)
(** ** Keep, remove and toggle *)

Lemma map_tail_nth (f : bool -> bool) (a : list bool) (i : nat) :
  i < length a ->
  nth i (map_tail f a) false
  = if Nat.eqb i 0 then nth 0 a false else f (nth i a false).
Proof.
  destruct a as [|h t]; simpl; [lia|]. intros Hi.
  destruct i as [|i]; [reflexivity|]. simpl.
  rewrite (nth_indep (map f t) false (f false))
    by (rewrite length_map; lia).
  apply map_nth.
Qed.

(** X10 (on_keep, on_remove, on_toggle).  The three buttons set, clear or
    invert the keep flag of every object and leave the flag of slot 0, the
    background, as it is; the array keeps its length and nothing else of
    the dialog changes.  Toggling twice gives the dialog back, and
    toggling after keeping all is removing all. *)
Theorem keep_remove_toggle (d : dialog) :
  (forall i, 0 < i < length (to_keep d) ->
     nth i (to_keep (on_keep d)) false = true /\
     nth i (to_keep (on_remove d)) false = false /\
     nth i (to_keep (on_toggle d)) false = negb (nth i (to_keep d) false)) /\
  (nth 0 (to_keep (on_keep d)) false = nth 0 (to_keep d) false /\
   nth 0 (to_keep (on_remove d)) false = nth 0 (to_keep d) false /\
   nth 0 (to_keep (on_toggle d)) false = nth 0 (to_keep d) false) /\
  (length (to_keep (on_keep d)) = length (to_keep d) /\
   length (to_keep (on_remove d)) = length (to_keep d) /\
   length (to_keep (on_toggle d)) = length (to_keep d)) /\
  (set_to_keep (to_keep d) (on_keep d) = d /\
   set_to_keep (to_keep d) (on_remove d) = d /\
   set_to_keep (to_keep d) (on_toggle d) = d) /\
  on_toggle (on_toggle d) = d /\
  on_toggle (on_keep d) = on_remove d.
Proof.
  destruct d as [ao ol sh ls tk ar us li las mo aa ai sa dma dmr dms dmf pk
                   ni].
  unfold on_keep, on_remove, on_toggle, set_to_keep. simpl.
  split; [|split; [|split; [|split; [|split]]]].
  - intros i Hi. rewrite !map_tail_nth by lia.
    destruct (Nat.eqb_spec i 0); [lia|]. auto.
  - destruct tk; auto.
  - destruct tk; simpl; rewrite ?length_map; auto.
  - auto.
  - f_equal. destruct tk as [|h t]; [reflexivity|]. simpl. f_equal.
    rewrite map_map. rewrite <- (map_id t) at 2.
    apply map_ext. apply negb_involutive.
  - f_equal. destruct tk as [|h t]; [reflexivity|]. simpl. f_equal.
    rewrite map_map. reflexivity.
Qed.

(* ------------------------------------------------------------------ *)
(** ** Closing the dialog *)

Lemma discard_fold (idxs : list nat) : forall d : dialog,
  let d' := fold_left
              (fun d idx =>
                 if 0 <? idx then remove_label (Z.of_nat idx) d else d)
              idxs d in
  to_keep d' = to_keep d /\ artists d' = artists d /\ shape d' = shape d /\
  forallb (has_shapeb (shape d)) (labels d')
  = forallb (has_shapeb (shape d)) (labels d) /\
  planes_ijv (labels d')
  = filter (fun t : ijv =>
              negb (existsb (fun idx => (0 <? idx)
                                        && Z.eqb (snd t) (Z.of_nat idx))
                            idxs))
           (planes_ijv (labels d)).
Proof.
  induction idxs as [|idx idxs IH]; intros d; simpl.
  { repeat split; auto. symmetry. apply filter_all. reflexivity. }
  destruct (IH (if 0 <? idx then remove_label (Z.of_nat idx) d else d))
    as [H1 [H2 [H3 [H4 H5]]]].
  destruct (0 <? idx) eqn:E.
  - split; [exact H1|]. split; [exact H2|]. split; [exact H3|]. split.
    + change (shape (remove_label (Z.of_nat idx) d)) with (shape d) in H4.
      rewrite H4. unfold remove_label. destruct d; simpl.
      apply forallb_has_shapeb_erase.
    + rewrite H5. unfold remove_label at 1. destruct d; simpl.
      rewrite planes_ijv_erase, filter_filter.
      apply filter_ext_in'. intros t _. simpl.
      destruct (Z.eqb (snd t) (Z.of_nat idx)); reflexivity.
  - split; [exact H1|]. split; [exact H2|]. split; [exact H3|].
    split; [exact H4|]. rewrite H5. reflexivity.
Qed.

Lemma discarded_spec (tk : list bool) (v : Z) :
  (0 < v < Z.of_nat (length tk))%Z ->
  (existsb (fun idx => (0 <? idx) && Z.eqb v (Z.of_nat idx))
           (argwhere (map negb tk)) = false
   <-> nth (Z.to_nat v) tk false = true).
Proof.
  intros Hv.
  assert (Hi : Z.to_nat v < length tk) by lia.
  assert (Hn : nth (Z.to_nat v) (map negb tk) false
               = negb (nth (Z.to_nat v) tk false)).
  { rewrite (nth_indep (map negb tk) false (negb false))
      by (rewrite length_map; lia).
    apply map_nth. }
  split.
  - intros H. destruct (nth (Z.to_nat v) tk false) eqn:E; [reflexivity|].
    assert (Hex : existsb (fun idx => (0 <? idx) && Z.eqb v (Z.of_nat idx))
                    (argwhere (map negb tk)) = true).
    { apply existsb_exists. exists (Z.to_nat v). split.
      - apply argwhere_In. rewrite Hn. reflexivity.
      - apply andb_true_iff. split; [apply Nat.ltb_lt; lia|].
        apply Z.eqb_eq. lia. }
    congruence.
  - intros H.
    destruct (existsb (fun idx => (0 <? idx) && Z.eqb v (Z.of_nat idx))
                (argwhere (map negb tk))) eqn:E; [|reflexivity].
    apply existsb_exists in E. destruct E as [idx [Hin Hidx]].
    apply andb_true_iff in Hidx. destruct Hidx as [_ Hidx].
    apply Z.eqb_eq in Hidx. apply argwhere_In in Hin.
    assert (idx = Z.to_nat v) by lia. subst idx.
    rewrite Hn, H in Hin. discriminate.
Qed.

Lemma chains_edited_none (d : dialog) (v : Z) :
  ~ In v (map K_LABEL (artists d)) -> chains_edited d v = false.
Proof.
  intros H. unfold chains_edited, chains_of.
  rewrite (filter_none (has_label v) (artists d)); [reflexivity|].
  intros a Ha. unfold has_label.
  destruct (Z.eqb_spec (K_LABEL a) v) as [E|E]; [|reflexivity].
  exfalso. apply H. rewrite <- E. apply in_map. exact Ha.
Qed.

(** X11 (on_close, close_label, remove_label).  When the dialog is closed
    with OK, on a dialog with at least one plane whose planes have its
    shape and whose labels have a keep flag, every open chain is closed
    and the objects that are not kept are erased: the raster that is left
    holds a pixel for an object exactly when the object is kept and the
    pixel is the object's after its chains were committed, that is in the
    parity fill of its chains if one of them was edited, and in the
    raster as it was otherwise.  This holds in whatever order the set of
    open labels is iterated.  Closing with anything but OK leaves the
    dialog as it is. *)
Theorem on_close_commits
    (get_labels : nat * nat -> list ijv -> list plane)
    (polygon_lines_to_mask : list point -> nat * nat -> mask)
    (set_order : list Z -> list Z) (d : dialog) :
  restructuring get_labels ->
  (forall sh l, get_labels sh l <> []) ->
  fills_shape polygon_lines_to_mask ->
  (forall l v, In v (set_order l) <-> In v l) ->
  coherent d = true -> labels d <> [] ->
  on_close get_labels polygon_lines_to_mask set_order false d = Done d /\
  exists d' flat,
    on_close get_labels polygon_lines_to_mask set_order true d = Done d' /\
    calculate_ijv (shape d') (labels d') = Ok flat /\
    artists d' = [] /\ to_keep d' = to_keep d /\
    forall i j v,
      In (i, j, v) flat <->
      nth (Z.to_nat v) (to_keep d) false = true /\
      committed polygon_lines_to_mask d v i j.
Proof.
  intros Hgl Hsome Hmask Hset Hco Hne.
  split; [reflexivity|].
  destruct (coherent_spec d Hco) as [Hok Hsel].
  unfold on_close.
  destruct (close_labels_spec get_labels polygon_lines_to_mask Hgl Hsome
              Hmask d (set_order (map K_LABEL (artists d))) [] d
              (closed_state_start polygon_lines_to_mask d Hok Hne))
    as [dk [Hc [Hokk [Hkk [Hshk [_ [Hak Hflat]]]]]]].
  { intros w Hw. apply Hsel. apply unique_In. apply Hset. exact Hw. }
  rewrite Hc. simpl and_then.
  unfold remove_discarded.
  destruct (discard_fold (argwhere (map negb (to_keep dk))) dk)
    as [H1 [H2 [H3 [H4 H5]]]].
  eexists. exists (planes_ijv (labels (fold_left
              (fun d idx =>
                 if 0 <? idx then remove_label (Z.of_nat idx) d else d)
              (argwhere (map negb (to_keep dk))) dk))).
  split; [reflexivity|].
  assert (Hdone : forall v,
            In v (rev (set_order (map K_LABEL (artists d))) ++ [])
            <-> In v (map K_LABEL (artists d))).
  { intros v. rewrite app_nil_r, <- in_rev. apply Hset. }
  split; [|split; [|split]].
  - apply calculate_ijv_ok. rewrite H3, H4. apply Hokk.
  - rewrite H2, Hak. apply filter_none. intros a Ha.
    apply negb_false_iff. apply existsb_label. apply Hdone.
    apply in_map. exact Ha.
  - rewrite H1. exact Hkk.
  - intros i j v. rewrite H5, filter_In. simpl snd.
    rewrite negb_true_iff.
    assert (Hcomm : In (i, j, v) (planes_ijv (labels dk))
                    <-> committed polygon_lines_to_mask d v i j).
    { rewrite Hflat. rewrite Hdone. split.
      - intros [[Hn Hin]|[_ Hcm]]; [|exact Hcm].
        unfold committed. rewrite (chains_edited_none d v Hn). exact Hin.
      - intros Hcm.
        destruct (in_dec Z.eq_dec v (map K_LABEL (artists d))) as [Hi|Hi];
          [right; auto|left].
        split; [exact Hi|]. unfold committed in Hcm.
        rewrite (chains_edited_none d v Hi) in Hcm. exact Hcm. }
    split.
    + intros [Hin Hex]. split; [|apply Hcomm; exact Hin].
      rewrite <- Hkk. apply discarded_spec; [|exact Hex].
      apply (proj2 Hokk i j v Hin).
    + intros [Hkeep Hcm]. apply Hcomm in Hcm. split; [exact Hcm|].
      apply discarded_spec; [apply (proj2 Hokk i j v Hcm)|].
      rewrite Hkk. exact Hkeep.
Qed.

Lemma on_close_commits_witness :
  let d := Dialog false [] (2, 3) [[[1; 2; 3]; [1; 2; 0]]]%Z
             [true; true; false; true]
             [Artist 0 [(0, 0); (1, 0); (0, 0)]%Q 1 true true;
              Artist 1 [(0, 0); (0, 0)]%Q 1 false false;
              Artist 2 [(1, 0); (1, 1); (1, 0)]%Q 2 false true] []
             [] [] NORMAL_MODE None None None None None None None [] 3 in
  (exists d0,
     on_close restructure box_mask unique true d = Done d0 /\
     labels d0 = [[[0; 0; 3]; [0; 0; 0]]; [[0; 1; 0]; [0; 0; 0]]]%Z) /\
  on_close restructure box_mask unique false d = Done d /\
  exists d' flat,
    on_close restructure box_mask unique true d = Done d' /\
    calculate_ijv (shape d') (labels d') = Ok flat /\
    artists d' = [] /\ to_keep d' = to_keep d /\
    forall i j v,
      In (i, j, v) flat <->
      nth (Z.to_nat v) (to_keep d) false = true /\
      committed box_mask d v i j.
Proof.
  intros d. split.
  - eexists. split; [vm_compute; reflexivity|]. reflexivity.
  - apply (on_close_commits restructure box_mask unique d
             restructure_contract restructure_some mask_has_shape_box
             unique_In).
    + reflexivity.
    + discriminate.
Defined.

(* ------------------------------------------------------------------ *)
(** ** Which second point a split accepts *)

(** X12 (ok_to_split).  With both chains in the dictionary and both
    picked indices pointing at control points (not at the closing point),
    the second point of a split is accepted exactly when it belongs to
    the same object as the first and either lies on the same chain with
    at least one control point between the two on either way round the
    closed chain, or lies on another chain of the opposite kind (an
    outline against a hole).  A chain that is no longer in the
    dictionary raises KeyError. *)
Theorem ok_to_split_spec (sp : split_pick) (k i : nat) (d : dialog)
    (a b : artist) :
  find_artist k d = Some a ->
  find_artist (split_pick_artist sp) d = Some b ->
  i < length (xydata a) - 1 ->
  split_pick_index sp < length (xydata b) - 1 ->
  exists ok,
    ok_to_split sp k i d = Ok ok /\
    (ok = true <->
     K_LABEL a = K_LABEL b /\
     ((k = split_pick_artist sp /\
       2 <= Nat.max i (split_pick_index sp) - Nat.min i (split_pick_index sp)
         <= length (xydata a) - 3) \/
      (k <> split_pick_artist sp /\ K_OUTSIDE a <> K_OUTSIDE b))).
Proof.
  intros Ha Hb Hi Hj. unfold ok_to_split. rewrite Ha, Hb.
  eexists. split; [reflexivity|].
  destruct (Z.eqb_spec (K_LABEL a) (K_LABEL b)) as [El|El]; simpl.
  2:{ split; [discriminate|]. intros [H _]. contradiction. }
  destruct (Nat.eqb_spec k (split_pick_artist sp)) as [Ek|Ek].
  - assert (b = a) by (rewrite <- Ek, Ha in Hb; congruence). subst b.
    destruct (Z.ltb_spec
                (Z.max (Z.of_nat i) (Z.of_nat (split_pick_index sp))
                 - Z.min (Z.of_nat i) (Z.of_nat (split_pick_index sp))) 2)
      as [H2|H2].
    { split; [discriminate|]. intros [_ [[_ H]|[H _]]]; lia. }
    destruct (Z.leb_spec
                (Z.of_nat (length (xydata a))
                 - Z.max (Z.of_nat i) (Z.of_nat (split_pick_index sp))) 2)
      as [H3|H3];
      destruct (Z.eqb_spec
                  (Z.min (Z.of_nat i) (Z.of_nat (split_pick_index sp))) 0)
        as [H4|H4]; simpl.
    + split; [discriminate|]. intros [_ [[_ H]|[H _]]]; lia.
    + split; [intros _|reflexivity]. split; [exact El|]. left. lia.
    + split; [intros _|reflexivity]. split; [exact El|]. left. lia.
    + split; [intros _|reflexivity]. split; [exact El|]. left. lia.
  - destruct (Bool.eqb (K_OUTSIDE a) (K_OUTSIDE b)) eqn:Eo.
    + apply Bool.eqb_prop in Eo. split; [discriminate|].
      intros [_ [[H _]|[_ H]]]; contradiction.
    + split; [intros _|reflexivity]. split; [exact El|]. right.
      split; [exact Ek|]. intros H. rewrite H, Bool.eqb_reflx in Eo.
      discriminate.
Qed.

Lemma ok_to_split_spec_witness :
  let sq := [(0, 0); (4, 0); (4, 4); (2, 6); (0, 4); (0, 0)]%Q in
  let d := Dialog false [] (8, 8) [] [true; true]
             [Artist 0 sq 1 false true] []
             [] [] SPLIT_PICK_SECOND_MODE None None None None None None None
             [] 1 in
  ok_to_split (SplitPick 0 0) 0 2 d = Ok true /\
  ok_to_split (SplitPick 0 0) 0 4 d = Ok false /\
  ok_to_split (SplitPick 0 0) 0 1 d = Ok false /\
  ok_to_split (SplitPick 7 0) 0 2 d = Raise KeyError /\
  exists ok,
    ok_to_split (SplitPick 0 0) 0 2 d = Ok ok /\
    (ok = true <->
     1%Z = 1%Z /\
     ((0 = 0 /\ 2 <= Nat.max 2 0 - Nat.min 2 0 <= 6 - 3) \/
      (0 <> 0 /\ true <> true))).
Proof.
  intros sq d.
  split; [reflexivity|]. split; [reflexivity|]. split; [reflexivity|].
  split; [reflexivity|].
  exact (ok_to_split_spec (SplitPick 0 0) 0 2 d
           (Artist 0 sq 1 false true) (Artist 0 sq 1 false true)
           eq_refl eq_refl ltac:(simpl; lia) ltac:(simpl; lia)).
Defined.
